(** * minicell: a shallow embedding of [src/index.ts]

    The program reads a comma-separated grid whose first row names the
    columns, classifies every other cell as a number or a formula and
    evaluates the formulas.  This file embeds the tokenizer
    ([parseMathExp]), the cell classifier ([parseCell]), the grid parser
    ([parseCells]), the evaluator ([evalCell], together with the
    module-level variable [refTrace]) and the arithmetic reducer
    ([calcMath]), and states the properties of the specification over
    them.

    Modelling conventions.
    - A JavaScript [number] is an IEEE 754 binary64 value: [spec_float]
      at precision 53 and maximal exponent 1024, with a single NaN.
    - A JavaScript string is a [string]; one character stands for one
      UTF-16 code unit, so the embedding covers the strings whose code
      units are below 256.
    - [throw] is the constructor [Throw] of [Outcome]; the messages of the
      source are the constructors of [Error], their interpolated parts the
      arguments.
    - The module-level [refTrace] is threaded explicitly through
      [evalCell]; the depth of the JavaScript call stack is the fuel. *)

From Stdlib Require Import ZArith List String Ascii Bool Arith Lia DecimalString DecimalNat.
From Stdlib Require Import Floats.SpecFloat.
Import ListNotations.

Local Open Scope string_scope.
Local Open Scope list_scope.

(** ** Numbers *)

Module Number.

Definition number : Type := spec_float.

Definition prec : Z := 53.
Definition emax : Z := 1024.

Definition NaN : number := S754_nan.
Definition Infinity : number := S754_infinity false.

Definition add : number -> number -> number := SFadd prec emax.
Definition sub : number -> number -> number := SFsub prec emax.
Definition mul : number -> number -> number := SFmul prec emax.
Definition div : number -> number -> number := SFdiv prec emax.

(** [isNaN] on a value that already is a number. *)
Definition isNaN (x : number) : bool :=
  match x with
  | S754_nan => true
  | _ => false
  end.

(** The number nearest to the integer [z] (ties to even). *)
Definition ofZ (z : Z) : number := binary_normalize prec emax z 0 false.

(** The number nearest to [(-1)^neg * m * 10^e] (ties to even), the
    value a decimal literal with digits [m] and decimal exponent [e]
    denotes.  A non-negative exponent gives an integer, rounded once; a
    negative one gives a quotient of two integers, divided and rounded
    once as a floating-point division is. *)
Definition ofDecimal (neg : bool) (m : Z) (e : Z) : number :=
  match m with
  | Z0 => S754_zero neg
  | Zpos p =>
      match e with
      | Zneg k =>
          let '(q, e', l) :=
            SFdiv_core_binary prec emax (Zpos p) 0 (Z.pow 10 (Zpos k)) 0 in
          binary_round_aux prec emax neg q e' l
      | _ =>
          match (Zpos p * Z.pow 10 e)%Z with
          | Zpos n => binary_round prec emax neg n 0
          | _ => NaN
          end
      end
  | Zneg _ => NaN
  end.

End Number.

Import Number.

(** ** Characters and strings *)

Definition chars (s : string) : list ascii := list_ascii_of_string s.
Definition text (l : list ascii) : string := string_of_list_ascii l.

Definition code (c : ascii) : nat := nat_of_ascii c.

(** [DIGIT_REGEX.test(char)] on a one-character string. *)
Definition isDigit (c : ascii) : bool :=
  ((48 <=? code c) && (code c <=? 57))%nat.

(** [ALPHA_REGEX.test(char)] on a one-character string. *)
Definition isAlpha (c : ascii) : bool :=
  (((65 <=? code c) && (code c <=? 90)) || ((97 <=? code c) && (code c <=? 122)))%nat.

(** White space and line terminators, the characters [trim] and
    [parseFloat] strip: TAB, LF, VT, FF, CR, SP and NBSP below 256. *)
Definition isSpace (c : ascii) : bool :=
  (((9 <=? code c) && (code c <=? 13)) || (code c =? 32) || (code c =? 160))%nat.

Definition LF : ascii := ascii_of_nat 10.

(** The longest prefix of [l] whose characters satisfy [p], and the rest. *)
Fixpoint span (p : ascii -> bool) (l : list ascii) : list ascii * list ascii :=
  match l with
  | [] => ([], [])
  | c :: l' =>
      if p c then let '(a, b) := span p l' in (c :: a, b) else ([], l)
  end.

Fixpoint dropWhile (p : ascii -> bool) (l : list ascii) : list ascii :=
  match l with
  | [] => []
  | c :: l' => if p c then dropWhile p l' else l
  end.

(** [String.prototype.trim] on the list of characters. *)
Definition trimChars (l : list ascii) : list ascii :=
  rev (dropWhile isSpace (rev (dropWhile isSpace l))).

Definition trim (s : string) : string := text (trimChars (chars s)).

(** [s.split(sep)] for a one-character separator: never empty. *)
Fixpoint splitChars (sep : ascii) (l : list ascii) : list (list ascii) :=
  match l with
  | [] => [[]]
  | c :: l' =>
      if Ascii.eqb c sep then [] :: splitChars sep l'
      else
        match splitChars sep l' with
        | [] => [[c]]
        | w :: ws => (c :: w) :: ws
        end
  end.

Definition split (sep : ascii) (s : string) : list string :=
  map text (splitChars sep (chars s)).

(** [ALPHA_REGEX.test(src)]: one letter or more and nothing else. *)
Definition isAlphaString (s : string) : bool :=
  match chars s with
  | [] => false
  | l => forallb isAlpha l
  end.

(** ** [parseFloat] *)

Definition digitValue (c : ascii) : Z := Z.of_nat (code c - 48).

Definition digitsToZ (ds : list ascii) : Z :=
  fold_left (fun acc c => (10 * acc + digitValue c)%Z) ds 0%Z.

Fixpoint startsWith (pre l : list ascii) : bool :=
  match pre, l with
  | [], _ => true
  | _ :: _, [] => false
  | a :: pre', b :: l' => Ascii.eqb a b && startsWith pre' l'
  end.

(** The value of an [ExponentPart] at the head of [l], if there is one:
    [e] or [E], an optional sign and at least one digit. *)
Definition exponentPart (l : list ascii) : Z :=
  match l with
  | c :: r =>
      if Ascii.eqb c "e" || Ascii.eqb c "E" then
        let '(neg, r') :=
          match r with
          | s :: r' =>
              if Ascii.eqb s "+" then (false, r')
              else if Ascii.eqb s "-" then (true, r')
              else (false, r)
          | [] => (false, r)
          end in
        match fst (span isDigit r') with
        | [] => 0%Z
        | ds => if neg then (- digitsToZ ds)%Z else digitsToZ ds
        end
      else 0%Z
  | [] => 0%Z
  end.

(** The value of the longest [StrUnsignedDecimalLiteral] at the head of
    [u], with the sign [neg]: [Infinity], or digits with an optional
    fraction and exponent, or a fraction with an optional exponent; [NaN]
    when there is none. *)
Definition unsignedLiteral (neg : bool) (u : list ascii) : number :=
  if startsWith (chars "Infinity") u then S754_infinity neg
  else
    let '(ip, u1) := span isDigit u in
    let '(fp, u2) :=
      match u1 with
      | c :: r => if Ascii.eqb c "." then span isDigit r else ([], u1)
      | [] => ([], u1)
      end in
    match ip ++ fp with
    | [] => NaN
    | ds => ofDecimal neg (digitsToZ ds) (exponentPart u2 - Z.of_nat (List.length fp))
    end.

(** What is left of [l] after the leading white space and one sign. *)
Definition unsigned (l : list ascii) : bool * list ascii :=
  match dropWhile isSpace l with
  | c :: u =>
      if Ascii.eqb c "+" then (false, u)
      else if Ascii.eqb c "-" then (true, u)
      else (false, c :: u)
  | [] => (false, [])
  end.

(** The built-in [parseFloat]: leading white space is skipped, the longest
    prefix that is a [StrDecimalLiteral] is read and its value rounded to
    the nearest number; [NaN] when no prefix is one. *)
Definition parseFloatChars (l : list ascii) : number :=
  let '(neg, u) := unsigned l in unsignedLiteral neg u.

Definition parseFloat (s : string) : number := parseFloatChars (chars s).

(** ** Data model *)

Inductive MathOp : Type := Plus | Minus | Times | Divide.

Inductive MathToken : Type :=
| Operator (value : MathOp)
| Value (value : number)
| Ref (value : string).

Definition MathExp : Type := list MathToken.

Inductive CellContent : Type :=
| ValueCell (value : number) (src : string)
| IdentifierCell (value : string) (src : string)
| ExpressionCell (value : MathExp) (src : string).

(** A cell object.  [oid] is the identity of the object, which [===]
    compares: two cells are the same object exactly when their [oid]s are
    equal.  [parseCells] numbers the objects it creates in creation
    order. *)
Record Cell : Type := mkCell {
  oid : nat;
  content : CellContent;
  identifier : string
}.

Definition glyph (o : MathOp) : string :=
  match o with
  | Plus => "+"
  | Minus => "-"
  | Times => "*"
  | Divide => "/"
  end.

(** What reading [t.value] gives for a token [t]: a number for a Value
    token, a string for an Operator or a Ref token. *)
Inductive Operand : Type :=
| Num (n : number)
| Str (s : string).

Definition tokenValue (t : MathToken) : Operand :=
  match t with
  | Operator o => Str (glyph o)
  | Value v => Num v
  | Ref r => Str r
  end.

(** ** Errors and outcomes *)

(** One constructor per [throw] of the source, named after its message,
    and [TypeError] for the error the runtime raises when a property of
    [undefined] is read. *)
Inductive Error : Type :=
| InvalidExpression (src : string)
| InvalidNumberLiteral (numRaw : string)
| InvalidCellValue (src : string)
| InvalidGrid
| OnlyIdentifiersInFirstRow
| DuplicateIdentifiers
| IdentifiersOnlyInFirstRow
| CyclicReference (chain : list string)
| CannotEvaluateIdentifier (name : string)
| CouldNotFindRef (name : string)
| CantEvaluate (left shown right : Operand)
| InvalidToken (value : Operand)
| TypeError.

(** The kinds of error the specification names. *)
Inductive ErrorKind : Type :=
| MalformedExpression
| InvalidNumberLiteralKind
| InvalidCellValueKind
| RaggedGrid
| HeaderMustBeIdentifiers
| DuplicateIdentifier
| IdentifierOutsideHeader
| CyclicReferenceKind
| CannotEvaluateIdentifierKind
| UnresolvedReference
| ArithmeticError
| RuntimeTypeError.

Definition kind (e : Error) : ErrorKind :=
  match e with
  | InvalidExpression _ => MalformedExpression
  | InvalidNumberLiteral _ => InvalidNumberLiteralKind
  | InvalidCellValue _ => InvalidCellValueKind
  | InvalidGrid => RaggedGrid
  | OnlyIdentifiersInFirstRow => HeaderMustBeIdentifiers
  | DuplicateIdentifiers => DuplicateIdentifier
  | IdentifiersOnlyInFirstRow => IdentifierOutsideHeader
  | CyclicReference _ => CyclicReferenceKind
  | CannotEvaluateIdentifier _ => CannotEvaluateIdentifierKind
  | CouldNotFindRef _ => UnresolvedReference
  | CantEvaluate _ _ _ => ArithmeticError
  | InvalidToken _ => MalformedExpression
  | TypeError => RuntimeTypeError
  end.

(** [a.join(sep)] on an array of strings. *)
Fixpoint join (sep : string) (l : list string) : string :=
  match l with
  | [] => ""
  | [s] => s
  | s :: l' => (s ++ sep ++ join sep l')%string
  end.

(** The message of the cyclic-reference error. *)
Definition cyclicMessage (chain : list string) : string :=
  ("Cyclic reference: " ++ join " -> " chain)%string.

(** The outcome of a call: it returns, it throws, it needs more call-stack
    depth or more loop rounds than the fuel allows ([OutOfFuel]), or it goes on with a string
    where a number is expected ([Uncovered]: string-valued arithmetic is
    not evaluated by this embedding; see [arith]). *)
Inductive Outcome (A : Type) : Type :=
| Return (a : A)
| Throw (e : Error)
| Uncovered
| OutOfFuel.

Arguments Return {A} a.
Arguments Throw {A} e.
Arguments Uncovered {A}.
Arguments OutOfFuel {A}.

Definition bind {A B : Type} (m : Outcome A) (k : A -> Outcome B) : Outcome B :=
  match m with
  | Return a => k a
  | Throw e => Throw e
  | Uncovered => Uncovered
  | OutOfFuel => OutOfFuel
  end.

Declare Scope outcome_scope.
Delimit Scope outcome_scope with outcome.
Notation "x <- m ;; k" := (bind m (fun x => k))
  (at level 61, m at next level, right associativity) : outcome_scope.
Local Open Scope outcome_scope.

(** [a.map(f)] where [f] may throw: left to right, stopping at the first
    throw. *)
Fixpoint mapOutcome {A B : Type} (f : A -> Outcome B) (l : list A)
  : Outcome (list B) :=
  match l with
  | [] => Return []
  | a :: l' => b <- f a ;; bs <- mapOutcome f l' ;; Return (b :: bs)
  end.

(** ** The tokenizer *)

Definition isNumberStart (c : ascii) : bool :=
  Ascii.eqb c "." || isDigit c || Ascii.eqb c "-".

Definition isNumberPart (c : ascii) : bool :=
  Ascii.eqb c "." || isDigit c.

Definition isRefPart (c : ascii) : bool := isAlpha c || isDigit c.

Definition operatorOf (c : ascii) : option MathOp :=
  if Ascii.eqb c "+" then Some Plus
  else if Ascii.eqb c "-" then Some Minus
  else if Ascii.eqb c "/" then Some Divide
  else if Ascii.eqb c "*" then Some Times
  else None.

(** The outer [while] loop of [parseMathExp]: [chars] is the queue of
    characters left, [tokens] the array built so far.  An inner loop shifts
    characters while they continue the literal or the name and puts the
    first other one back, which is [span].  Every round shifts at least one
    character, so the length of the queue is fuel enough. *)
Fixpoint tokenize (fuel : nat) (chars : list ascii) (tokens : MathExp)
  : Outcome MathExp :=
  match chars with
  | [] => Return tokens
  | char :: chars =>
      match fuel with
      | O => OutOfFuel
      | S fuel =>
          if isSpace char then tokenize fuel chars tokens
          else if isNumberStart char then
            let '(more, chars) := span isNumberPart chars in
            let numRaw := text (char :: more) in
            if String.eqb numRaw "-" then
              tokenize fuel chars (tokens ++ [Operator Minus])
            else
              let num := parseFloat numRaw in
              if isNaN num then Throw (InvalidNumberLiteral numRaw)
              else tokenize fuel chars (tokens ++ [Value num])
          else
            match operatorOf char with
            | Some o => tokenize fuel chars (tokens ++ [Operator o])
            | None =>
                if isAlpha char then
                  let '(more, chars) := span isRefPart chars in
                  tokenize fuel chars (tokens ++ [Ref (text (char :: more))])
                else tokenize fuel chars tokens
            end
      end
  end.

Definition parseMathExp (src : string) : Outcome MathExp :=
  match chars src with
  | "="%char :: rest => tokenize (List.length rest) rest []
  | _ => Throw (InvalidExpression src)
  end.

(** ** The cell classifier *)

Definition parseCell (src : string) : Outcome CellContent :=
  if isAlphaString src then Return (IdentifierCell src src)
  else
    match chars src with
    | "="%char :: _ =>
        value <- parseMathExp src ;; Return (ExpressionCell value src)
    | _ =>
        if negb (isNaN (parseFloat src)) then Return (ValueCell (parseFloat src) src)
        else Throw (InvalidCellValue src)
    end.

(** ** The grid parser *)

(** Truthiness of a string: it is not empty. *)
Definition truthy (s : string) : bool := negb (String.eqb s "").

(** The rows of trimmed, non-empty fields, rows without a field dropped. *)
Definition cellsSrcOf (src : string) : list (list string) :=
  map (map trim)
    (filter (fun c => negb (Nat.eqb (List.length c) 0))
       (map (fun line => filter (fun field => truthy (trim field)) (split "," line))
          (split LF src))).

(** The values of the header cells when every one of them is an
    Identifier ([header.every(...)]), nothing otherwise. *)
Fixpoint identifierValues (header : list CellContent) : option (list string) :=
  match header with
  | [] => Some []
  | IdentifierCell value _ :: header' =>
      option_map (cons value) (identifierValues header')
  | _ :: _ => None
  end.

(** The decimal numeral of a row number. *)
Definition decimal (n : nat) : string :=
  DecimalString.NilZero.string_of_uint (Nat.to_uint n).

(** The inner [for] loop: one row, [cells] being the array built so far.
    A field beyond the header would read a property of [undefined]. *)
Fixpoint parseRow (names : list string) (i : nat) (idIndex : nat)
  (row : list string) (cells : list Cell) : Outcome (list Cell) :=
  match row with
  | [] => Return cells
  | cellSrc :: row' =>
      match nth_error names idIndex with
      | None => Throw TypeError
      | Some name =>
          let identifier := (name ++ decimal (i + 1))%string in
          cellContent <- parseCell cellSrc ;;
          match cellContent with
          | IdentifierCell _ _ => Throw IdentifiersOnlyInFirstRow
          | _ =>
              parseRow names i (S idIndex) row'
                (cells ++ [mkCell (List.length cells) cellContent identifier])
          end
      end
  end.

(** The outer [for] loop over the data rows. *)
Fixpoint parseRows (names : list string) (i : nat) (rows : list (list string))
  (cells : list Cell) : Outcome (list Cell) :=
  match rows with
  | [] => Return cells
  | row :: rows' =>
      cells' <- parseRow names i 0 row cells ;;
      parseRows names (S i) rows' cells'
  end.

Definition parseCells (src : string) : Outcome (list Cell * list CellContent) :=
  match cellsSrcOf src with
  | [] => Return ([], [])
  | first :: rows =>
      if negb (forallb (fun row => Nat.eqb (List.length row) (List.length first))
                 (first :: rows))
      then Throw InvalidGrid
      else
        header <- mapOutcome parseCell first ;;
        match identifierValues header with
        | None => Throw OnlyIdentifiersInFirstRow
        | Some names =>
            if negb (Nat.eqb (List.length names)
                       (List.length (nodup string_dec names)))
            then Throw DuplicateIdentifiers
            else
              cells <- parseRows names 0 rows [] ;;
              Return (cells, header)
        end
  end.

(** ** The arithmetic reducer *)

Inductive Tier : Type := MulDiv | AddSub.

(** The predicates of the two [findIndex] calls. *)
Definition inTier (tier : Tier) (c : MathToken) : bool :=
  match tier, c with
  | MulDiv, Operator Times => true
  | MulDiv, Operator Divide => true
  | AddSub, Operator Minus => true
  | AddSub, Operator Plus => true
  | _, _ => false
  end.

(** [a.findIndex(p)], [None] standing for [-1]. *)
Fixpoint findIndex {A : Type} (p : A -> bool) (l : list A) : option nat :=
  match l with
  | [] => None
  | a :: l' => if p a then Some 0 else option_map S (findIndex p l')
  end.

(** [a[i - 1]]: there is no element at [-1]. *)
Definition elementBefore (a : MathExp) (i : nat) : option MathToken :=
  match i with
  | O => None
  | S j => nth_error a j
  end.

(** Reading [.value] of an array element throws when the element is
    missing. *)
Definition valueOf (x : option MathToken) : Outcome Operand :=
  match x with
  | Some t => Return (tokenValue t)
  | None => Throw TypeError
  end.

(** [a.splice(start, 3, item)] for a [start] within the array. *)
Definition splice3 (a : MathExp) (start : nat) (item : MathToken) : MathExp :=
  firstn start a ++ item :: skipn (start + 3) a.

(** The operation a pass selects from [prepared[i].value]: the first pass
    multiplies on ["*"] and divides otherwise, the second adds on ["+"] and
    subtracts otherwise. *)
Definition selected (tier : Tier) (shown : Operand) : MathOp :=
  match tier, shown with
  | MulDiv, Str s => if String.eqb s "*" then Times else Divide
  | MulDiv, _ => Divide
  | AddSub, Str s => if String.eqb s "+" then Plus else Minus
  | AddSub, _ => Minus
  end.

Definition evalOp (o : MathOp) : number -> number -> number :=
  match o with
  | Plus => add
  | Minus => sub
  | Times => mul
  | Divide => div
  end.

Definition isGlyph (x : Operand) : bool :=
  match x with
  | Str s =>
      String.eqb s "+" || String.eqb s "-" || String.eqb s "*" || String.eqb s "/"
  | Num _ => false
  end.

(** The value [v] of [left OP right] as far as [isNaN(v)] and the later
    passes can tell.
    - Two numbers: the IEEE operation.
    - [*], [/], [-] with an operator glyph on either side: the glyph
      converts to NaN, and so is the result.
    - [+] with an operator glyph on the right: the result is a string that
      ends with the glyph, on which [isNaN] is true; it is given as NaN.
    - Anything else involves the text of a number or the numeric value of
      a name, and is not covered ([None]). *)
Definition arith (o : MathOp) (left right : Operand) : option number :=
  match left, right with
  | Num a, Num b => Some (evalOp o a b)
  | _, _ =>
      match o with
      | Plus => if isGlyph right then Some NaN else None
      | _ => if isGlyph left || isGlyph right then Some NaN else None
      end
  end.

(** One of the two [while (true)] loops of [calcMath].  [cells] is the
    argument of [calcMath], which the message indexes with the position
    found in [prepared].  Every round that goes on shortens [prepared] by
    two, so its length is fuel enough. *)
Fixpoint collapse (tier : Tier) (fuel : nat) (cells prepared : MathExp)
  : Outcome MathExp :=
  match findIndex (inTier tier) prepared with
  | None => Return prepared
  | Some i =>
      match fuel with
      | O => OutOfFuel
      | S fuel =>
          left <- valueOf (elementBefore prepared i) ;;
          right <- valueOf (nth_error prepared (i + 1)) ;;
          shown <- valueOf (nth_error prepared i) ;;
          match arith (selected tier shown) left right with
          | None => Uncovered
          | Some v =>
              if isNaN v then
                shown' <- valueOf (nth_error cells i) ;;
                Throw (CantEvaluate left shown' right)
              else collapse tier fuel cells (splice3 prepared (i - 1) (Value v))
          end
      end
  end.

(** The final [reduce]. *)
Fixpoint sumValues (prepared : MathExp) (acc : number) : Outcome number :=
  match prepared with
  | [] => Return acc
  | Value value :: prepared' => sumValues prepared' (add acc value)
  | v :: _ => Throw (InvalidToken (tokenValue v))
  end.

Definition calcMath (cells : MathExp) : Outcome number :=
  prepared <- collapse MulDiv (List.length cells) cells cells ;;
  prepared <- collapse AddSub (List.length prepared) cells prepared ;;
  sumValues prepared (S754_zero false).

(** ** The evaluator *)

(** A computation that reads and writes the module-level [refTrace]: the
    trace goes in, the outcome and the trace left behind come out.  A
    [throw] leaves the trace as it is at that point. *)
Definition Eval (A : Type) : Type := list Cell -> Outcome A * list Cell.

Definition ret {A : Type} (a : A) : Eval A := fun refTrace => (Return a, refTrace).

Definition lift {A : Type} (o : Outcome A) : Eval A := fun refTrace => (o, refTrace).

Definition raise {A : Type} (e : Error) : Eval A := lift (Throw e).

Definition getTrace : Eval (list Cell) := fun refTrace => (Return refTrace, refTrace).

Definition setTrace (refTrace : list Cell) : Eval unit := fun _ => (Return tt, refTrace).

Definition bindEval {A B : Type} (m : Eval A) (k : A -> Eval B) : Eval B :=
  fun refTrace =>
    match m refTrace with
    | (Return a, refTrace') => k a refTrace'
    | (Throw e, refTrace') => (Throw e, refTrace')
    | (Uncovered, refTrace') => (Uncovered, refTrace')
    | (OutOfFuel, refTrace') => (OutOfFuel, refTrace')
    end.

Declare Scope eval_scope.
Delimit Scope eval_scope with eval.
Notation "x <- m ;; k" := (bindEval m (fun x => k))
  (at level 61, m at next level, right associativity) : eval_scope.
Notation "m ;;; k" := (bindEval m (fun _ => k))
  (at level 61, right associativity) : eval_scope.

(** [a.map(f)] where [f] reads and writes the trace and may throw. *)
Fixpoint mapEval {A B : Type} (f : A -> Eval B) (l : list A) : Eval (list B) :=
  match l with
  | [] => ret []
  | a :: l' => (b <- f a ;; bs <- mapEval f l' ;; ret (b :: bs))%eval
  end.

(** [a === b] on cell objects. *)
Definition sameCell (a b : Cell) : bool := Nat.eqb (oid a) (oid b).

(** The test at the head of [evalCell]: more than one entry, the first
    and the last the same object. *)
Definition cyclicTrace (refTrace : list Cell) : bool :=
  match refTrace with
  | first :: _ :: _ => sameCell first (last refTrace first)
  | _ => false
  end.

(** [cells.find((c) => c.identifier === name)]. *)
Definition findCell (name : string) (cells : list Cell) : option Cell :=
  find (fun c => String.eqb (identifier c) name) cells.

(** The callback of [map] in [evalCell], [evalTarget] being the recursive
    call. *)
Definition resolveToken (evalTarget : Cell -> list Cell -> Eval number)
  (cell : Cell) (cells : list Cell) (token : MathToken) : Eval MathToken :=
  match token with
  | Ref name =>
      (refTrace <- getTrace ;;
       (if Nat.eqb (List.length refTrace) 0 then setTrace (refTrace ++ [cell])
        else ret tt) ;;;
       match findCell name cells with
       | None => raise (CouldNotFindRef name)
       | Some targetCell =>
           refTrace <- getTrace ;;
           setTrace (refTrace ++ [targetCell]) ;;;
           value <- evalTarget targetCell cells ;;
           setTrace [] ;;;
           ret (Value value)
       end)%eval
  | _ => ret token
  end.

(** [evalCell fuel cell cells refTrace]: the call [evalCell(cell, cells)]
    entered with the trace [refTrace], on a call stack with room for
    [fuel] nested frames of [evalCell]. *)
Fixpoint evalCell (fuel : nat) (cell : Cell) (cells : list Cell) : Eval number :=
  match fuel with
  | O => lift OutOfFuel
  | S fuel =>
      (refTrace <- getTrace ;;
       if cyclicTrace refTrace then
         raise (CyclicReference (map identifier refTrace))
       else
         match content cell with
         | IdentifierCell value _ => raise (CannotEvaluateIdentifier value)
         | ValueCell value _ => ret value
         | ExpressionCell value _ =>
             prepared <- mapEval (resolveToken (evalCell fuel) cell cells) value ;;
             lift (calcMath prepared)
         end)%eval
  end.

(** The text of a grid given by its lines. *)
Definition grid (rows : list string) : string := join (String LF "") rows.

(** ** Vocabulary of the statements *)

Definition isOperator (t : MathToken) : bool :=
  match t with Operator _ => true | _ => false end.

Definition isRef (t : MathToken) : bool :=
  match t with Ref _ => true | _ => false end.

(** The numbers of the Value tokens of a sequence, in order. *)
Fixpoint valuesOf (tokens : MathExp) : list number :=
  match tokens with
  | [] => []
  | Value v :: tokens' => v :: valuesOf tokens'
  | _ :: tokens' => valuesOf tokens'
  end.

Definition isFinite (x : number) : bool :=
  match x with
  | S754_zero _ => true
  | S754_finite _ _ _ => true
  | _ => false
  end.

Definition zero : number := S754_zero false.

(** Tokenize, then reduce. *)
Definition reduceSource (src : string) : Outcome number :=
  tokens <- parseMathExp src ;; calcMath tokens.

Definition isCyclicReference (e : Error) : bool :=
  match e with CyclicReference _ => true | _ => false end.

(** The grid of header [A] and the single data row [=A1], and its cell. *)
Definition selfGrid : string := grid ["A"; "=A1"].

Definition selfA1 : Cell := mkCell 0 (ExpressionCell [Ref "A1"] "=A1") "A1".

(** The grid of header [A,B] and the single data row [1,=A1+1], and its
    cells. *)
Definition sumGrid : string := grid ["A,B"; "1,=A1+1"].

Definition sumA1 : Cell := mkCell 0 (ValueCell (ofZ 1) "1") "A1".

Definition sumB1 : Cell :=
  mkCell 1 (ExpressionCell [Ref "A1"; Operator Plus; Value (ofZ 1)] "=A1+1") "B1".

(** The grid of header [A,B] and the single data row [=B1,=B1]: [A1]
    refers to [B1], which refers to itself. *)
Definition loopGrid : string := grid ["A,B"; "=B1,=B1"].

Definition loopA1 : Cell := mkCell 0 (ExpressionCell [Ref "B1"] "=B1") "A1".

Definition loopB1 : Cell := mkCell 1 (ExpressionCell [Ref "B1"] "=B1") "B1".

(** The trace a reference is resolved under: the referring cell first when
    the trace is empty, then the target. *)
Definition entered (cell : Cell) (refTrace : list Cell) (targetCell : Cell) : list Cell :=
  (if Nat.eqb (List.length refTrace) 0 then refTrace ++ [cell] else refTrace)
    ++ [targetCell].

(** An outcome is marked when, if it is the cyclic-reference error, the
    trace left behind passes the test at the head of [evalCell] and is the
    chain the error reports. *)
Definition marked {A : Type} (r : Outcome A * list Cell) : Prop :=
  forall chain, fst r = Throw (CyclicReference chain) ->
    cyclicTrace (snd r) = true /\ chain = map identifier (snd r).

(** A character of an empty grid source: a blank, a line break or a
    comma. *)
Definition blankOrComma (c : ascii) : bool := isSpace c || Ascii.eqb c ",".

(** [rest] cannot continue a literal made of digits: it is empty or
    begins with a character that is no digit, no [.] and no [e] or [E]. *)
Definition stopsLiteral (rest : list ascii) : bool :=
  match rest with
  | [] => true
  | c :: _ =>
      negb (isDigit c || (Ascii.eqb c "." || (Ascii.eqb c "e" || Ascii.eqb c "E")))
  end.

(** [u] begins with a literal [parseFloat] can read: [Infinity], a digit,
    or a [.] that a digit follows. *)
Definition startsLiteral (u : list ascii) : bool :=
  startsWith (chars "Infinity") u ||
  match u with
  | c :: r =>
      isDigit c ||
      (Ascii.eqb c "." && match r with d :: _ => isDigit d | [] => false end)
  | [] => false
  end.

(** [r] is an outcome other than running out of depth. *)
Definition finished {A : Type} (r : Outcome A * list Cell) : Prop :=
  fst r <> OutOfFuel.

(** The identifiers the grid parser gives the cells of the data rows
    [rows], the first of which has index [i]: for each field of a row, in
    order, the name of its column followed by the row number, counted
    from 1. *)
Fixpoint rowIdentifiers (names : list string) (i : nat) (rows : list (list string))
  : list string :=
  match rows with
  | [] => []
  | row :: rows' =>
      map (fun name => (name ++ decimal (i + 1))%string) (firstn (List.length row) names)
        ++ rowIdentifiers names (S i) rows'
  end.

(** The grid of header [A,B] and the single data row [=B1,=A1]: a cycle
    through both cells. *)
Definition pairGrid : string := grid ["A,B"; "=B1,=A1"].

Definition pairA1 : Cell := mkCell 0 (ExpressionCell [Ref "B1"] "=B1") "A1".

Definition pairB1 : Cell := mkCell 1 (ExpressionCell [Ref "A1"] "=A1") "B1".

(** [rank] orders the cells of [cells] by their references: the target of
    every reference in a formula has a smaller rank than the cell of the
    formula.  A grid has such a ranking exactly when its references have
    no cycle. *)
Definition ranked (rank : Cell -> nat) (cells : list Cell) : Prop :=
  forall (c targetCell : Cell) (tokens : MathExp) (src name : string),
    In c cells ->
    content c = ExpressionCell tokens src ->
    In (Ref name) tokens ->
    findCell name cells = Some targetCell ->
    rank targetCell < rank c.

(** ** Infix sequences and their value by precedence *)

(** The tokens of [first o1 v1 o2 v2 ...]: a number, then operators and
    numbers in turn. *)
Definition flatOps (rest : list (MathOp * number)) : MathExp :=
  flat_map (fun p => [Operator (fst p); Value (snd p)]) rest.

Definition infixTokens (first : number) (rest : list (MathOp * number)) : MathExp :=
  Value first :: flatOps rest.

Definition isMulDiv (o : MathOp) : bool :=
  match o with
  | Times => true
  | Divide => true
  | _ => false
  end.

(** The products of [acc o1 v1 o2 v2 ...] taken from the left: the first
    term and the rest of the sum, or nothing when a product or quotient is
    NaN. *)
Fixpoint products (acc : number) (rest : list (MathOp * number))
  : option (number * list (MathOp * number)) :=
  match rest with
  | [] => Some (acc, [])
  | (o, v) :: rest' =>
      if isMulDiv o then
        if isNaN (evalOp o acc v) then None else products (evalOp o acc v) rest'
      else
        match products v rest' with
        | Some (term, chain) => Some (acc, (o, term) :: chain)
        | None => None
        end
  end.

(** The sum of [acc o1 t1 o2 t2 ...] taken from the left, or nothing when
    a partial sum is NaN. *)
Fixpoint sums (acc : number) (chain : list (MathOp * number)) : option number :=
  match chain with
  | [] => Some acc
  | (o, t) :: chain' =>
      if isNaN (evalOp o acc t) then None else sums (evalOp o acc t) chain'
  end.

(** The value of an infix sequence by the usual precedence: products and
    quotients first, from the left, then sums and differences, from the
    left; nothing when a partial result is NaN. *)
Definition precedenceValue (first : number) (rest : list (MathOp * number))
  : option number :=
  match products first rest with
  | Some (term, chain) => sums term chain
  | None => None
  end.

(** ** Well-formed tokens *)

(** What the tokenizer lets through: any operator, a number other than
    NaN, a name that begins with a letter and goes on with letters and
    digits. *)
Definition wellFormedToken (t : MathToken) : bool :=
  match t with
  | Operator _ => true
  | Value v => negb (isNaN v)
  | Ref name =>
      match chars name with
      | c :: r => isAlpha c && forallb isRefPart r
      | [] => false
      end
  end.


(** ** The outcomes of the grid parser *)

(** The errors the grid parser and the classifier throw. *)
Definition isParseError (e : Error) : bool :=
  match e with
  | InvalidGrid => true
  | OnlyIdentifiersInFirstRow => true
  | DuplicateIdentifiers => true
  | IdentifiersOnlyInFirstRow => true
  | InvalidCellValue _ => true
  | InvalidNumberLiteral _ => true
  | _ => false
  end.

Definition isIdentifierCell (c : CellContent) : bool :=
  match c with IdentifierCell _ _ => true | _ => false end.

(** The source text a cell content keeps. *)
Definition contentSrc (c : CellContent) : string :=
  match c with
  | ValueCell _ src => src
  | IdentifierCell _ src => src
  | ExpressionCell _ src => src
  end.

(** ** The main program *)

(** The callback of the [map] over all the cells in the main program: a
    cell that is no Identifier is evaluated, an Identifier cell is kept as
    it is. *)
Definition evalOrKeep (fuel : nat) (cells : list Cell) (c : Cell) : Eval (number + Cell) :=
  match content c with
  | IdentifierCell _ _ => ret (inr c)
  | _ => (value <- evalCell fuel c cells ;; ret (inl value))%eval
  end.

(** [cells.map(...)] in the main program, which runs with the trace the
    module starts with, the empty one. *)
Definition evaluateAll (fuel : nat) (cells : list Cell) : Eval (list (number + Cell)) :=
  mapEval (evalOrKeep fuel cells) cells.

(** The rows the two printing loops of the main program go through:
    [for (let i = 0; i < cells.length; i += width)] with the row
    [cells.slice(i, i + width)], [width] being the length of the header.
    Every round is one unit of fuel. *)
Fixpoint tableRows {A : Type} (fuel : nat) (width : nat) (i : nat) (cells : list A)
  : Outcome (list (list A)) :=
  if Nat.ltb i (List.length cells) then
    match fuel with
    | O => OutOfFuel
    | S fuel =>
        rows <- tableRows fuel width (i + width) cells ;;
        Return (firstn width (skipn i cells) :: rows)
    end
  else Return [].

(** ** Vocabulary of the further statements *)

(** The tokens of a formula with every reference to a cell that holds a
    number replaced by that number; nothing when a reference finds no
    cell or finds a formula. *)
Fixpoint substitute (cells : list Cell) (tokens : MathExp) : option MathExp :=
  match tokens with
  | [] => Some []
  | Ref name :: tokens' =>
      match findCell name cells with
      | Some targetCell =>
          match content targetCell with
          | ValueCell v _ => option_map (cons (Value v)) (substitute cells tokens')
          | _ => None
          end
      | None => None
      end
  | t :: tokens' => option_map (cons t) (substitute cells tokens')
  end.

(** No reference of [tokens] finds the cell [cell] itself. *)
Definition refersToOthers (cell : Cell) (cells : list Cell) (tokens : MathExp) : bool :=
  forallb (fun t =>
             match t with
             | Ref name =>
                 match findCell name cells with
                 | Some targetCell => negb (sameCell cell targetCell)
                 | None => true
                 end
             | _ => true
             end) tokens.

(** The ranks go down along the trace. *)
Fixpoint descending (rank : Cell -> nat) (l : list Cell) : Prop :=
  match l with
  | a :: l' =>
      match l' with
      | b :: _ => rank b < rank a /\ descending rank l'
      | [] => True
      end
  | [] => True
  end.

(** Each cell evaluated on its own from the empty trace, up to the first
    one that does not return; the trace is the one that cell leaves. *)
Fixpoint eachFromEmpty {B : Type} (f : Cell -> Eval B) (l : list Cell)
  : Outcome (list B) * list Cell :=
  match l with
  | [] => (Return [], [])
  | c :: l' =>
      match f c [] with
      | (Return b, _) =>
          match eachFromEmpty f l' with
          | (Return bs, refTrace) => (Return (b :: bs), refTrace)
          | (Throw e, refTrace) => (Throw e, refTrace)
          | (Uncovered, refTrace) => (Uncovered, refTrace)
          | (OutOfFuel, refTrace) => (OutOfFuel, refTrace)
          end
      | (Throw e, refTrace) => (Throw e, refTrace)
      | (Uncovered, refTrace) => (Uncovered, refTrace)
      | (OutOfFuel, refTrace) => (OutOfFuel, refTrace)
      end
  end.

(** Cells for the examples: ["=2*3+1"], ["=1+Z9"] and ["=2*A1"], each
    the cell [A1] of a grid of its own. *)
Definition plainA1 : Cell :=
  mkCell 0 (ExpressionCell [Value (ofZ 2); Operator Times; Value (ofZ 3);
                            Operator Plus; Value (ofZ 1)] "=2*3+1") "A1".

Definition missingA1 : Cell :=
  mkCell 0 (ExpressionCell [Value (ofZ 1); Operator Plus; Ref "Z9"] "=1+Z9") "A1".

Definition doubleA1 : Cell :=
  mkCell 0 (ExpressionCell [Value (ofZ 2); Operator Times; Ref "A1"] "=2*A1") "A1".

Definition isCyclicOutcome {A : Type} (o : Outcome A) : bool :=
  match o with
  | Throw e => isCyclicReference e
  | _ => false
  end.

(** ** The rest of a reduction *)

(** What [calcMath] still does once its working copy is [prepared], the
    first pass being at work ([MulDiv]) or the second ([AddSub]): the
    passes left, then the final fold.  [calcMath cells] is
    [reduceFrom MulDiv cells cells]. *)
Definition reduceFrom (tier : Tier) (cells prepared : MathExp) : Outcome number :=
  match tier with
  | MulDiv =>
      prepared <- collapse MulDiv (List.length prepared) cells prepared ;;
      prepared <- collapse AddSub (List.length prepared) cells prepared ;;
      sumValues prepared (S754_zero false)
  | AddSub =>
      prepared <- collapse AddSub (List.length prepared) cells prepared ;;
      sumValues prepared (S754_zero false)
  end.

(** ** Formulas of numerals and operators *)

Definition blanks (k : nat) : list ascii := repeat " "%char k.

(** One more operand of a formula: an operator with [gapBefore] blanks
    before it and [gapAfter] blanks after it, then the decimal numeral of
    [numeral]. *)
Record Term : Type := mkTerm {
  gapBefore : nat;
  operator : MathOp;
  gapAfter : nat;
  numeral : nat
}.

Definition termChars (t : Term) : list ascii :=
  blanks (gapBefore t) ++ chars (glyph (operator t)) ++
  blanks (gapAfter t) ++ chars (decimal (numeral t)).

(** The formula [=n0 o1 n1 o2 n2 ...], with the blanks each term asks
    for. *)
Definition formula (first : nat) (rest : list Term) : string :=
  text ("="%char :: chars (decimal first) ++ flat_map termChars rest).

Definition ofNat (n : nat) : number := ofZ (Z.of_nat n).

(** The operators and numbers a formula is meant to hold. *)
Definition operands (rest : list Term) : list (MathOp * number) :=
  map (fun t => (operator t, ofNat (numeral t))) rest.

(** A [-] is set off from the numeral after it by a blank at least. *)
Definition minusSetOff (t : Term) : bool :=
  match operator t with
  | Minus => negb (Nat.eqb (gapAfter t) 0)
  | _ => true
  end.

(** [rest] cannot continue the literal of the tokenizer's inner loop. *)
Definition stopsNumber (rest : list ascii) : bool :=
  match rest with
  | [] => true
  | c :: _ => negb (isNumberPart c)
  end.

(** * Properties *)

(** ** Lists, characters and searches *)

Lemma findIndex_none_iff {A : Type} (p : A -> bool) (l : list A) :
  findIndex p l = None <-> forallb (fun a => negb (p a)) l = true.
Proof.
  induction l as [|a l IH]; simpl.
  - tauto.
  - destruct (p a); simpl.
    + split; discriminate.
    + destruct (findIndex p l); simpl.
      * split; [discriminate|]. intros H. apply IH in H. discriminate.
      * split; [|reflexivity]. intros _. apply IH. reflexivity.
Qed.

Lemma findIndex_some_lt {A : Type} (p : A -> bool) (l : list A) (i : nat) :
  findIndex p l = Some i -> i < List.length l.
Proof.
  revert i. induction l as [|a l IH]; simpl; intros i H.
  - discriminate.
  - destruct (p a).
    + injection H as <-. lia.
    + destruct (findIndex p l) as [j|]; simpl in H; [|discriminate].
      injection H as <-. specialize (IH j eq_refl). lia.
Qed.

Lemma findIndex_some_nth {A : Type} (p : A -> bool) (l : list A) (i : nat) :
  findIndex p l = Some i -> exists a, nth_error l i = Some a /\ p a = true.
Proof.
  revert i. induction l as [|a l IH]; simpl; intros i H.
  - discriminate.
  - destruct (p a) eqn:E.
    + injection H as <-. exists a. split; [reflexivity|assumption].
    + destruct (findIndex p l) as [j|]; simpl in H; [|discriminate].
      injection H as <-. exact (IH j eq_refl).
Qed.

(** No element before the index found satisfies the predicate. *)
Lemma findIndex_some_before {A : Type} (p : A -> bool) (l : list A) (i j : nat) (a : A) :
  findIndex p l = Some i -> j < i -> nth_error l j = Some a -> p a = false.
Proof.
  revert i j. induction l as [|b l IH]; simpl; intros i j H Hj Ha.
  - discriminate.
  - destruct (p b) eqn:E.
    + injection H as <-. lia.
    + destruct (findIndex p l) as [k|]; simpl in H; [|discriminate].
      injection H as <-. destruct j as [|j]; simpl in Ha.
      * injection Ha as <-. exact E.
      * apply (IH k j eq_refl); [lia|assumption].
Qed.

(** The first match in [pre ++ a :: post] when nothing in [pre] matches. *)
Lemma findIndex_app_first {A : Type} (p : A -> bool) (pre post : list A) (a : A) :
  findIndex p pre = None -> p a = true ->
  findIndex p (pre ++ a :: post) = Some (List.length pre).
Proof.
  induction pre as [|b pre IH]; simpl; intros Hpre Ha.
  - rewrite Ha. reflexivity.
  - destruct (p b); [discriminate|].
    destruct (findIndex p pre); [discriminate|].
    rewrite (IH eq_refl Ha). reflexivity.
Qed.

Lemma findIndex_app_none {A : Type} (p : A -> bool) (pre post : list A) :
  findIndex p pre = None -> 
  findIndex p (pre ++ post) = option_map (Nat.add (List.length pre)) (findIndex p post).
Proof.
  induction pre as [|b pre IH]; simpl; intros Hpre.
  - destruct (findIndex p post); reflexivity.
  - destruct (p b); [discriminate|].
    destruct (findIndex p pre); [discriminate|].
    rewrite (IH eq_refl). destruct (findIndex p post); reflexivity.
Qed.

(** ** The reducer *)

Lemma no_operator_no_tier (tier : Tier) (tokens : MathExp) :
  existsb isOperator tokens = false -> findIndex (inTier tier) tokens = None.
Proof.
  intros H. apply findIndex_none_iff.
  induction tokens as [|t tokens IH]; simpl in *; [reflexivity|].
  apply orb_false_iff in H as [Ht H]. rewrite (IH H), andb_true_r.
  destruct t; [discriminate| |]; destruct tier; reflexivity.
Qed.

Lemma collapse_no_tier (tier : Tier) (fuel : nat) (cells prepared : MathExp) :
  findIndex (inTier tier) prepared = None ->
  collapse tier fuel cells prepared = Return prepared.
Proof.
  intros H. destruct fuel; simpl; rewrite H; reflexivity.
Qed.

Lemma sumValues_values (tokens : MathExp) (acc : number) :
  existsb isOperator tokens = false -> existsb isRef tokens = false ->
  sumValues tokens acc = Return (fold_left add (valuesOf tokens) acc).
Proof.
  revert acc. induction tokens as [|t tokens IH]; simpl; intros acc Ho Hr.
  - reflexivity.
  - apply orb_false_iff in Ho as [Ht Ho]. apply orb_false_iff in Hr as [Ht' Hr].
    destruct t; try discriminate. simpl. apply IH; assumption.
Qed.

Lemma collapse_unfold (tier : Tier) (fuel : nat) (cells prepared : MathExp) :
  collapse tier (S fuel) cells prepared =
  match findIndex (inTier tier) prepared with
  | None => Return prepared
  | Some i =>
      left <- valueOf (elementBefore prepared i) ;;
      right <- valueOf (nth_error prepared (i + 1)) ;;
      shown <- valueOf (nth_error prepared i) ;;
      match arith (selected tier shown) left right with
      | None => Uncovered
      | Some v =>
          if isNaN v then
            shown' <- valueOf (nth_error cells i) ;;
            Throw (CantEvaluate left shown' right)
          else collapse tier fuel cells (splice3 prepared (i - 1) (Value v))
      end
  end.
Proof. reflexivity. Qed.

Lemma selected_glyph (tier : Tier) (o : MathOp) :
  inTier tier (Operator o) = true -> selected tier (Str (glyph o)) = o.
Proof. destruct tier, o; simpl; intros H; try discriminate; reflexivity. Qed.

Lemma splice3_middle (pre post : MathExp) (x y z item : MathToken) :
  splice3 (pre ++ x :: y :: z :: post) (List.length pre) item = pre ++ item :: post.
Proof.
  unfold splice3.
  rewrite firstn_app, firstn_all, Nat.sub_diag. cbn [firstn]. rewrite app_nil_r.
  rewrite skipn_app.
  replace (List.length pre + 3 - List.length pre) with 3 by lia.
  rewrite skipn_all2 by lia. reflexivity.
Qed.

(** The first operator of a tier, with a number on each side: the pass
    throws when the result is NaN and goes on with the three tokens
    replaced by the result otherwise. *)
Lemma collapse_step (tier : Tier) (fuel : nat) (cells pre post : MathExp)
  (a b : number) (o : MathOp) :
  findIndex (inTier tier) pre = None ->
  inTier tier (Operator o) = true ->
  collapse tier (S fuel) cells (pre ++ Value a :: Operator o :: Value b :: post) =
  if isNaN (evalOp o a b) then
    shown <- valueOf (nth_error cells (S (List.length pre))) ;;
    Throw (CantEvaluate (Num a) shown (Num b))
  else collapse tier fuel cells (pre ++ Value (evalOp o a b) :: post).
Proof.
  intros Hpre Ho.
  set (l := pre ++ Value a :: Operator o :: Value b :: post).
  assert (Hi : findIndex (inTier tier) l = Some (S (List.length pre))).
  { unfold l.
    replace (pre ++ Value a :: Operator o :: Value b :: post)
      with ((pre ++ [Value a]) ++ Operator o :: Value b :: post)
      by (rewrite <- app_assoc; reflexivity).
    rewrite findIndex_app_first; [rewrite length_app, Nat.add_comm; reflexivity| |exact Ho].
    rewrite findIndex_app_none by exact Hpre. simpl. destruct tier; reflexivity. }
  assert (H1 : nth_error l (List.length pre) = Some (Value a)).
  { unfold l. rewrite nth_error_app2, Nat.sub_diag by lia. reflexivity. }
  assert (H2 : nth_error l (S (List.length pre)) = Some (Operator o)).
  { unfold l. rewrite nth_error_app2 by lia.
    replace (S (List.length pre) - List.length pre) with 1 by lia. reflexivity. }
  assert (H3 : nth_error l (S (List.length pre) + 1) = Some (Value b)).
  { unfold l. rewrite nth_error_app2 by lia.
    replace (S (List.length pre) + 1 - List.length pre) with 2 by lia. reflexivity. }
  rewrite collapse_unfold, Hi.
  unfold elementBefore. rewrite H1, H2, H3. cbn [valueOf tokenValue bind].
  rewrite (selected_glyph tier o Ho). cbn [arith].
  destruct (isNaN (evalOp o a b)); [reflexivity|].
  replace (S (List.length pre) - 1) with (List.length pre) by lia.
  unfold l. rewrite splice3_middle. reflexivity.
Qed.

Lemma findIndex_none_Forall {A : Type} (p : A -> bool) (l : list A) :
  findIndex p l = None <-> Forall (fun a => p a = false) l.
Proof.
  rewrite findIndex_none_iff, forallb_forall, Forall_forall.
  split; intros H a Ha; specialize (H a Ha).
  - apply negb_true_iff. exact H.
  - apply negb_true_iff. exact H.
Qed.

Lemma existsb_false_Forall {A : Type} (p : A -> bool) (l : list A) :
  existsb p l = false <-> Forall (fun a => p a = false) l.
Proof.
  induction l as [|a l IH]; simpl.
  - split; [constructor|reflexivity].
  - rewrite orb_false_iff, IH. split.
    + intros [H1 H2]. constructor; assumption.
    + intros H. inversion H; subst. split; assumption.
Qed.

Lemma splice3_Forall (P : MathToken -> Prop) (a : MathExp) (start : nat) (item : MathToken) :
  Forall P a -> P item -> Forall P (splice3 a start item).
Proof.
  intros Ha Hitem. unfold splice3.
  apply Forall_app. split.
  - rewrite <- (firstn_skipn start a) in Ha. apply Forall_app in Ha. apply Ha.
  - constructor; [exact Hitem|].
    rewrite <- (firstn_skipn (start + 3) a) in Ha. apply Forall_app in Ha. apply Ha.
Qed.

Lemma splice3_length (a : MathExp) (i : nat) (item : MathToken) :
  1 <= i -> i + 1 < List.length a ->
  List.length (splice3 a (i - 1) item) + 2 = List.length a.
Proof.
  intros H1 H2. unfold splice3.
  rewrite length_app, firstn_length_le by lia. cbn [List.length].
  rewrite length_skipn. lia.
Qed.

(** On a sequence without Ref tokens every arithmetic step is covered
    unless an operator stands on the left of a [+]. *)
Lemma arith_covered (o : MathOp) (t1 t2 : MathToken) :
  isRef t1 = false -> isRef t2 = false ->
  (o = Plus -> isOperator t1 = false) ->
  arith o (tokenValue t1) (tokenValue t2) <> None.
Proof.
  intros H1 H2 Hplus.
  destruct t1 as [o1|v1|r1], t2 as [o2|v2|r2]; try discriminate;
    destruct o; simpl;
    try (specialize (Hplus eq_refl); discriminate);
    repeat match goal with
           | |- context [glyph ?x] => destruct x; simpl
           end;
    discriminate.
Qed.

Lemma selected_MulDiv_not_Plus (shown : Operand) : selected MulDiv shown <> Plus.
Proof. destruct shown as [n|s]; simpl; [|destruct (String.eqb s "*")]; discriminate. Qed.

(** What a pass does on a sequence without Ref tokens, the second pass
    running on the result of the first: it ends, the sequence it returns
    has no operator of its tier left, and it throws nothing but the
    runtime's [TypeError] and [CantEvaluate]. *)
Lemma collapse_ref_free (tier : Tier) (fuel : nat) (cells prepared : MathExp) :
  List.length prepared <= fuel ->
  existsb isRef prepared = false ->
  (tier = AddSub -> findIndex (inTier MulDiv) prepared = None) ->
  match collapse tier fuel cells prepared with
  | Return r =>
      existsb isRef r = false /\ findIndex (inTier tier) r = None /\
      (findIndex (inTier MulDiv) prepared = None -> findIndex (inTier MulDiv) r = None)
  | Throw e => e = TypeError \/ exists l s r, e = CantEvaluate l s r
  | Uncovered => False
  | OutOfFuel => False
  end.
Proof.
  revert prepared. induction fuel as [|fuel IH]; intros prepared Hlen Href Hmd.
  - destruct prepared; [|simpl in Hlen; lia]. simpl. auto.
  - rewrite collapse_unfold.
    destruct (findIndex (inTier tier) prepared) as [i|] eqn:Hi; [|auto].
    pose proof (findIndex_some_lt _ _ _ Hi) as Hlt.
    destruct (findIndex_some_nth _ _ _ Hi) as [t [Ht Htier]].
    destruct i as [|j]; cbn [elementBefore]; [simpl; auto|].
    destruct (nth_error prepared j) as [t1|] eqn:Ht1;
      [|apply nth_error_None in Ht1; lia].
    cbn [valueOf bind].
    destruct (nth_error prepared (S j + 1)) as [t2|] eqn:Ht2; [|simpl; auto].
    rewrite Ht. cbn [valueOf bind].
    assert (Hall : Forall (fun t => isRef t = false) prepared)
      by (apply existsb_false_Forall; exact Href).
    rewrite Forall_forall in Hall.
    pose proof (Hall _ (nth_error_In _ _ Ht1)) as Hr1.
    pose proof (Hall _ (nth_error_In _ _ Ht2)) as Hr2.
    destruct (arith (selected tier (tokenValue t)) (tokenValue t1) (tokenValue t2))
      as [v|] eqn:Hv.
    + destruct (isNaN v).
      * destruct (nth_error cells (S j)); simpl; eauto.
      * assert (Hlen2 : S j + 1 < List.length prepared)
          by (apply nth_error_Some; rewrite Ht2; discriminate).
        pose proof (splice3_length prepared (S j) (Value v) ltac:(lia) Hlen2) as Hsl.
        assert (Href' : existsb isRef (splice3 prepared (S j - 1) (Value v)) = false).
        { apply existsb_false_Forall. apply splice3_Forall; [|reflexivity].
          apply existsb_false_Forall. exact Href. }
        assert (Hmd' : findIndex (inTier MulDiv) prepared = None ->
                       findIndex (inTier MulDiv) (splice3 prepared (S j - 1) (Value v)) = None).
        { intros H. apply findIndex_none_Forall. apply splice3_Forall; [|reflexivity].
          apply findIndex_none_Forall. exact H. }
        specialize (IH (splice3 prepared (S j - 1) (Value v)) ltac:(lia) Href'
                      (fun E => Hmd' (Hmd E))).
        destruct (collapse tier fuel cells (splice3 prepared (S j - 1) (Value v)));
          try exact IH.
        destruct IH as [I1 [I2 I3]]. repeat split; auto.
    + exfalso. revert Hv. apply arith_covered; [exact Hr1|exact Hr2|].
      intros Hplus. destruct tier.
      * exfalso. exact (selected_MulDiv_not_Plus _ Hplus).
      * pose proof (findIndex_some_before _ _ _ j t1 Hi ltac:(lia) Ht1) as Hb.
        specialize (Hmd eq_refl). rewrite findIndex_none_Forall, Forall_forall in Hmd.
        pose proof (Hmd _ (nth_error_In _ _ Ht1)) as Hm.
        destruct t1 as [o1| |]; try reflexivity. destruct o1; discriminate.
Qed.

(** On a sequence without Ref tokens the reducer ends, with a number or
    with one of two errors, neither of them the error of the final fold:
    no operator ever reaches the fold. *)
Lemma calcMath_ref_free (cells : MathExp) :
  existsb isRef cells = false ->
  (exists v, calcMath cells = Return v) \/
  calcMath cells = Throw TypeError \/
  (exists l s r, calcMath cells = Throw (CantEvaluate l s r)).
Proof.
  intros Href. unfold calcMath.
  pose proof (collapse_ref_free MulDiv (List.length cells) cells cells (le_n _) Href
                ltac:(discriminate)) as H1.
  destruct (collapse MulDiv (List.length cells) cells cells) as [p1|e| |];
    cbn [bind]; try contradiction.
  - destruct H1 as [Hr1 [Hmd _]].
    pose proof (collapse_ref_free AddSub (List.length p1) cells p1 (le_n _) Hr1
                  (fun _ => Hmd)) as H2.
    destruct (collapse AddSub (List.length p1) cells p1) as [p2|e| |];
      cbn [bind]; try contradiction.
    + destruct H2 as [Hr2 [Has Hmd2]]. specialize (Hmd2 Hmd).
      left. rewrite sumValues_values; [eauto| |exact Hr2].
      apply existsb_false_Forall. apply Forall_forall. intros t Ht.
      rewrite findIndex_none_Forall, Forall_forall in Has, Hmd2.
      specialize (Has t Ht). specialize (Hmd2 t Ht).
      destruct t as [o| |]; try reflexivity. destruct o; discriminate.
    + destruct H2 as [->|[l [s [r ->]]]]; eauto 6.
  - destruct H1 as [->|[l [s [r ->]]]]; eauto 6.
Qed.

(** ** Claims on the tokenizer and the reducer *)

(** How ["=10-2-3"] comes to 5: a [-] that a digit follows starts a
    literal, so the tokens are the three numbers 10, -2 and -3, which the
    final fold adds up; with blanks around the operators they are two
    subtractions, collapsed from the left. *)
Lemma tokenize_minus_before_digit :
  parseMathExp "=10-2-3" = Return [Value (ofZ 10); Value (ofZ (-2)); Value (ofZ (-3))] /\
  parseMathExp "=10 - 2 - 3" =
    Return [Value (ofZ 10); Operator Minus; Value (ofZ 2); Operator Minus; Value (ofZ 3)] /\
  reduceSource "=10 - 2 - 3" = Return (ofZ 5).
Proof. repeat split; vm_compute; reflexivity. Qed.

(** Two tiers, each from the left, for any three numbers whose partial
    results are not NaN. *)
Lemma calcMath_two_tiers (a b c : number) :
  isNaN (mul b c) = false -> isNaN (add a (mul b c)) = false ->
  calcMath [Value a; Operator Plus; Value b; Operator Times; Value c] =
    Return (add zero (add a (mul b c))).
Proof.
  intros H1 H2. unfold calcMath. cbn [List.length].
  rewrite (collapse_step MulDiv 4 _ [Value a; Operator Plus] [] b c Times eq_refl eq_refl).
  cbn [evalOp]. rewrite H1. cbn [app].
  rewrite collapse_no_tier by reflexivity. cbn [bind List.length].
  rewrite (collapse_step AddSub 2 _ [] [] a (mul b c) Plus eq_refl eq_refl).
  cbn [evalOp]. rewrite H2. cbn [app].
  rewrite collapse_no_tier by reflexivity. reflexivity.
Qed.

Lemma calcMath_left_to_right (a b c : number) :
  isNaN (sub a b) = false -> isNaN (sub (sub a b) c) = false ->
  calcMath [Value a; Operator Minus; Value b; Operator Minus; Value c] =
    Return (add zero (sub (sub a b) c)).
Proof.
  intros H1 H2. unfold calcMath. cbn [List.length].
  rewrite collapse_no_tier by reflexivity. cbn [bind List.length].
  rewrite (collapse_step AddSub 4 _ [] [Operator Minus; Value c] a b Minus eq_refl eq_refl).
  cbn [evalOp]. rewrite H1. cbn [app].
  rewrite (collapse_step AddSub 3 _ [] [] (sub a b) c Minus eq_refl eq_refl).
  cbn [evalOp]. rewrite H2. cbn [app].
  rewrite collapse_no_tier by reflexivity. reflexivity.
Qed.

(** C4, as stated, fails: dividing 1 by 0 gives Infinity, which is not
    finite, and the reducer returns it. *)
Lemma division_by_zero_is_returned :
  isFinite (evalOp Divide (ofZ 1) (ofZ 0)) = false /\
  calcMath [Value (ofZ 1); Operator Divide; Value (ofZ 0)] = Return Infinity /\
  reduceSource "=1/0" = Return Infinity.
Proof. repeat split; vm_compute; reflexivity. Qed.

(** The guard is on the steps of the two passes only: the additions of
    the final fold are not tested, and a NaN that arises there is
    returned. *)
Lemma fold_is_not_guarded :
  calcMath [Value Infinity; Value (S754_infinity true)] = Return NaN /\
  reduceSource "=1/0-1/0" = Return NaN.
Proof. split; vm_compute; reflexivity. Qed.

(** A pass needs no more rounds than its working copy has tokens. *)
Lemma collapse_fuel (tier : Tier) (cells : MathExp) (f1 : nat) :
  forall (f2 : nat) (prepared : MathExp),
    List.length prepared <= f1 -> List.length prepared <= f2 ->
    collapse tier f1 cells prepared = collapse tier f2 cells prepared.
Proof.
  induction f1 as [|f1 IH]; intros f2 prepared H1 H2.
  - destruct prepared; [|simpl in H1; lia]. destruct f2; reflexivity.
  - destruct f2 as [|f2].
    + destruct prepared; [reflexivity|simpl in H2; lia].
    + rewrite !collapse_unfold.
      destruct (findIndex (inTier tier) prepared) as [i|] eqn:Hi; [|reflexivity].
      pose proof (findIndex_some_lt _ _ _ Hi) as Hlt.
      destruct i as [|j]; cbn [elementBefore]; [reflexivity|].
      destruct (nth_error prepared j) as [t1|]; cbn [valueOf bind]; [|reflexivity].
      destruct (nth_error prepared (S j + 1)) as [t2|] eqn:Ht2; cbn [valueOf bind];
        [|reflexivity].
      destruct (nth_error prepared (S j)) as [t|]; cbn [valueOf bind]; [|reflexivity].
      destruct (arith _ _ _) as [v|]; [|reflexivity].
      destruct (isNaN v); [reflexivity|].
      assert (Hlen2 : S j + 1 < List.length prepared)
        by (apply nth_error_Some; rewrite Ht2; discriminate).
      pose proof (splice3_length prepared (S j) (Value v) ltac:(lia) Hlen2).
      apply IH; lia.
Qed.

(** The first operator of a tier with a token on each side, whatever the
    two tokens are. *)
Lemma collapse_step_operands (tier : Tier) (fuel : nat) (cells pre post : MathExp)
  (x y : MathToken) (o : MathOp) :
  findIndex (inTier tier) (pre ++ [x]) = None ->
  inTier tier (Operator o) = true ->
  collapse tier (S fuel) cells (pre ++ x :: Operator o :: y :: post) =
  match arith o (tokenValue x) (tokenValue y) with
  | None => Uncovered
  | Some v =>
      if isNaN v then
        shown <- valueOf (nth_error cells (S (List.length pre))) ;;
        Throw (CantEvaluate (tokenValue x) shown (tokenValue y))
      else collapse tier fuel cells (pre ++ Value v :: post)
  end.
Proof.
  intros Hpre Ho.
  set (l := pre ++ x :: Operator o :: y :: post).
  assert (Hi : findIndex (inTier tier) l = Some (S (List.length pre))).
  { unfold l.
    replace (pre ++ x :: Operator o :: y :: post)
      with ((pre ++ [x]) ++ Operator o :: y :: post)
      by (rewrite <- app_assoc; reflexivity).
    rewrite findIndex_app_first; [rewrite length_app, Nat.add_comm; reflexivity| |exact Ho].
    exact Hpre. }
  assert (H1 : nth_error l (List.length pre) = Some x).
  { unfold l. rewrite nth_error_app2, Nat.sub_diag by lia. reflexivity. }
  assert (H2 : nth_error l (S (List.length pre)) = Some (Operator o)).
  { unfold l. rewrite nth_error_app2 by lia.
    replace (S (List.length pre) - List.length pre) with 1 by lia. reflexivity. }
  assert (H3 : nth_error l (S (List.length pre) + 1) = Some y).
  { unfold l. rewrite nth_error_app2 by lia.
    replace (S (List.length pre) + 1 - List.length pre) with 2 by lia. reflexivity. }
  rewrite collapse_unfold, Hi.
  unfold elementBefore. rewrite H1, H2, H3. cbn [valueOf tokenValue bind].
  rewrite (selected_glyph tier o Ho).
  destruct (arith o (tokenValue x) (tokenValue y)) as [v|]; [|reflexivity].
  destruct (isNaN v); [reflexivity|].
  replace (S (List.length pre) - 1) with (List.length pre) by lia.
  unfold l. rewrite splice3_middle. reflexivity.
Qed.

(** The same step inside a reduction whose working copy is no longer than
    the sequence given to [calcMath], as it never is: the token the
    message shows for the operator is there, and the rest of the
    reduction is that of the shorter working copy. *)
Lemma reduceFrom_step (tier : Tier) (cells pre post : MathExp)
  (x y : MathToken) (o : MathOp) :
  findIndex (inTier tier) (pre ++ [x]) = None ->
  inTier tier (Operator o) = true ->
  List.length (pre ++ x :: Operator o :: y :: post) <= List.length cells ->
  exists t : MathToken,
    nth_error cells (S (List.length pre)) = Some t /\
    reduceFrom tier cells (pre ++ x :: Operator o :: y :: post) =
    match arith o (tokenValue x) (tokenValue y) with
    | None => Uncovered
    | Some v =>
        if isNaN v then Throw (CantEvaluate (tokenValue x) (tokenValue t) (tokenValue y))
        else reduceFrom tier cells (pre ++ Value v :: post)
    end.
Proof.
  intros Hpre Ho Hlen.
  assert (Hl : forall v, List.length (pre ++ x :: Operator o :: y :: post) =
                         S (S (List.length (pre ++ Value v :: post))))
    by (intros v; rewrite !length_app; cbn [List.length]; lia).
  destruct (nth_error cells (S (List.length pre))) as [t|] eqn:Ht.
  2:{ apply nth_error_None in Ht. rewrite length_app in Hlen.
      cbn [List.length] in Hlen. lia. }
  exists t. split; [reflexivity|].
  assert (Hc : collapse tier (List.length (pre ++ x :: Operator o :: y :: post)) cells
                 (pre ++ x :: Operator o :: y :: post) =
               match arith o (tokenValue x) (tokenValue y) with
               | None => Uncovered
               | Some v =>
                   if isNaN v
                   then Throw (CantEvaluate (tokenValue x) (tokenValue t) (tokenValue y))
                   else collapse tier (List.length (pre ++ Value v :: post)) cells
                          (pre ++ Value v :: post)
               end).
  { rewrite (Hl NaN) at 1.
    rewrite (collapse_step_operands tier _ cells pre post x y o Hpre Ho).
    destruct (arith o (tokenValue x) (tokenValue y)) as [v|]; [|reflexivity].
    destruct (isNaN v); [rewrite Ht; reflexivity|].
    apply collapse_fuel; [rewrite !length_app; cbn [List.length]; lia|apply le_n]. }
  unfold reduceFrom. destruct tier; rewrite Hc;
    (destruct (arith o (tokenValue x) (tokenValue y)) as [v|]; [|reflexivity]);
    (destruct (isNaN v); reflexivity).
Qed.

(** C4, amended.  Every arithmetic step of the reducer, that is every
    collapse of an operator and its two neighbours in either pass, fails
    exactly when its result is NaN, with the error that names the two
    operands; any other result, the infinities included, replaces the
    three tokens and the reduction goes on from the shorter sequence.
    - A sequence of one step: the error names the operands and the
      operator.
    - [calcMath] is the rest of the reduction from its argument, and
      where the first pass finds nothing the second takes over.
    - The step on two numbers at any point of a reduction, the working
      copy being no longer than the argument of [calcMath], as it is at
      the start and stays after each step: on NaN the whole reduction
      throws the error with the two numbers, the token shown between them
      being the one the argument has at the operator's index; otherwise
      the reduction is that of the sequence with the result in place.
    - The same for any two neighbours whose arithmetic the embedding
      covers, an operator for a neighbour making the result NaN. *)
Theorem arithmetic_step_fails_on_NaN_only :
  (forall (a b : number) (o : MathOp),
     calcMath [Value a; Operator o; Value b] =
     if isNaN (evalOp o a b)
     then Throw (CantEvaluate (Num a) (Str (glyph o)) (Num b))
     else Return (add zero (evalOp o a b))) /\
  (forall cells : MathExp, calcMath cells = reduceFrom MulDiv cells cells) /\
  (forall cells prepared : MathExp,
     findIndex (inTier MulDiv) prepared = None ->
     reduceFrom MulDiv cells prepared = reduceFrom AddSub cells prepared) /\
  (forall (tier : Tier) (cells pre post : MathExp) (a b : number) (o : MathOp),
     findIndex (inTier tier) pre = None ->
     inTier tier (Operator o) = true ->
     List.length (pre ++ Value a :: Operator o :: Value b :: post) <= List.length cells ->
     exists t : MathToken,
       nth_error cells (S (List.length pre)) = Some t /\
       reduceFrom tier cells (pre ++ Value a :: Operator o :: Value b :: post) =
       if isNaN (evalOp o a b)
       then Throw (CantEvaluate (Num a) (tokenValue t) (Num b))
       else reduceFrom tier cells (pre ++ Value (evalOp o a b) :: post)) /\
  (forall (tier : Tier) (cells pre post : MathExp) (x y : MathToken) (o : MathOp)
          (v : number),
     findIndex (inTier tier) (pre ++ [x]) = None ->
     inTier tier (Operator o) = true ->
     arith o (tokenValue x) (tokenValue y) = Some v ->
     List.length (pre ++ x :: Operator o :: y :: post) <= List.length cells ->
     exists t : MathToken,
       nth_error cells (S (List.length pre)) = Some t /\
       reduceFrom tier cells (pre ++ x :: Operator o :: y :: post) =
       if isNaN v
       then Throw (CantEvaluate (tokenValue x) (tokenValue t) (tokenValue y))
       else reduceFrom tier cells (pre ++ Value v :: post)).
Proof.
  split; [|split; [|split; [|split]]].
  - intros a b o.
    destruct (reduceFrom_step (if isMulDiv o then MulDiv else AddSub)
                [Value a; Operator o; Value b] [] [] (Value a) (Value b) o)
      as [t [Ht H]]; [destruct o; reflexivity..|apply le_n|].
    injection Ht as <-. cbn [app arith tokenValue] in H.
    change (calcMath [Value a; Operator o; Value b])
      with (reduceFrom MulDiv [Value a; Operator o; Value b]
              [Value a; Operator o; Value b]).
    destruct o; cbn [isMulDiv] in H.
    + unfold reduceFrom at 1. rewrite collapse_no_tier by reflexivity. cbn [bind].
      fold (reduceFrom AddSub [Value a; Operator Plus; Value b]
              [Value a; Operator Plus; Value b]).
      rewrite H. destruct (isNaN (evalOp Plus a b)); reflexivity.
    + unfold reduceFrom at 1. rewrite collapse_no_tier by reflexivity. cbn [bind].
      fold (reduceFrom AddSub [Value a; Operator Minus; Value b]
              [Value a; Operator Minus; Value b]).
      rewrite H. destruct (isNaN (evalOp Minus a b)); reflexivity.
    + rewrite H. destruct (isNaN (evalOp Times a b)); reflexivity.
    + rewrite H. destruct (isNaN (evalOp Divide a b)); reflexivity.
  - reflexivity.
  - intros cells prepared H. unfold reduceFrom.
    rewrite collapse_no_tier by exact H. reflexivity.
  - intros tier cells pre post a b o Hpre Ho Hlen.
    assert (Hpre' : findIndex (inTier tier) (pre ++ [Value a]) = None).
    { rewrite findIndex_app_none by exact Hpre. destruct tier; reflexivity. }
    destruct (reduceFrom_step tier cells pre post (Value a) (Value b) o Hpre' Ho Hlen)
      as [t [Ht H]].
    exists t. split; [exact Ht|exact H].
  - intros tier cells pre post x y o v Hpre Ho Hv Hlen.
    destruct (reduceFrom_step tier cells pre post x y o Hpre Ho Hlen) as [t [Ht H]].
    exists t. split; [exact Ht|]. rewrite H, Hv. reflexivity.
Qed.

(** The amended C4 on the reductions of ["=2+0/0"], ["=2+1/0"] and
    ["=1*1+0/0"].  The first throws at its first step, 0 / 0 being NaN;
    the second goes on with Infinity, which it returns; the third throws
    at its second step, with the two operands 0 and 0 and, for the
    operator, the token the original sequence has at the index found in
    the working copy, which is its [+]. *)
Lemma arithmetic_step_fails_on_NaN_only_witness :
  calcMath [Value (ofZ 2); Operator Plus; Value (ofZ 0); Operator Divide; Value (ofZ 0)] =
    Throw (CantEvaluate (Num (ofZ 0)) (Str "/") (Num (ofZ 0))) /\
  calcMath [Value (ofZ 2); Operator Plus; Value (ofZ 1); Operator Divide; Value (ofZ 0)] =
    Return Infinity /\
  calcMath [Value (ofZ 1); Operator Times; Value (ofZ 1); Operator Plus;
            Value (ofZ 0); Operator Divide; Value (ofZ 0)] =
    Throw (CantEvaluate (Num (ofZ 0)) (Str "+") (Num (ofZ 0))).
Proof.
  pose proof arithmetic_step_fails_on_NaN_only as [_ [Hstart [_ [Hstep _]]]].
  split; [|split].
  - rewrite Hstart.
    destruct (Hstep MulDiv
                [Value (ofZ 2); Operator Plus; Value (ofZ 0); Operator Divide; Value (ofZ 0)]
                [Value (ofZ 2); Operator Plus] [] (ofZ 0) (ofZ 0) Divide
                eq_refl eq_refl (le_n _)) as [t [Ht H]].
    injection Ht as <-. exact H.
  - rewrite Hstart.
    destruct (Hstep MulDiv
                [Value (ofZ 2); Operator Plus; Value (ofZ 1); Operator Divide; Value (ofZ 0)]
                [Value (ofZ 2); Operator Plus] [] (ofZ 1) (ofZ 0) Divide
                eq_refl eq_refl (le_n _)) as [t [Ht H]].
    cbn [app] in H. rewrite H. reflexivity.
  - rewrite Hstart.
    destruct (Hstep MulDiv
                [Value (ofZ 1); Operator Times; Value (ofZ 1); Operator Plus;
                 Value (ofZ 0); Operator Divide; Value (ofZ 0)]
                [] [Operator Plus; Value (ofZ 0); Operator Divide; Value (ofZ 0)]
                (ofZ 1) (ofZ 1) Times eq_refl eq_refl (le_n _)) as [t [Ht H]].
    cbn [app] in H. rewrite H.
    change (if isNaN (evalOp Times (ofZ 1) (ofZ 1)) then _ else ?r) with r.
    change (evalOp Times (ofZ 1) (ofZ 1)) with (ofZ 1).
    destruct (Hstep MulDiv
                [Value (ofZ 1); Operator Times; Value (ofZ 1); Operator Plus;
                 Value (ofZ 0); Operator Divide; Value (ofZ 0)]
                [Value (ofZ 1); Operator Plus] [] (ofZ 0) (ofZ 0) Divide
                eq_refl eq_refl ltac:(cbn; lia)) as [t' [Ht' H']].
    injection Ht' as <-. exact H'.
Defined.

(** C5 on the code.  The tokens of ["=1+"] and of ["=+1"] end and begin
    with an operator; the second pass reads the missing neighbour and the
    runtime raises its [TypeError], before the final fold is reached.  A
    doubled operator makes the step NaN and raises the arithmetic error.
    In general no sequence without Ref tokens fails with the error of the
    final fold: whatever the reducer throws on it is no
    [MalformedExpression]. *)
Theorem dangling_operator_never_reaches_fold :
  parseMathExp "=1+" = Return [Value (ofZ 1); Operator Plus] /\
  calcMath [Value (ofZ 1); Operator Plus] = Throw TypeError /\
  parseMathExp "=+1" = Return [Operator Plus; Value (ofZ 1)] /\
  calcMath [Operator Plus; Value (ofZ 1)] = Throw TypeError /\
  reduceSource "=1++2" = Throw (CantEvaluate (Num (ofZ 1)) (Str "+") (Str "+")) /\
  reduceSource "=2*" = Throw TypeError /\
  (forall (tokens : MathExp) (e : Error),
     existsb isRef tokens = false ->
     calcMath tokens = Throw e ->
     kind e <> MalformedExpression).
Proof.
  do 6 (split; [vm_compute; reflexivity|]).
  intros tokens e Href H.
  destruct (calcMath_ref_free tokens Href) as [[v Hv]|[Ht|[l [s [r Hc]]]]];
    rewrite H in *; try discriminate.
  - injection Ht as ->. discriminate.
  - injection Hc as ->. discriminate.
Qed.

(** C5 at the tokens of ["=1+"]: the error thrown is the runtime's. *)
Lemma dangling_operator_never_reaches_fold_witness :
  calcMath [Value (ofZ 1); Operator Plus] = Throw TypeError /\
  kind TypeError <> MalformedExpression.
Proof.
  split; [reflexivity|].
  exact (proj2 (proj2 (proj2 (proj2 (proj2 (proj2 dangling_operator_never_reaches_fold)))))
           [Value (ofZ 1); Operator Plus] TypeError eq_refl eq_refl).
Defined.

(** C9. On a sequence with no Operator token both passes change nothing
    and the reducer is its final fold.  So a sequence of Value tokens only
    (no Operator and, as the reducer requires, no Ref) reduces to the sum
    of its numbers, added from the left onto 0: adjacent numbers are
    summed, not rejected.  The bare formula ["="] has no token and reduces
    to 0. *)
Theorem no_operator_sums_values :
  (forall tokens : MathExp,
     existsb isOperator tokens = false ->
     calcMath tokens = sumValues tokens zero) /\
  (forall tokens : MathExp,
     existsb isOperator tokens = false ->
     existsb isRef tokens = false ->
     calcMath tokens = Return (fold_left add (valuesOf tokens) zero)) /\
  parseMathExp "=" = Return [] /\
  calcMath [] = Return zero.
Proof.
  assert (Hfold : forall tokens : MathExp,
            existsb isOperator tokens = false ->
            calcMath tokens = sumValues tokens zero).
  { intros tokens Ho. unfold calcMath.
    rewrite collapse_no_tier by (apply no_operator_no_tier; exact Ho).
    cbn [bind].
    rewrite collapse_no_tier by (apply no_operator_no_tier; exact Ho).
    reflexivity. }
  split; [exact Hfold|]. split; [|split; reflexivity].
  intros tokens Ho Hr. rewrite (Hfold tokens Ho).
  apply sumValues_values; assumption.
Qed.

(** C9 at the tokens of ["=1 2 3"]: three adjacent numbers, summed to 6. *)
Lemma no_operator_sums_values_witness :
  parseMathExp "=1 2 3" = Return [Value (ofZ 1); Value (ofZ 2); Value (ofZ 3)] /\
  calcMath [Value (ofZ 1); Value (ofZ 2); Value (ofZ 3)] =
    Return (fold_left add [ofZ 1; ofZ 2; ofZ 3] zero) /\
  fold_left add [ofZ 1; ofZ 2; ofZ 3] zero = ofZ 6.
Proof.
  split; [reflexivity|]. split; [|reflexivity].
  apply (proj1 (proj2 no_operator_sums_values)
           [Value (ofZ 1); Value (ofZ 2); Value (ofZ 3)]);
    reflexivity.
Defined.

(** ** The evaluator *)

Lemma evalCell_unfold (fuel : nat) (cell : Cell) (cells refTrace : list Cell) :
  evalCell (S fuel) cell cells refTrace =
  if cyclicTrace refTrace then
    (Throw (CyclicReference (map identifier refTrace)), refTrace)
  else
    match content cell with
    | IdentifierCell value _ => (Throw (CannotEvaluateIdentifier value), refTrace)
    | ValueCell value _ => (Return value, refTrace)
    | ExpressionCell value _ =>
        bindEval (mapEval (resolveToken (evalCell fuel) cell cells) value)
          (fun prepared => lift (calcMath prepared)) refTrace
    end.
Proof.
  cbn [evalCell]. unfold bindEval at 1. unfold getTrace at 1.
  destruct (cyclicTrace refTrace); [reflexivity|].
  destruct (content cell); reflexivity.
Qed.

Lemma resolveToken_ref (evalTarget : Cell -> list Cell -> Eval number)
  (cell : Cell) (cells : list Cell) (name : string) (refTrace : list Cell) :
  resolveToken evalTarget cell cells (Ref name) refTrace =
  match findCell name cells with
  | None =>
      (Throw (CouldNotFindRef name),
       if Nat.eqb (List.length refTrace) 0 then refTrace ++ [cell] else refTrace)
  | Some targetCell =>
      match evalTarget targetCell cells (entered cell refTrace targetCell) with
      | (Return value, _) => (Return (Value value), [])
      | (Throw e, refTrace') => (Throw e, refTrace')
      | (Uncovered, refTrace') => (Uncovered, refTrace')
      | (OutOfFuel, refTrace') => (OutOfFuel, refTrace')
      end
  end.
Proof.
  unfold resolveToken, entered, bindEval, getTrace, setTrace, ret, raise, lift.
  destruct (Nat.eqb (List.length refTrace) 0);
    destruct (findCell name cells) as [targetCell|]; reflexivity.
Qed.

Lemma resolveToken_other (evalTarget : Cell -> list Cell -> Eval number)
  (cell : Cell) (cells : list Cell) (token : MathToken) (refTrace : list Cell) :
  isRef token = false ->
  resolveToken evalTarget cell cells token refTrace = (Return token, refTrace).
Proof. destruct token; try discriminate; reflexivity. Qed.

Lemma mapEval_cons {A B : Type} (f : A -> Eval B) (a : A) (l : list A) (refTrace : list Cell) :
  mapEval f (a :: l) refTrace =
  match f a refTrace with
  | (Return b, refTrace') =>
      match mapEval f l refTrace' with
      | (Return bs, refTrace'') => (Return (b :: bs), refTrace'')
      | (Throw e, refTrace'') => (Throw e, refTrace'')
      | (Uncovered, refTrace'') => (Uncovered, refTrace'')
      | (OutOfFuel, refTrace'') => (OutOfFuel, refTrace'')
      end
  | (Throw e, refTrace') => (Throw e, refTrace')
  | (Uncovered, refTrace') => (Uncovered, refTrace')
  | (OutOfFuel, refTrace') => (OutOfFuel, refTrace')
  end.
Proof.
  cbn [mapEval]. unfold bindEval, ret.
  destruct (f a refTrace) as [[b|e| |] tr]; reflexivity.
Qed.

(** *** The trace a cyclic-reference error leaves behind *)

Lemma collapse_not_cyclic (tier : Tier) (fuel : nat) (cells prepared r : MathExp) (e : Error) :
  collapse tier fuel cells prepared = Throw e -> isCyclicReference e = false.
Proof.
  revert prepared. induction fuel as [|fuel IH]; intros prepared.
  - simpl. destruct (findIndex (inTier tier) prepared); discriminate.
  - rewrite collapse_unfold.
    destruct (findIndex (inTier tier) prepared) as [i|]; [|discriminate].
    destruct (elementBefore prepared i); cbn [valueOf bind];
      [|intros H; injection H as <-; reflexivity].
    destruct (nth_error prepared (i + 1)); cbn [valueOf bind];
      [|intros H; injection H as <-; reflexivity].
    destruct (nth_error prepared i); cbn [valueOf bind];
      [|intros H; injection H as <-; reflexivity].
    destruct (arith _ _ _) as [v|]; [|discriminate].
    destruct (isNaN v); [|apply IH].
    destruct (nth_error cells i); cbn [valueOf bind];
      intros H; injection H as <-; reflexivity.
Qed.

Lemma sumValues_not_cyclic (prepared : MathExp) (acc : number) (e : Error) :
  sumValues prepared acc = Throw e -> isCyclicReference e = false.
Proof.
  revert acc. induction prepared as [|t prepared IH]; intros acc; simpl.
  - discriminate.
  - destruct t; try (intros H; injection H as <-; reflexivity). apply IH.
Qed.

Lemma calcMath_not_cyclic (cells : MathExp) (e : Error) :
  calcMath cells = Throw e -> isCyclicReference e = false.
Proof.
  unfold calcMath.
  destruct (collapse MulDiv (List.length cells) cells cells) as [p1|e1| |] eqn:E1;
    cbn [bind]; try discriminate.
  - destruct (collapse AddSub (List.length p1) cells p1) as [p2|e2| |] eqn:E2;
      cbn [bind]; try discriminate.
    + apply sumValues_not_cyclic.
    + intros H. injection H as <-. exact (collapse_not_cyclic _ _ _ _ p1 _ E2).
  - intros H. injection H as <-. exact (collapse_not_cyclic _ _ _ _ cells _ E1).
Qed.

Lemma resolveToken_marked (evalTarget : Cell -> list Cell -> Eval number)
  (cell : Cell) (cells : list Cell) (token : MathToken) (refTrace : list Cell) :
  (forall c cs tr, marked (evalTarget c cs tr)) ->
  marked (resolveToken evalTarget cell cells token refTrace).
Proof.
  intros Hev. destruct token as [o|v|name].
  - intros chain H. discriminate.
  - intros chain H. discriminate.
  - rewrite resolveToken_ref.
    destruct (findCell name cells) as [targetCell|]; [|intros chain H; discriminate].
    specialize (Hev targetCell cells (entered cell refTrace targetCell)).
    destruct (evalTarget targetCell cells (entered cell refTrace targetCell))
      as [[v|e| |] tr]; intros chain H; try discriminate.
    cbn [fst] in H. injection H as ->. apply (Hev chain). reflexivity.
Qed.

Lemma mapEval_marked {A B : Type} (f : A -> Eval B) (l : list A) :
  (forall a tr, marked (f a tr)) -> forall refTrace, marked (mapEval f l refTrace).
Proof.
  intros Hf. induction l as [|a l IH]; intros refTrace.
  - intros chain H. discriminate.
  - rewrite mapEval_cons. specialize (Hf a refTrace).
    destruct (f a refTrace) as [[b|e| |] tr]; try (intros chain H; discriminate).
    + specialize (IH tr).
      destruct (mapEval f l tr) as [[bs|e| |] tr']; intros chain H; try discriminate.
      cbn [fst] in H. injection H as ->. apply (IH chain). reflexivity.
    + intros chain H. cbn [fst] in H. injection H as ->. apply (Hf chain). reflexivity.
Qed.

Lemma evalCell_marked (fuel : nat) :
  forall cell cells refTrace, marked (evalCell fuel cell cells refTrace).
Proof.
  induction fuel as [|fuel IH]; intros cell cells refTrace.
  - intros chain H. discriminate.
  - rewrite evalCell_unfold.
    destruct (cyclicTrace refTrace) eqn:Hc.
    + intros chain H. injection H as <-. split; [exact Hc|reflexivity].
    + destruct (content cell) as [v src|v src|tokens src];
        try (intros chain H; discriminate).
      unfold bindEval.
      pose proof (mapEval_marked (resolveToken (evalCell fuel) cell cells) tokens
                    (fun a tr => resolveToken_marked _ cell cells a tr IH) refTrace) as Hm.
      destruct (mapEval (resolveToken (evalCell fuel) cell cells) tokens refTrace)
        as [[prepared|e| |] tr]; try (intros chain H; discriminate).
      * intros chain H. unfold lift in H. cbn [fst] in H.
        apply calcMath_not_cyclic in H. discriminate.
      * intros chain H. cbn [fst] in H. injection H as ->. apply (Hm chain). reflexivity.
Qed.

(** *** More call-stack depth changes no finished call *)

Lemma mapEval_ext_finished {A B : Type} (f g : A -> Eval B) (l : list A) :
  (forall a tr, finished (f a tr) -> g a tr = f a tr) ->
  forall refTrace, finished (mapEval f l refTrace) ->
    mapEval g l refTrace = mapEval f l refTrace.
Proof.
  intros Hfg. induction l as [|a l IH]; intros refTrace Hfin; [reflexivity|].
  rewrite mapEval_cons in Hfin. rewrite !mapEval_cons.
  specialize (Hfg a refTrace).
  destruct (f a refTrace) as [[b|e| |] tr] eqn:Ef.
  - rewrite Hfg by discriminate.
    specialize (IH tr).
    destruct (mapEval f l tr) as [[bs|e| |] tr'] eqn:El;
      try (rewrite IH by discriminate; reflexivity).
    exfalso. apply Hfin. reflexivity.
  - rewrite Hfg by discriminate. reflexivity.
  - rewrite Hfg by discriminate. reflexivity.
  - exfalso. apply Hfin. reflexivity.
Qed.

Lemma resolveToken_ext_finished (f g : Cell -> list Cell -> Eval number)
  (cell : Cell) (cells : list Cell) (token : MathToken) (refTrace : list Cell) :
  (forall c cs tr, finished (f c cs tr) -> g c cs tr = f c cs tr) ->
  finished (resolveToken f cell cells token refTrace) ->
  resolveToken g cell cells token refTrace = resolveToken f cell cells token refTrace.
Proof.
  intros Hfg Hfin. destruct token as [o|v|name]; try reflexivity.
  rewrite resolveToken_ref in Hfin. rewrite !resolveToken_ref.
  destruct (findCell name cells) as [targetCell|]; [|reflexivity].
  specialize (Hfg targetCell cells (entered cell refTrace targetCell)).
  destruct (f targetCell cells (entered cell refTrace targetCell)) as [[v|e| |] tr];
    try (rewrite Hfg by discriminate; reflexivity).
  exfalso. apply Hfin. reflexivity.
Qed.

Lemma evalCell_deeper (fuel : nat) :
  forall cell cells refTrace,
    finished (evalCell fuel cell cells refTrace) ->
    evalCell (S fuel) cell cells refTrace = evalCell fuel cell cells refTrace.
Proof.
  induction fuel as [|fuel IH]; intros cell cells refTrace Hfin.
  - exfalso. apply Hfin. reflexivity.
  - rewrite (evalCell_unfold (S fuel)). rewrite (evalCell_unfold fuel) in Hfin |- *.
    destruct (cyclicTrace refTrace); [reflexivity|].
    destruct (content cell) as [v src|v src|tokens src]; try reflexivity.
    unfold bindEval in *.
    assert (Hmap : finished (mapEval (resolveToken (evalCell fuel) cell cells) tokens refTrace)).
    { intros E. apply Hfin.
      destruct (mapEval (resolveToken (evalCell fuel) cell cells) tokens refTrace)
        as [[p|e| |] tr]; try discriminate. reflexivity. }
    rewrite (mapEval_ext_finished (resolveToken (evalCell fuel) cell cells)
               (resolveToken (evalCell (S fuel)) cell cells) tokens); [reflexivity| |exact Hmap].
    intros a tr Ha. apply resolveToken_ext_finished; [|exact Ha].
    intros c cs tr' Hc. apply IH. exact Hc.
Qed.

Lemma evalCell_any_deeper (fuel extra : nat) (cell : Cell) (cells refTrace : list Cell) :
  finished (evalCell fuel cell cells refTrace) ->
  evalCell (extra + fuel) cell cells refTrace = evalCell fuel cell cells refTrace.
Proof.
  intros Hfin. induction extra as [|extra IH]; [reflexivity|].
  cbn [Nat.add]. rewrite evalCell_deeper; [exact IH|]. rewrite IH. exact Hfin.
Qed.

(** *** Claims on the evaluator *)

Lemma last_repeat {A : Type} (a d : A) (k : nat) : last (repeat a (S k)) d = a.
Proof.
  induction k as [|k IH]; [reflexivity|].
  change (repeat a (S (S k))) with (a :: repeat a (S k)).
  change (last (a :: repeat a (S k)) d) with (last (repeat a (S k)) d). exact IH.
Qed.

(** In [loopGrid] the trace only grows while [B1] is evaluated under
    [A1]: its first entry is [A1], its last is [B1], and no depth is
    enough. *)
Lemma loop_invariant (fuel k : nat) :
  fst (evalCell fuel loopB1 [loopA1; loopB1] (loopA1 :: loopB1 :: repeat loopB1 k))
  = OutOfFuel.
Proof.
  revert k. induction fuel as [|fuel IH]; intros k; [reflexivity|].
  rewrite evalCell_unfold.
  assert (Hc : cyclicTrace (loopA1 :: loopB1 :: repeat loopB1 k) = false).
  { unfold cyclicTrace.
    change (last (loopA1 :: loopB1 :: repeat loopB1 k) loopA1)
      with (last (repeat loopB1 (S k)) loopA1).
    rewrite last_repeat. reflexivity. }
  rewrite Hc. cbn [content loopB1]. unfold bindEval.
  rewrite mapEval_cons, resolveToken_ref.
  change (findCell "B1" [loopA1; loopB1]) with (Some loopB1).
  unfold entered. cbn [List.length Nat.eqb].
  replace ((loopA1 :: loopB1 :: repeat loopB1 k) ++ [loopB1])
    with (loopA1 :: loopB1 :: repeat loopB1 (S k))
    by (cbn [app]; rewrite <- repeat_cons; reflexivity).
  specialize (IH (S k)).
  destruct (evalCell fuel loopB1 [loopA1; loopB1] (loopA1 :: loopB1 :: repeat loopB1 (S k)))
    as [[v|e| |] tr]; cbn [fst] in IH; try discriminate.
  reflexivity.
Qed.

(** C1 on the code.  [loopGrid] is a well-formed grid of two cells, and
    evaluating its first cell from the empty trace finishes at no
    call-stack depth: the cycle does not pass through the first entry of
    the trace, so the test at the head of [evalCell] never fires. *)
Theorem inner_cycle_exceeds_every_depth :
  parseCells loopGrid =
    Return ([loopA1; loopB1], [IdentifierCell "A" "A"; IdentifierCell "B" "B"]) /\
  forall fuel : nat, fst (evalCell fuel loopA1 [loopA1; loopB1] []) = OutOfFuel.
Proof.
  split; [vm_compute; reflexivity|].
  intros [|fuel]; [reflexivity|].
  rewrite evalCell_unfold. cbn [cyclicTrace content loopA1]. unfold bindEval.
  rewrite mapEval_cons, resolveToken_ref.
  change (findCell "B1" [loopA1; loopB1]) with (Some loopB1).
  unfold entered. cbn [List.length Nat.eqb app].
  pose proof (loop_invariant fuel 0) as H. cbn [repeat] in H.
  destruct (evalCell fuel loopB1 [loopA1; loopB1] [loopA1; loopB1])
    as [[v|e| |] tr]; cbn [fst] in H; try discriminate.
  reflexivity.
Qed.

(** C3. The grid of header [A] and single data row [=A1] parses to one
    cell; evaluating it, at any depth that allows the one nested call,
    fails with the cyclic-reference error, whose chain is A1, A1 and whose
    message lists it in order.  In general a reference is resolved under
    the trace extended by its target (after the referring cell when the
    trace was empty), and a call entered with a trace of more than one
    entry whose first and last entries are the same cell fails at once
    with that error and the chain of the trace. *)
Theorem self_reference_is_cyclic :
  parseCells selfGrid = Return ([selfA1], [IdentifierCell "A" "A"]) /\
  (forall fuel : nat,
     evalCell (S (S fuel)) selfA1 [selfA1] [] =
       (Throw (CyclicReference ["A1"; "A1"]), [selfA1; selfA1])) /\
  cyclicMessage ["A1"; "A1"] = "Cyclic reference: A1 -> A1" /\
  (forall (fuel : nat) (cell : Cell) (cells refTrace : list Cell),
     cyclicTrace refTrace = true ->
     evalCell (S fuel) cell cells refTrace =
       (Throw (CyclicReference (map identifier refTrace)), refTrace)) /\
  (forall (evalTarget : Cell -> list Cell -> Eval number) (cell targetCell : Cell)
          (cells refTrace : list Cell) (name : string)
          (value : number) (after : list Cell),
     findCell name cells = Some targetCell ->
     evalTarget targetCell cells (entered cell refTrace targetCell) = (Return value, after) ->
     resolveToken evalTarget cell cells (Ref name) refTrace = (Return (Value value), [])).
Proof.
  split; [vm_compute; reflexivity|].
  split; [intros fuel; reflexivity|].
  split; [reflexivity|].
  split.
  - intros fuel cell cells refTrace H. rewrite evalCell_unfold, H. reflexivity.
  - intros evalTarget cell targetCell cells refTrace name value after Hfind Hev.
    rewrite resolveToken_ref, Hfind, Hev. reflexivity.
Qed.

(** C3 at the trace [A1, A1] and at the reference of [sumGrid]. *)
Lemma self_reference_is_cyclic_witness :
  evalCell 1 sumA1 [sumA1; sumB1] [selfA1; selfA1] =
    (Throw (CyclicReference ["A1"; "A1"]), [selfA1; selfA1]) /\
  resolveToken (evalCell 1) sumB1 [sumA1; sumB1] (Ref "A1") [] =
    (Return (Value (ofZ 1)), []).
Proof.
  split.
  - exact (proj1 (proj2 (proj2 (proj2 self_reference_is_cyclic)))
             0 sumA1 [sumA1; sumB1] [selfA1; selfA1] eq_refl).
  - exact (proj2 (proj2 (proj2 (proj2 self_reference_is_cyclic)))
             (evalCell 1) sumB1 sumA1 [sumA1; sumB1] [] "A1" (ofZ 1) [sumB1; sumA1]
             eq_refl eq_refl).
Defined.

(** C6. The grid of header [A,B] and single data row [1,=A1+1] parses to
    the cells [A1] and [B1], named after their column and the row number
    1; the identifier [A1] finds the first data cell, the number 1 under
    column [A]; and evaluating [B1], at any depth that allows the one
    nested call, returns 2 and leaves the trace empty. *)
Theorem sum_grid_evaluates_B1_to_2 :
  parseCells sumGrid =
    Return ([sumA1; sumB1], [IdentifierCell "A" "A"; IdentifierCell "B" "B"]) /\
  map identifier [sumA1; sumB1] = ["A" ++ decimal 1; "B" ++ decimal 1]%string /\
  findCell "A1" [sumA1; sumB1] = Some sumA1 /\
  nth_error [sumA1; sumB1] 0 = Some sumA1 /\
  content sumA1 = ValueCell (ofZ 1) "1" /\
  forall fuel : nat,
    evalCell (S (S fuel)) sumB1 [sumA1; sumB1] [] = (Return (ofZ 2), []).
Proof.
  split; [vm_compute; reflexivity|].
  do 4 (split; [reflexivity|]).
  intros fuel. reflexivity.
Qed.

(** C8. When a call of [evalCell] throws the cyclic-reference error, the
    trace it leaves behind passes the test at the head of [evalCell], so
    every later call, whatever its cell and its grid, throws that error
    too and leaves the trace as it is.  So the same call, the cell [A1]
    of [sumGrid] holding the number 1, returns 1 from the empty trace and
    throws after the failed evaluation of [selfGrid]. *)
Theorem cyclic_error_poisons_later_calls :
  (forall (fuel : nat) (cell : Cell) (cells refTrace : list Cell)
          (chain : list string) (refTrace' : list Cell),
     evalCell fuel cell cells refTrace = (Throw (CyclicReference chain), refTrace') ->
     cyclicTrace refTrace' = true /\
     forall (fuel' : nat) (cell' : Cell) (cells' : list Cell),
       evalCell (S fuel') cell' cells' refTrace' =
         (Throw (CyclicReference (map identifier refTrace')), refTrace')) /\
  evalCell 1 sumA1 [sumA1; sumB1] [] = (Return (ofZ 1), []) /\
  evalCell 1 sumA1 [sumA1; sumB1] (snd (evalCell 2 selfA1 [selfA1] [])) =
    (Throw (CyclicReference ["A1"; "A1"]), [selfA1; selfA1]).
Proof.
  split; [|split; reflexivity].
  intros fuel cell cells refTrace chain refTrace' H.
  pose proof (evalCell_marked fuel cell cells refTrace chain) as Hm.
  rewrite H in Hm. cbn [fst snd] in Hm. destruct (Hm eq_refl) as [Hc _].
  split; [exact Hc|].
  intros fuel' cell' cells'. rewrite evalCell_unfold, Hc. reflexivity.
Qed.

(** C8 at the failed evaluation of [selfGrid], followed by a call on the
    literal cell of [sumGrid]. *)
Lemma cyclic_error_poisons_later_calls_witness :
  evalCell 2 selfA1 [selfA1] [] = (Throw (CyclicReference ["A1"; "A1"]), [selfA1; selfA1]) /\
  cyclicTrace [selfA1; selfA1] = true /\
  evalCell 1 sumA1 [sumA1; sumB1] [selfA1; selfA1] =
    (Throw (CyclicReference (map identifier [selfA1; selfA1])), [selfA1; selfA1]).
Proof.
  split; [reflexivity|].
  destruct (proj1 cyclic_error_poisons_later_calls 2 selfA1 [selfA1] []
              ["A1"; "A1"] [selfA1; selfA1] eq_refl) as [Hc Hlater].
  split; [exact Hc|]. exact (Hlater 0 sumA1 [sumA1; sumB1]).
Defined.

(** ** The grid parser and the classifier *)

Lemma chars_text (l : list ascii) : chars (text l) = l.
Proof. apply list_ascii_of_string_of_list_ascii. Qed.

Lemma splitChars_Forall (P : ascii -> Prop) (sep : ascii) (l : list ascii) :
  Forall P l -> Forall (Forall P) (splitChars sep l).
Proof.
  induction l as [|c l IH]; intros H; simpl.
  - repeat constructor.
  - inversion H as [|c' l' Hc Hl]; subst. specialize (IH Hl).
    destruct (Ascii.eqb c sep).
    + constructor; [constructor|exact IH].
    + destruct (splitChars sep l) as [|w ws].
      * repeat constructor. exact Hc.
      * inversion IH; subst. constructor; [constructor|]; assumption.
Qed.

Lemma splitChars_no_sep (sep : ascii) (l : list ascii) :
  Forall (Forall (fun c => Ascii.eqb c sep = false)) (splitChars sep l).
Proof.
  induction l as [|c l IH]; simpl.
  - repeat constructor.
  - destruct (Ascii.eqb c sep) eqn:E.
    + constructor; [constructor|exact IH].
    + destruct (splitChars sep l) as [|w ws].
      * repeat constructor. exact E.
      * inversion IH; subst. constructor; [constructor|]; assumption.
Qed.

Lemma dropWhile_all (p : ascii -> bool) (l : list ascii) :
  Forall (fun c => p c = true) l -> dropWhile p l = [].
Proof.
  induction 1 as [|c l Hc _ IH]; simpl; [reflexivity|]. rewrite Hc. exact IH.
Qed.

Lemma trim_blank (w : list ascii) :
  Forall (fun c => isSpace c = true) w -> trim (text w) = "".
Proof.
  intros H. unfold trim, trimChars. rewrite chars_text, (dropWhile_all _ _ H).
  reflexivity.
Qed.

Lemma filter_none {A : Type} (f : A -> bool) (l : list A) :
  Forall (fun a => f a = false) l -> filter f l = [].
Proof.
  induction 1 as [|a l Ha _ IH]; simpl; [reflexivity|]. rewrite Ha. exact IH.
Qed.

(** A line of blanks and commas has no field left after the filter. *)
Lemma blank_line_has_no_field (w : list ascii) :
  Forall (fun c => blankOrComma c = true) w ->
  filter (fun field => truthy (trim field)) (split "," (text w)) = [].
Proof.
  intros H. apply filter_none. unfold split. rewrite chars_text.
  apply Forall_map.
  pose proof (splitChars_Forall _ "," w H) as H1.
  pose proof (splitChars_no_sep "," w) as H2.
  rewrite Forall_forall in *. intros field Hin.
  specialize (H1 field Hin). specialize (H2 field Hin).
  rewrite trim_blank; [reflexivity|].
  rewrite Forall_forall in *. intros c Hc.
  specialize (H1 c Hc). specialize (H2 c Hc).
  unfold blankOrComma in H1. rewrite H2, orb_false_r in H1. exact H1.
Qed.

Lemma cellsSrcOf_blank (src : string) :
  forallb blankOrComma (chars src) = true -> cellsSrcOf src = [].
Proof.
  intros H. unfold cellsSrcOf.
  assert (Hall : Forall (fun c => blankOrComma c = true) (chars src))
    by (apply Forall_forall; apply forallb_forall; exact H).
  pose proof (splitChars_Forall _ LF (chars src) Hall) as Hlines.
  unfold split at 2.
  induction Hlines as [|w ws Hw _ IH]; [reflexivity|].
  cbn [map filter]. rewrite (blank_line_has_no_field w Hw). exact IH.
Qed.

(** C7. A grid source of blanks, line breaks and commas only, the empty
    string among them, has only empty lines and empty fields; parsing it
    returns the pair of no cell and no header. *)
Theorem empty_grid_parses_to_empty_pair (src : string) :
  forallb blankOrComma (chars src) = true -> parseCells src = Return ([], []).
Proof.
  intros H. unfold parseCells. rewrite (cellsSrcOf_blank src H). reflexivity.
Qed.

(** C7 at the empty string and at three lines of blanks and commas. *)
Lemma empty_grid_parses_to_empty_pair_witness :
  parseCells "" = Return ([], []) /\
  parseCells (grid [" , ,"; ""; "  "]) = Return ([], []).
Proof.
  split; apply empty_grid_parses_to_empty_pair; reflexivity.
Defined.

(** *** A digit is no blank, sign, letter or [=] *)

Lemma digit_facts (d : ascii) :
  isDigit d = true ->
  isSpace d = false /\ isAlpha d = false /\
  Ascii.eqb d "+" = false /\ Ascii.eqb d "-" = false /\
  Ascii.eqb d "I" = false /\ Ascii.eqb d "=" = false /\ Ascii.eqb d "." = false.
Proof.
  destruct d as [[] [] [] [] [] [] [] []]; intros H; try discriminate H;
    repeat split; reflexivity.
Qed.

Lemma span_prefix (p : ascii -> bool) (ds rest : list ascii) :
  forallb p ds = true ->
  match rest with [] => true | c :: _ => negb (p c) end = true ->
  span p (ds ++ rest) = (ds, rest).
Proof.
  intros Hds Hrest. induction ds as [|d ds IH]; simpl in *.
  - destruct rest as [|c rest]; [reflexivity|]. simpl.
    apply negb_true_iff in Hrest. rewrite Hrest. reflexivity.
  - apply andb_true_iff in Hds as [Hd Hds]. rewrite Hd, (IH Hds). reflexivity.
Qed.

Lemma digitsToZ_nonneg (ds : list ascii) : (0 <= digitsToZ ds)%Z.
Proof.
  unfold digitsToZ.
  assert (H : forall acc, (0 <= acc)%Z ->
            (0 <= fold_left (fun acc c => 10 * acc + digitValue c) ds acc)%Z).
  { induction ds as [|d ds IH]; intros acc Hacc; cbn [fold_left]; [exact Hacc|].
    apply IH. unfold digitValue. lia. }
  apply H. lia.
Qed.

Lemma ofDecimal_integer (m : Z) : (0 <= m)%Z -> ofDecimal false m 0 = ofZ m.
Proof.
  intros H. destruct m as [|p|p]; [reflexivity| |lia].
  unfold ofDecimal, ofZ, binary_normalize.
  change (Z.pow 10 0) with 1%Z. rewrite Z.mul_1_r. reflexivity.
Qed.

(** [parseFloat] on digits followed by a character that cannot continue
    the literal reads the digits and nothing else. *)
Lemma parseFloat_digits_prefix (ds rest : list ascii) :
  ds <> [] -> forallb isDigit ds = true -> stopsLiteral rest = true ->
  parseFloatChars (ds ++ rest) = ofZ (digitsToZ ds).
Proof.
  intros Hne Hds Hrest.
  destruct ds as [|d ds']; [contradiction|].
  pose proof Hds as Hds0. cbn [forallb] in Hds0. apply andb_true_iff in Hds0 as [Hd _].
  destruct (digit_facts d Hd) as [Hsp [_ [Hplus [Hminus [HI _]]]]].
  unfold parseFloatChars, unsigned.
  change ((d :: ds') ++ rest) with (d :: (ds' ++ rest)).
  cbn [dropWhile]. rewrite Hsp, Hplus, Hminus.
  unfold unsignedLiteral.
  cbn [startsWith chars list_ascii_of_string].
  rewrite Ascii.eqb_sym, HI. cbn [andb].
  change (d :: (ds' ++ rest)) with ((d :: ds') ++ rest).
  rewrite (span_prefix isDigit (d :: ds') rest Hds).
  2:{ destruct rest as [|c rest']; [reflexivity|].
      unfold stopsLiteral in Hrest. apply negb_true_iff in Hrest.
      apply orb_false_iff in Hrest as [Hrest _].
      apply negb_true_iff. exact Hrest. }
  assert (Hstop : (match rest with
                   | [] => ([], rest)
                   | c :: r => if Ascii.eqb c "." then span isDigit r else ([], rest)
                   end) = (@nil ascii, rest) /\ exponentPart rest = 0%Z).
  { destruct rest as [|c rest']; [split; reflexivity|].
    unfold stopsLiteral in Hrest. apply negb_true_iff in Hrest.
    apply orb_false_iff in Hrest as [_ Hrest].
    apply orb_false_iff in Hrest as [Hdot Hexp].
    rewrite Hdot. split; [reflexivity|].
    unfold exponentPart. rewrite Hexp. reflexivity. }
  destruct Hstop as [-> Hexp]. rewrite app_nil_r, Hexp.
  cbn [List.length Z.of_nat Z.sub Z.opp Z.add].
  apply ofDecimal_integer. apply digitsToZ_nonneg.
Qed.

(** *** A decimal literal never denotes NaN *)

Lemma shr_1_nonneg (mrs : shr_record) :
  (0 <= shr_m mrs)%Z -> (0 <= shr_m (shr_1 mrs))%Z.
Proof.
  destruct mrs as [m r s0]. cbn [shr_m]. intros H.
  destruct m as [|p|p]; [simpl; lia| |lia].
  destruct p; simpl; lia.
Qed.

Lemma iter_shr_1_nonneg (p : positive) :
  forall mrs, (0 <= shr_m mrs)%Z -> (0 <= shr_m (iter_pos shr_1 p mrs))%Z.
Proof.
  induction p as [p IH|p IH|]; intros mrs H; cbn [iter_pos].
  - apply IH, IH, shr_1_nonneg, H.
  - apply IH, IH, H.
  - apply shr_1_nonneg, H.
Qed.

Lemma shr_fexp_nonneg (m e : Z) (l : location) :
  (0 <= m)%Z -> (0 <= shr_m (fst (shr_fexp prec emax m e l)))%Z.
Proof.
  intros H. unfold shr_fexp, shr.
  assert (H0 : (0 <= shr_m (shr_record_of_loc m l))%Z)
    by (destruct l as [|[]]; exact H).
  destruct (fexp prec emax (Zdigits2 m + e) - e)%Z as [|p|p]; cbn [fst];
    try exact H0.
  apply iter_shr_1_nonneg. exact H0.
Qed.

Lemma round_nearest_even_nonneg (m : Z) (l : location) :
  (0 <= m)%Z -> (0 <= round_nearest_even m l)%Z.
Proof.
  intros H. destruct l as [|[]]; cbn [round_nearest_even]; try exact H; [|lia].
  destruct (Z.even m); lia.
Qed.

Lemma binary_round_aux_not_NaN (sx : bool) (mx ex : Z) (lx : location) :
  (0 <= mx)%Z -> isNaN (binary_round_aux prec emax sx mx ex lx) = false.
Proof.
  intros H. unfold binary_round_aux.
  pose proof (shr_fexp_nonneg mx ex lx H) as H1.
  destruct (shr_fexp prec emax mx ex lx) as [mrs' e']. cbn [fst] in H1.
  pose proof (shr_fexp_nonneg _ e' loc_Exact
                (round_nearest_even_nonneg _ (loc_of_shr_record mrs') H1)) as H2.
  destruct (shr_fexp prec emax (round_nearest_even (shr_m mrs') (loc_of_shr_record mrs'))
              e' loc_Exact) as [mrs'' e''].
  cbn [fst] in H2.
  destruct (shr_m mrs'') as [|q|q]; [reflexivity| |lia].
  destruct (Z.leb e'' (emax - prec)); reflexivity.
Qed.

Lemma binary_round_not_NaN (sx : bool) (mx : positive) (ex : Z) :
  isNaN (binary_round prec emax sx mx ex) = false.
Proof.
  unfold binary_round. destruct (shl_align mx ex _) as [mz ez].
  apply binary_round_aux_not_NaN. lia.
Qed.

Lemma ofDecimal_not_NaN (neg : bool) (m e : Z) :
  (0 <= m)%Z -> isNaN (ofDecimal neg m e) = false.
Proof.
  intros H. destruct m as [|p|p]; [reflexivity| |lia].
  unfold ofDecimal. destruct e as [|k|k].
  - change (Z.pow 10 0) with 1%Z. rewrite Z.mul_1_r. apply binary_round_not_NaN.
  - assert (Hpos : (0 < Z.pos p * 10 ^ Z.pos k)%Z)
      by (apply Z.mul_pos_pos; [lia|apply Z.pow_pos_nonneg; lia]).
    destruct (Z.pos p * 10 ^ Z.pos k)%Z as [|n|n]; try lia.
    apply binary_round_not_NaN.
  - unfold SFdiv_core_binary.
    set (e' := Z.min _ _). set (m' := match (0 - 0 - e')%Z with
                                      | Z0 => Z.pos p
                                      | Z.pos _ => Z.shiftl (Z.pos p) (0 - 0 - e')
                                      | Z.neg _ => 0%Z
                                      end).
    assert (Hm' : (0 <= m')%Z).
    { unfold m'. destruct (0 - 0 - e')%Z eqn:E; try lia.
      apply Z.shiftl_nonneg. lia. }
    assert (Hd : (0 < 10 ^ Z.pos k)%Z) by (apply Z.pow_pos_nonneg; lia).
    pose proof (Z.div_pos m' (10 ^ Z.pos k) Hm' Hd) as Hq.
    unfold Z.div in Hq.
    destruct (Z.div_eucl m' (10 ^ Z.pos k)) as [q r]. cbn [fst] in Hq.
    apply binary_round_aux_not_NaN. exact Hq.
Qed.

Lemma ofZ_not_NaN (m : Z) : (0 <= m)%Z -> isNaN (ofZ m) = false.
Proof.
  intros H. rewrite <- (ofDecimal_integer m H). apply ofDecimal_not_NaN. exact H.
Qed.

Lemma span_head (p : ascii -> bool) (c : ascii) (r : list ascii) :
  span p (c :: r) = if p c then (c :: fst (span p r), snd (span p r)) else ([], c :: r).
Proof. cbn [span]. destruct (p c); [|reflexivity]. destruct (span p r); reflexivity. Qed.

(** [parseFloat] gives NaN exactly when, after the blanks and the sign,
    the text does not begin with a literal. *)
Lemma unsignedLiteral_NaN (neg : bool) (u : list ascii) :
  isNaN (unsignedLiteral neg u) = negb (startsLiteral u).
Proof.
  unfold unsignedLiteral, startsLiteral.
  destruct (startsWith (chars "Infinity") u); [reflexivity|]. cbn [orb].
  destruct u as [|c r]; [reflexivity|].
  rewrite span_head. destruct (isDigit c) eqn:Hc.
  - cbn [orb negb].
    destruct (match snd (span isDigit r) with
              | [] => ([], snd (span isDigit r))
              | c0 :: r0 =>
                  if Ascii.eqb c0 "." then span isDigit r0 else ([], snd (span isDigit r))
              end) as [fp u2].
    cbn [app]. apply ofDecimal_not_NaN, digitsToZ_nonneg.
  - cbn [orb]. destruct (Ascii.eqb c "."); [|reflexivity]. cbn [andb].
    destruct r as [|d r']; [reflexivity|].
    rewrite span_head. destruct (isDigit d); [|reflexivity].
    cbn [app]. apply ofDecimal_not_NaN, digitsToZ_nonneg.
Qed.

Lemma parseFloat_NaN (src : string) :
  isNaN (parseFloat src) = negb (startsLiteral (snd (unsigned (chars src)))).
Proof.
  unfold parseFloat, parseFloatChars.
  destruct (unsigned (chars src)) as [neg u]. apply unsignedLiteral_NaN.
Qed.

(** *** The tokenizer ends, and none of its errors is that of the classifier *)

Lemma span_length (p : ascii -> bool) (l : list ascii) :
  List.length (snd (span p l)) <= List.length l.
Proof.
  induction l as [|c l IH]; simpl; [lia|].
  destruct (p c); [|simpl; lia]. destruct (span p l); simpl in *. lia.
Qed.

Lemma tokenize_outcome (fuel : nat) :
  forall (l : list ascii) (tokens : MathExp),
    List.length l <= fuel ->
    (exists r, tokenize fuel l tokens = Return r) \/
    (exists numRaw, tokenize fuel l tokens = Throw (InvalidNumberLiteral numRaw)).
Proof.
  induction fuel as [|fuel IH]; intros l tokens Hlen.
  - destruct l; [left; eexists; reflexivity|simpl in Hlen; lia].
  - destruct l as [|c l]; [left; eexists; reflexivity|].
    cbn [tokenize]. simpl in Hlen.
    destruct (isSpace c); [apply IH; lia|].
    destruct (isNumberStart c).
    + pose proof (span_length isNumberPart l) as Hs.
      destruct (span isNumberPart l) as [more rest]. cbn [snd] in Hs.
      destruct (String.eqb _ "-"); [apply IH; lia|].
      destruct (isNaN _); [right; eexists; reflexivity|apply IH; lia].
    + destruct (operatorOf c); [apply IH; lia|].
      destruct (isAlpha c); [|apply IH; lia].
      pose proof (span_length isRefPart l) as Hs.
      destruct (span isRefPart l) as [more rest]. cbn [snd] in Hs.
      apply IH. lia.
Qed.

(** The tokenizer returns the tokens or throws one of its two errors; it
    never runs out of fuel. *)
Lemma parseMathExp_outcome (src : string) :
  (exists r, parseMathExp src = Return r) \/
  (exists numRaw, parseMathExp src = Throw (InvalidNumberLiteral numRaw)) \/
  parseMathExp src = Throw (InvalidExpression src).
Proof.
  unfold parseMathExp. destruct (chars src) as [|c rest]; [auto|].
  destruct (Ascii.eqb c "=") eqn:E.
  - apply Ascii.eqb_eq in E. subst c.
    destruct (tokenize_outcome (List.length rest) rest [] (le_n _)) as [H|H]; auto.
  - assert (Hne : c <> "="%char) by (intros ->; rewrite Ascii.eqb_refl in E; discriminate).
    right. right.
    destruct c as [[] [] [] [] [] [] [] []]; try reflexivity. contradiction Hne. reflexivity.
Qed.

(** *** Claims on the classifier *)

(** C10. The string ["12abc"] classifies as the Value 12.  Digits followed
    by anything that cannot continue a literal classify as the Value of the
    digits alone.  A string that is no identifier and no formula classifies
    as the Value [parseFloat] reads at its head, and the classifier throws
    its error, on any string, only when [parseFloat] gives NaN, which is
    when the text after the blanks and the sign begins with no literal. *)
Theorem numeric_prefix_classifies_as_value :
  parseCell "12abc" = Return (ValueCell (ofZ 12) "12abc") /\
  (forall ds rest : list ascii,
     ds <> [] -> forallb isDigit ds = true -> stopsLiteral rest = true ->
     parseCell (text (ds ++ rest)) =
       Return (ValueCell (ofZ (digitsToZ ds)) (text (ds ++ rest)))) /\
  (forall src : string,
     isAlphaString src = false ->
     startsWith ["="%char] (chars src) = false ->
     parseCell src =
       if isNaN (parseFloat src) then Throw (InvalidCellValue src)
       else Return (ValueCell (parseFloat src) src)) /\
  (forall src s : string,
     parseCell src = Throw (InvalidCellValue s) ->
     s = src /\ isNaN (parseFloat src) = true /\
     startsLiteral (snd (unsigned (chars src))) = false).
Proof.
  assert (Hgen : forall src : string,
            isAlphaString src = false ->
            startsWith ["="%char] (chars src) = false ->
            parseCell src =
              if isNaN (parseFloat src) then Throw (InvalidCellValue src)
              else Return (ValueCell (parseFloat src) src)).
  { intros src Ha He. unfold parseCell. rewrite Ha.
    destruct (chars src) as [|c r] eqn:E.
    - destruct (isNaN (parseFloat src)); reflexivity.
    - cbn [startsWith] in He. rewrite andb_true_r in He.
      destruct c as [[] [] [] [] [] [] [] []]; try discriminate He;
        destruct (isNaN (parseFloat src)); reflexivity. }
  split; [vm_compute; reflexivity|].
  split; [|split; [exact Hgen|]].
  - intros ds rest Hne Hds Hrest.
    assert (Hpf : parseFloat (text (ds ++ rest)) = ofZ (digitsToZ ds)).
    { unfold parseFloat. rewrite chars_text.
      apply parseFloat_digits_prefix; assumption. }
    destruct ds as [|d ds']; [contradiction|].
    pose proof Hds as Hds0. cbn [forallb] in Hds0.
    apply andb_true_iff in Hds0 as [Hd _].
    destruct (digit_facts d Hd) as [_ [Hal [_ [_ [_ [Heq _]]]]]].
    rewrite Hgen.
    + rewrite Hpf, ofZ_not_NaN by apply digitsToZ_nonneg. reflexivity.
    + unfold isAlphaString. rewrite chars_text. cbn [app forallb]. rewrite Hal. reflexivity.
    + rewrite chars_text. cbn [app startsWith]. rewrite Ascii.eqb_sym, Heq. reflexivity.
  - intros src s H.
    assert (Hnan : s = src /\ isNaN (parseFloat src) = true).
    { unfold parseCell in H. destruct (isAlphaString src); [discriminate|].
      assert (Hexp : forall A (f : MathExp -> Outcome A),
                (forall v, f v <> Throw (InvalidCellValue s)) ->
                bind (parseMathExp src) f <> Throw (InvalidCellValue s)).
      { intros A f Hf.
        destruct (parseMathExp_outcome src) as [[r ->]|[[n ->]| ->]];
          cbn [bind]; [apply Hf|discriminate|discriminate]. }
      destruct (chars src) as [|c r].
      - destruct (isNaN (parseFloat src)); [|discriminate].
        injection H as <-. split; reflexivity.
      - destruct c as [[] [] [] [] [] [] [] []];
          try (destruct (isNaN (parseFloat src)); [|discriminate];
               injection H as <-; split; reflexivity).
        exfalso. revert H. apply Hexp. intros v. discriminate. }
    destruct Hnan as [Hs Hnan]. split; [exact Hs|]. split; [exact Hnan|].
    rewrite parseFloat_NaN in Hnan. apply negb_true_iff in Hnan. exact Hnan.
Qed.

(** C10 at ["12abc"], at ["7 apples"] and at ["abc1"], which begins with
    no literal. *)
Lemma numeric_prefix_classifies_as_value_witness :
  parseCell (text (chars "12" ++ chars "abc")) =
    Return (ValueCell (ofZ (digitsToZ (chars "12"))) (text (chars "12" ++ chars "abc"))) /\
  parseCell "7 apples" = Return (ValueCell (parseFloat "7 apples") "7 apples") /\
  isNaN (parseFloat "abc1") = true /\
  startsLiteral (snd (unsigned (chars "abc1"))) = false.
Proof.
  destruct numeric_prefix_classifies_as_value as [_ [Hprefix [Hgen Honly]]].
  split; [apply Hprefix; [discriminate|reflexivity|reflexivity]|].
  split; [exact (Hgen "7 apples" eq_refl eq_refl)|].
  exact (proj2 (Honly "abc1" "abc1" eq_refl)).
Defined.

(** ** Further facts on the model *)

(** *** The reducer ends on every sequence *)

Lemma collapse_ends (tier : Tier) (fuel : nat) (cells : MathExp) :
  forall prepared,
    List.length prepared <= fuel -> collapse tier fuel cells prepared <> OutOfFuel.
Proof.
  induction fuel as [|fuel IH]; intros prepared Hlen.
  - destruct prepared; [discriminate|simpl in Hlen; lia].
  - rewrite collapse_unfold.
    destruct (findIndex (inTier tier) prepared) as [i|] eqn:Hi; [|discriminate].
    pose proof (findIndex_some_lt _ _ _ Hi) as Hlt.
    destruct i as [|j]; cbn [elementBefore]; [discriminate|].
    destruct (nth_error prepared j) as [t1|]; cbn [valueOf bind]; [|discriminate].
    destruct (nth_error prepared (S j + 1)) as [t2|] eqn:Ht2; cbn [valueOf bind];
      [|discriminate].
    destruct (nth_error prepared (S j)) as [t|]; cbn [valueOf bind]; [|discriminate].
    destruct (arith _ _ _) as [v|]; [|discriminate].
    destruct (isNaN v).
    + destruct (nth_error cells (S j)); discriminate.
    + apply IH.
      assert (Hlen2 : S j + 1 < List.length prepared)
        by (apply nth_error_Some; rewrite Ht2; discriminate).
      pose proof (splice3_length prepared (S j) (Value v) ltac:(lia) Hlen2). lia.
Qed.

Lemma calcMath_ends (cells : MathExp) : calcMath cells <> OutOfFuel.
Proof.
  unfold calcMath.
  pose proof (collapse_ends MulDiv (List.length cells) cells cells (le_n _)) as H1.
  destruct (collapse MulDiv (List.length cells) cells cells) as [p1|e| |];
    cbn [bind]; try discriminate; [|contradiction].
  pose proof (collapse_ends AddSub (List.length p1) cells p1 (le_n _)) as H2.
  destruct (collapse AddSub (List.length p1) cells p1) as [p2|e| |];
    cbn [bind]; try discriminate; [|contradiction].
  clear H1 H2.
  generalize (S754_zero false). induction p2 as [|t p2 IH]; intros acc; simpl.
  - discriminate.
  - destruct t; try discriminate. apply IH.
Qed.

(** *** The cells of a parsed grid *)

Lemma skipn_nth_error {A : Type} (l : list A) (n : nat) (a : A) :
  nth_error l n = Some a -> skipn n l = a :: skipn (S n) l.
Proof.
  revert l. induction n as [|n IH]; intros [|b l] H; try discriminate.
  - injection H as ->. reflexivity.
  - cbn [nth_error] in H. change (skipn (S n) (b :: l)) with (skipn n l).
    rewrite (IH l H). reflexivity.
Qed.

Lemma parseRow_cells (names : list string) (i : nat) (row : list string) :
  forall (idIndex : nat) (cells cells' : list Cell),
    parseRow names i idIndex row cells = Return cells' ->
    map identifier cells' =
      map identifier cells ++
      map (fun name => (name ++ decimal (i + 1))%string)
        (firstn (List.length row) (skipn idIndex names)) /\
    (map oid cells = seq 0 (List.length cells) ->
     map oid cells' = seq 0 (List.length cells')).
Proof.
  induction row as [|cellSrc row IH]; intros idIndex cells cells' H.
  - injection H as <-. cbn [List.length firstn map]. rewrite app_nil_r. auto.
  - cbn [parseRow] in H.
    destruct (nth_error names idIndex) as [name|] eqn:Hn; [|discriminate].
    destruct (parseCell cellSrc) as [c|e| |]; cbn [bind] in H; try discriminate.
    rewrite (skipn_nth_error _ _ _ Hn). cbn [List.length firstn map].
    assert (Hrec : parseRow names i (S idIndex) row
                     (cells ++ [mkCell (List.length cells) c (name ++ decimal (i + 1))])
                   = Return cells')
      by (destruct c; [exact H|discriminate|exact H]).
    destruct (IH _ _ _ Hrec) as [Hid Hoid]. split.
    + rewrite Hid, map_app, <- app_assoc. reflexivity.
    + intros Hc. apply Hoid.
      rewrite map_app, length_app, Hc. cbn [map oid List.length].
      rewrite Nat.add_1_r, seq_S. reflexivity.
Qed.

Lemma parseRows_cells (names : list string) (rows : list (list string)) :
  forall (i : nat) (cells cells' : list Cell),
    Forall (fun row => List.length row = List.length names) rows ->
    parseRows names i rows cells = Return cells' ->
    map identifier cells' = map identifier cells ++ rowIdentifiers names i rows /\
    (map oid cells = seq 0 (List.length cells) ->
     map oid cells' = seq 0 (List.length cells')).
Proof.
  induction rows as [|row rows IH]; intros i cells cells' Hrect H.
  - injection H as <-. cbn [rowIdentifiers]. rewrite app_nil_r. auto.
  - cbn [parseRows] in H.
    destruct (parseRow names i 0 row cells) as [cells1|e| |] eqn:Hrow;
      cbn [bind] in H; try discriminate.
    inversion Hrect as [|r rs Hr Hrs]; subst.
    destruct (parseRow_cells _ _ _ _ _ _ Hrow) as [Hid1 Hoid1].
    destruct (IH _ _ _ Hrs H) as [Hid Hoid]. split.
    + rewrite Hid, Hid1. cbn [rowIdentifiers skipn]. rewrite <- app_assoc. reflexivity.
    + intros Hc. apply Hoid, Hoid1, Hc.
Qed.

Lemma mapOutcome_length {A B : Type} (f : A -> Outcome B) (l : list A) (r : list B) :
  mapOutcome f l = Return r -> List.length r = List.length l.
Proof.
  revert r. induction l as [|a l IH]; intros r H.
  - injection H as <-. reflexivity.
  - cbn [mapOutcome] in H.
    destruct (f a) as [b|e| |]; cbn [bind] in H; try discriminate.
    destruct (mapOutcome f l) as [bs|e| |]; cbn [bind] in H; try discriminate.
    injection H as <-. cbn [List.length]. rewrite (IH bs eq_refl). reflexivity.
Qed.

Lemma identifierValues_length (header : list CellContent) (names : list string) :
  identifierValues header = Some names -> List.length names = List.length header.
Proof.
  revert names. induction header as [|c header IH]; intros names H.
  - injection H as <-. reflexivity.
  - destruct c as [v s|v s|v s]; try discriminate. cbn [identifierValues] in H.
    destruct (identifierValues header) as [ns|]; [|discriminate].
    injection H as <-. cbn [List.length]. rewrite (IH ns eq_refl). reflexivity.
Qed.

Lemma nodup_length_le (l : list string) :
  List.length (nodup string_dec l) <= List.length l.
Proof.
  induction l as [|a l IH]; [simpl; lia|].
  cbn [nodup]. destruct (in_dec string_dec a l); simpl; lia.
Qed.

(** The test on the size of the set of header values. *)
Lemma nodup_length_NoDup (l : list string) :
  List.length l = List.length (nodup string_dec l) -> NoDup l.
Proof.
  induction l as [|a l IH]; intros H; [constructor|].
  cbn [nodup] in H. pose proof (nodup_length_le l) as Hle.
  destruct (in_dec string_dec a l) as [Hin|Hin]; cbn [List.length] in H; [lia|].
  constructor; [exact Hin|]. apply IH. lia.
Qed.

(** The cells of a grid that parses are named, row by row, after the
    header value of their column and their row number counted from 1, and
    are pairwise distinct objects, numbered in order. *)
Lemma parseCells_cells (src : string) (cells : list Cell) (header : list CellContent) :
  parseCells src = Return (cells, header) ->
  cells = [] /\ header = [] \/
  exists names,
    identifierValues header = Some names /\
    NoDup names /\
    map identifier cells = rowIdentifiers names 0 (tl (cellsSrcOf src)) /\
    map oid cells = seq 0 (List.length cells).
Proof.
  unfold parseCells. destruct (cellsSrcOf src) as [|first rows] eqn:Hsrc.
  - intros H. injection H as <- <-. left. auto.
  - destruct (forallb _ (first :: rows)) eqn:Hrect; cbn [negb]; [|discriminate].
    destruct (mapOutcome parseCell first) as [hd|e| |] eqn:Hhd; cbn [bind];
      try discriminate.
    destruct (identifierValues hd) as [names|] eqn:Hnames; [|discriminate].
    destruct (Nat.eqb _ _) eqn:Hdup; cbn [negb]; [|discriminate].
    destruct (parseRows names 0 rows []) as [cs|e| |] eqn:Hrows; cbn [bind];
      try discriminate.
    intros H. injection H as <- <-. right. exists names.
    split; [exact Hnames|]. split.
    + apply nodup_length_NoDup. apply Nat.eqb_eq in Hdup. exact Hdup.
    + assert (Hr : Forall (fun row => List.length row = List.length names) rows).
      { cbn [forallb] in Hrect. apply andb_true_iff in Hrect as [_ Hrect].
        rewrite forallb_forall in Hrect. apply Forall_forall. intros row Hin.
        specialize (Hrect row Hin). apply Nat.eqb_eq in Hrect.
        rewrite Hrect, (identifierValues_length _ _ Hnames).
        symmetry. exact (mapOutcome_length _ _ _ Hhd). }
      destruct (parseRows_cells names rows 0 [] cs Hr Hrows) as [Hid Hoid].
      split; [exact Hid|]. apply Hoid. reflexivity.
Qed.

(** *** Evaluation from the empty trace, and on grids without cycles *)

(** A call that returns from the empty trace leaves the trace empty, so
    the calls the program makes one after the other, cell by cell, each
    start from the empty trace as long as none throws. *)
Lemma mapEval_resolve_empty (evalTarget : Cell -> list Cell -> Eval number)
  (cell : Cell) (cells : list Cell) (tokens prepared : MathExp) (after : list Cell) :
  mapEval (resolveToken evalTarget cell cells) tokens [] = (Return prepared, after) ->
  after = [].
Proof.
  revert prepared. induction tokens as [|t tokens IH]; intros prepared H.
  - injection H as _ <-. reflexivity.
  - rewrite mapEval_cons in H.
    assert (Hstep : forall r tr,
              resolveToken evalTarget cell cells t [] = (Return r, tr) -> tr = []).
    { intros r tr Ht. destruct t as [o|v|name].
      - injection Ht as _ <-. reflexivity.
      - injection Ht as _ <-. reflexivity.
      - rewrite resolveToken_ref in Ht.
        destruct (findCell name cells) as [targetCell|]; [|discriminate].
        destruct (evalTarget targetCell cells (entered cell [] targetCell))
          as [[v|e| |] tr']; try discriminate.
        injection Ht as _ <-. reflexivity. }
    destruct (resolveToken evalTarget cell cells t []) as [[r|e| |] tr];
      try discriminate.
    rewrite (Hstep r tr eq_refl) in H.
    destruct (mapEval (resolveToken evalTarget cell cells) tokens [])
      as [[rs|e| |] tr'] eqn:E; try discriminate.
    injection H as _ <-. exact (IH rs eq_refl).
Qed.

Lemma evalCell_returns_empty_trace (fuel : nat) (cell : Cell) (cells after : list Cell)
  (value : number) :
  evalCell fuel cell cells [] = (Return value, after) -> after = [].
Proof.
  destruct fuel as [|fuel]; [discriminate|].
  rewrite evalCell_unfold. cbn [cyclicTrace].
  destruct (content cell) as [v src|v src|tokens src]; try discriminate.
  - intros H. injection H as _ <-. reflexivity.
  - unfold bindEval.
    destruct (mapEval (resolveToken (evalCell fuel) cell cells) tokens [])
      as [[prepared|e| |] tr] eqn:E; try discriminate.
    apply mapEval_resolve_empty in E. subst tr.
    unfold lift. intros H. injection H as _ <-. reflexivity.
Qed.

Lemma mapEval_finished {A B : Type} (f : A -> Eval B) (l : list A) :
  (forall a tr, In a l -> finished (f a tr)) ->
  forall refTrace, finished (mapEval f l refTrace).
Proof.
  induction l as [|a l IH]; intros Hf refTrace.
  - discriminate.
  - rewrite mapEval_cons.
    pose proof (Hf a refTrace (or_introl eq_refl)) as Ha.
    destruct (f a refTrace) as [[b|e| |] tr]; try discriminate.
    + pose proof (IH (fun a' tr' Hin => Hf a' tr' (or_intror Hin)) tr) as Hl.
      destruct (mapEval f l tr) as [[bs|e| |] tr']; try discriminate.
      exfalso. apply Hl. reflexivity.
    + exfalso. apply Ha. reflexivity.
Qed.

(** On a grid whose references have no cycle the evaluation of every
    cell of the grid ends, from any trace, within a call-stack depth of
    one more than the rank of the cell. *)
Lemma ranked_evaluation_ends (rank : Cell -> nat) (cells : list Cell) :
  ranked rank cells ->
  forall (fuel : nat) (cell : Cell) (refTrace : list Cell),
    In cell cells -> rank cell < fuel ->
    finished (evalCell fuel cell cells refTrace).
Proof.
  intros Hrank. induction fuel as [|fuel IH]; intros cell refTrace Hcell Hlt; [lia|].
  rewrite evalCell_unfold.
  destruct (cyclicTrace refTrace); [discriminate|].
  destruct (content cell) as [v src|v src|tokens src] eqn:Hc; try discriminate.
  unfold bindEval.
  pose proof (mapEval_finished (resolveToken (evalCell fuel) cell cells) tokens) as Hm.
  assert (Hall : forall a tr, In a tokens ->
            finished (resolveToken (evalCell fuel) cell cells a tr)).
  { intros a tr Hin. destruct a as [o|v|name]; try discriminate.
    rewrite resolveToken_ref.
    destruct (findCell name cells) as [targetCell|] eqn:Hfind; [|discriminate].
    pose proof (Hrank cell targetCell tokens src name Hcell Hc Hin Hfind) as Hr.
    pose proof (proj1 (find_some _ _ Hfind)) as Htarget.
    pose proof (IH targetCell (entered cell tr targetCell) Htarget ltac:(lia)) as Ht.
    destruct (evalCell fuel targetCell cells (entered cell tr targetCell))
      as [[v|e| |] tr']; try discriminate.
    exfalso. apply Ht. reflexivity. }
  specialize (Hm Hall refTrace).
  destruct (mapEval (resolveToken (evalCell fuel) cell cells) tokens refTrace)
    as [[prepared|e| |] tr]; try discriminate.
  - unfold lift, finished. cbn [fst]. apply calcMath_ends.
  - exfalso. apply Hm. reflexivity.
Qed.

(** [sumGrid] is ranked by the position of its cells, so its two
    evaluations end within depth 2; and a cycle through the first cell of
    the trace is caught: in [pairGrid] the evaluation of [A1] throws with
    the chain A1, B1, A1. *)
Lemma ranked_and_root_cycle_examples :
  ranked oid [sumA1; sumB1] /\
  (forall refTrace : list Cell, finished (evalCell 2 sumB1 [sumA1; sumB1] refTrace)) /\
  parseCells pairGrid =
    Return ([pairA1; pairB1], [IdentifierCell "A" "A"; IdentifierCell "B" "B"]) /\
  forall fuel : nat,
    evalCell (S (S (S fuel))) pairA1 [pairA1; pairB1] [] =
      (Throw (CyclicReference ["A1"; "B1"; "A1"]), [pairA1; pairB1; pairA1]).
Proof.
  assert (Hranked : ranked oid [sumA1; sumB1]).
  { intros c targetCell tokens src name Hcell Hc Hin Hfind.
    destruct Hcell as [<-|[<-|[]]]; [discriminate|].
    injection Hc as <- _.
    destruct Hin as [H|[H|[H|[]]]]; try discriminate.
    injection H as <-. injection Hfind as <-. cbn [oid sumA1 sumB1]. lia. }
  split; [exact Hranked|].
  split; [|split; [vm_compute; reflexivity|intros fuel; reflexivity]].
  intros refTrace. apply (ranked_evaluation_ends oid _ Hranked).
  - right. left. reflexivity.
  - cbn [oid sumB1]. lia.
Qed.

(** * Further properties of the code *)

(** ** The reducer on infix sequences *)

Lemma flatOps_cons (o : MathOp) (v : number) (rest : list (MathOp * number)) :
  flatOps ((o, v) :: rest) = Operator o :: Value v :: flatOps rest.
Proof. reflexivity. Qed.

Lemma flatOps_length (rest : list (MathOp * number)) :
  List.length (flatOps rest) = 2 * List.length rest.
Proof.
  induction rest as [|[o v] rest IH]; [reflexivity|].
  rewrite flatOps_cons. cbn [List.length]. rewrite IH. lia.
Qed.

Lemma not_MulDiv_AddSub (o : MathOp) :
  isMulDiv o = false -> inTier AddSub (Operator o) = true /\ inTier MulDiv (Operator o) = false.
Proof. destruct o; simpl; intros H; try discriminate; split; reflexivity. Qed.

Lemma is_MulDiv_tier (o : MathOp) :
  isMulDiv o = true -> inTier MulDiv (Operator o) = true.
Proof. destruct o; simpl; intros H; try discriminate; reflexivity. Qed.

(** What [products] leaves is a sum: shorter than what it was given, and
    with no product or quotient in it. *)
Lemma products_chain (rest : list (MathOp * number)) :
  forall (acc term : number) (chain : list (MathOp * number)),
    products acc rest = Some (term, chain) ->
    List.length chain <= List.length rest /\
    Forall (fun p => isMulDiv (fst p) = false) chain.
Proof.
  induction rest as [|[o v] rest IH]; intros acc term chain H.
  - injection H as <- <-. split; [simpl; lia|constructor].
  - cbn [products] in H. destruct (isMulDiv o) eqn:Ho.
    + destruct (isNaN (evalOp o acc v)); [discriminate|].
      destruct (IH _ _ _ H) as [Hl Hf]. split; [simpl; lia|exact Hf].
    + destruct (products v rest) as [[t c]|] eqn:E; [|discriminate].
      injection H as <- <-. destruct (IH _ _ _ E) as [Hl Hf].
      split; [simpl; lia|]. constructor; [exact Ho|exact Hf].
Qed.

(** The first pass on an infix sequence, behind a prefix it has already
    gone through. *)
Lemma collapse_products (rest : list (MathOp * number)) :
  forall (fuel : nat) (cells pre : MathExp) (acc : number),
    findIndex (inTier MulDiv) pre = None ->
    List.length (pre ++ Value acc :: flatOps rest) <= fuel ->
    List.length (pre ++ Value acc :: flatOps rest) <= List.length cells ->
    match products acc rest with
    | Some (term, chain) =>
        collapse MulDiv fuel cells (pre ++ Value acc :: flatOps rest) =
          Return (pre ++ Value term :: flatOps chain)
    | None =>
        exists a s b,
          collapse MulDiv fuel cells (pre ++ Value acc :: flatOps rest) =
            Throw (CantEvaluate (Num a) s (Num b))
    end.
Proof.
  induction rest as [|[o v] rest IH]; intros fuel cells pre acc Hpre Hfuel Hcells.
  - cbn [products flatOps flat_map]. apply collapse_no_tier.
    rewrite findIndex_app_none by exact Hpre. reflexivity.
  - cbn [products]. rewrite flatOps_cons in *.
    destruct (isMulDiv o) eqn:Ho.
    + rewrite length_app in Hfuel, Hcells. cbn [List.length] in Hfuel, Hcells.
      destruct fuel as [|fuel]; [lia|].
      rewrite (collapse_step MulDiv fuel cells pre (flatOps rest) acc v o Hpre
                 (is_MulDiv_tier o Ho)).
      destruct (isNaN (evalOp o acc v)).
      * destruct (nth_error cells (S (List.length pre))) as [t|] eqn:Ht.
        -- exists acc, (tokenValue t), v. reflexivity.
        -- apply nth_error_None in Ht. lia.
      * apply IH; [exact Hpre| |]; rewrite length_app; cbn [List.length]; lia.
    + destruct (not_MulDiv_AddSub o Ho) as [_ Hno].
      assert (Hpre' : findIndex (inTier MulDiv) (pre ++ [Value acc; Operator o]) = None).
      { rewrite findIndex_app_none by exact Hpre.
        destruct o; try discriminate Ho; reflexivity. }
      assert (Happ : forall x l,
                pre ++ Value acc :: Operator o :: Value x :: l =
                (pre ++ [Value acc; Operator o]) ++ Value x :: l)
        by (intros; rewrite <- app_assoc; reflexivity).
      rewrite Happ in Hfuel, Hcells |- *.
      specialize (IH fuel cells (pre ++ [Value acc; Operator o]) v Hpre' Hfuel Hcells).
      destruct (products v rest) as [[term chain]|].
      * rewrite IH, <- app_assoc. reflexivity.
      * exact IH.
Qed.

(** The second pass on a sum. *)
Lemma collapse_sums (chain : list (MathOp * number)) :
  forall (fuel : nat) (cells : MathExp) (acc : number),
    Forall (fun p => isMulDiv (fst p) = false) chain ->
    List.length (Value acc :: flatOps chain) <= fuel ->
    List.length (Value acc :: flatOps chain) <= List.length cells ->
    match sums acc chain with
    | Some r => collapse AddSub fuel cells (Value acc :: flatOps chain) = Return [Value r]
    | None =>
        exists a s b,
          collapse AddSub fuel cells (Value acc :: flatOps chain) =
            Throw (CantEvaluate (Num a) s (Num b))
    end.
Proof.
  induction chain as [|[o t] chain IH]; intros fuel cells acc Hall Hfuel Hcells.
  - cbn [sums flatOps flat_map]. apply collapse_no_tier. reflexivity.
  - cbn [sums]. rewrite flatOps_cons in *. cbn [List.length] in Hfuel, Hcells.
    inversion Hall as [|p ps Ho Hrest]; subst. cbn [fst] in Ho.
    destruct (not_MulDiv_AddSub o Ho) as [Hin _].
    destruct fuel as [|fuel]; [lia|].
    pose proof (collapse_step AddSub fuel cells [] (flatOps chain) acc t o eq_refl Hin)
      as Hstep.
    cbn [app List.length] in Hstep. rewrite Hstep.
    destruct (isNaN (evalOp o acc t)).
    + destruct (nth_error cells 1) as [x|] eqn:Hx.
      * exists acc, (tokenValue x), t. reflexivity.
      * apply nth_error_None in Hx. lia.
    + apply IH; [exact Hrest| |]; cbn [List.length]; lia.
Qed.

(** Adding a number onto the 0 of the final fold gives it back, except
    that negative zero comes out as zero. *)
Lemma add_zero_l (v : number) :
  add zero v = match v with S754_zero true => zero | _ => v end.
Proof. destruct v as [[]|[]| |[] m e]; reflexivity. Qed.

(** X1. On the tokens of an infix sequence of numbers the reducer follows
    the usual precedence: it returns the value obtained by taking the
    products and quotients from the left and then the sums and differences
    from the left (added onto the 0 of the final fold, which only turns
    negative zero into zero), and when a partial result is NaN it throws
    the arithmetic error, with numbers as operands.  It never fails
    otherwise on such a sequence. *)
Theorem reducer_follows_precedence (first : number) (rest : list (MathOp * number)) :
  match precedenceValue first rest with
  | Some r =>
      calcMath (infixTokens first rest) =
        Return (match r with S754_zero true => zero | _ => r end)
  | None =>
      exists a s b,
        calcMath (infixTokens first rest) = Throw (CantEvaluate (Num a) s (Num b))
  end.
Proof.
  unfold precedenceValue, calcMath, infixTokens.
  pose proof (collapse_products rest (List.length (Value first :: flatOps rest))
                (Value first :: flatOps rest) [] first eq_refl (le_n _) (le_n _)) as H1.
  cbn [app] in H1.
  destruct (products first rest) as [[term chain]|] eqn:Hp.
  - rewrite H1. cbn [bind].
    destruct (products_chain rest first term chain Hp) as [Hlen Hall].
    pose proof (collapse_sums chain (List.length (Value term :: flatOps chain))
                  (Value first :: flatOps rest) term Hall (le_n _)) as H2.
    assert (Hle : List.length (Value term :: flatOps chain) <=
                  List.length (Value first :: flatOps rest))
      by (cbn [List.length]; rewrite !flatOps_length; lia).
    specialize (H2 Hle).
    destruct (sums term chain) as [r|].
    + rewrite H2. cbn [bind sumValues]. rewrite add_zero_l. reflexivity.
    + destruct H2 as [a [s [b H2]]]. exists a, s, b. rewrite H2. reflexivity.
  - destruct H1 as [a [s [b H1]]]. exists a, s, b. rewrite H1. reflexivity.
Qed.

(** ** The tokenizer *)


Lemma span_fst_all (p : ascii -> bool) (l : list ascii) :
  forallb p (fst (span p l)) = true.
Proof.
  induction l as [|c l IH]; [reflexivity|].
  cbn [span]. destruct (p c) eqn:E; [|reflexivity].
  destruct (span p l) as [a b]. cbn [fst forallb] in *. rewrite E, IH. reflexivity.
Qed.


Lemma tokenize_well_formed (fuel : nat) :
  forall (l : list ascii) (tokens r : MathExp),
    forallb wellFormedToken tokens = true ->
    tokenize fuel l tokens = Return r ->
    forallb wellFormedToken r = true.
Proof.
  induction fuel as [|fuel IH]; intros l tokens r Hacc H.
  - destruct l; [|discriminate]. injection H as <-. exact Hacc.
  - destruct l as [|c l]; [injection H as <-; exact Hacc|].
    cbn [tokenize] in H.
    assert (Hpush : forall t, wellFormedToken t = true ->
              forallb wellFormedToken (tokens ++ [t]) = true).
    { intros t Ht. rewrite forallb_app, Hacc. cbn [forallb]. rewrite Ht. reflexivity. }
    destruct (isSpace c); [exact (IH _ _ _ Hacc H)|].
    destruct (isNumberStart c).
    + destruct (span isNumberPart l) as [more rest].
      destruct (String.eqb _ "-");
        [exact (IH _ _ _ (Hpush (Operator Minus) eq_refl) H)|].
      destruct (isNaN (parseFloat (text (c :: more)))) eqn:En; [discriminate|].
      refine (IH _ _ _ (Hpush _ _) H). cbn [wellFormedToken]. rewrite En. reflexivity.
    + destruct (operatorOf c) as [o|];
        [exact (IH _ _ _ (Hpush (Operator o) eq_refl) H)|].
      destruct (isAlpha c) eqn:Ea; [|exact (IH _ _ _ Hacc H)].
      pose proof (span_fst_all isRefPart l) as Hs.
      destruct (span isRefPart l) as [more rest]. cbn [fst] in Hs.
      refine (IH _ _ _ (Hpush _ _) H).
      cbn [wellFormedToken]. rewrite chars_text, Ea, Hs. reflexivity.
Qed.

(** X2. Every token the tokenizer returns is well formed: no Value token
    holds NaN, and the name of every Ref token begins with a letter and
    goes on with letters and digits only. *)
Theorem tokenizer_returns_well_formed_tokens (src : string) (tokens : MathExp) :
  parseMathExp src = Return tokens -> forallb wellFormedToken tokens = true.
Proof.
  unfold parseMathExp. destruct (chars src) as [|c rest]; [discriminate|].
  destruct c as [[] [] [] [] [] [] [] []]; try discriminate.
  apply tokenize_well_formed. reflexivity.
Qed.

(** X2 at the formula ["=Ab1*2.5-x"]. *)
Lemma tokenizer_returns_well_formed_tokens_witness :
  parseMathExp "=Ab1*2.5-x" =
    Return [Ref "Ab1"; Operator Times; Value (ofDecimal false 25 (-1));
            Operator Minus; Ref "x"] /\
  forallb wellFormedToken
    [Ref "Ab1"; Operator Times; Value (ofDecimal false 25 (-1)); Operator Minus; Ref "x"]
  = true.
Proof.
  split; [vm_compute; reflexivity|].
  apply (tokenizer_returns_well_formed_tokens "=Ab1*2.5-x"). vm_compute. reflexivity.
Defined.

(** The text of a literal the tokenizer gives up on is one [parseFloat]
    reads as NaN. *)
Lemma tokenize_errors (fuel : nat) :
  forall (l : list ascii) (tokens : MathExp),
    List.length l <= fuel ->
    (exists r, tokenize fuel l tokens = Return r) \/
    (exists numRaw,
       tokenize fuel l tokens = Throw (InvalidNumberLiteral numRaw) /\
       isNaN (parseFloat numRaw) = true).
Proof.
  induction fuel as [|fuel IH]; intros l tokens Hlen.
  - destruct l; [left; eexists; reflexivity|simpl in Hlen; lia].
  - destruct l as [|c l]; [left; eexists; reflexivity|].
    cbn [tokenize]. simpl in Hlen.
    destruct (isSpace c); [apply IH; lia|].
    destruct (isNumberStart c).
    + pose proof (span_length isNumberPart l) as Hs.
      destruct (span isNumberPart l) as [more rest]. cbn [snd] in Hs.
      destruct (String.eqb _ "-"); [apply IH; lia|].
      destruct (isNaN _) eqn:En; [right; eexists; split; [reflexivity|exact En]|apply IH; lia].
    + destruct (operatorOf c); [apply IH; lia|].
      destruct (isAlpha c); [|apply IH; lia].
      pose proof (span_length isRefPart l) as Hs.
      destruct (span isRefPart l) as [more rest]. cbn [snd] in Hs.
      apply IH. lia.
Qed.





(** ** The classifier *)

(** Everything the classifier does, by the shape of the text. *)
Lemma parseCell_outcome (src : string) :
  match parseCell src with
  | Return (IdentifierCell v s) => v = src /\ s = src /\ isAlphaString src = true
  | Return (ExpressionCell tokens s) =>
      s = src /\ isAlphaString src = false /\
      startsWith ["="%char] (chars src) = true /\
      parseMathExp src = Return tokens
  | Return (ValueCell v s) =>
      s = src /\ isAlphaString src = false /\
      startsWith ["="%char] (chars src) = false /\
      v = parseFloat src /\ isNaN v = false
  | Throw e =>
      isAlphaString src = false /\
      (e = InvalidCellValue src /\ startsWith ["="%char] (chars src) = false /\
       isNaN (parseFloat src) = true \/
       exists numRaw,
         e = InvalidNumberLiteral numRaw /\ startsWith ["="%char] (chars src) = true /\
         isNaN (parseFloat numRaw) = true)
  | Uncovered => False
  | OutOfFuel => False
  end.
Proof.
  unfold parseCell. destruct (isAlphaString src) eqn:Ha; [auto|].
  destruct (chars src) as [|c r] eqn:Hc.
  - destruct (isNaN (parseFloat src)) eqn:En; cbn [negb]; auto 10.
  - destruct (Ascii.eqb c "=") eqn:Heq.
    + apply Ascii.eqb_eq in Heq. subst c. cbv iota.
      assert (Hp : parseMathExp src = tokenize (List.length r) r [])
        by (unfold parseMathExp; rewrite Hc; reflexivity).
      rewrite Hp.
      destruct (tokenize_errors (List.length r) r [] (le_n _)) as [[t Ht]|[n [Hn Hnan]]].
      * rewrite Ht. cbn [bind]. auto.
      * rewrite Hn. cbn [bind]. split; [reflexivity|]. right. exists n. auto.
    + destruct c as [[] [] [] [] [] [] [] []]; try discriminate Heq;
        destruct (isNaN (parseFloat src)) eqn:En; cbn [negb]; auto 10.
Qed.

(** X4. The classifier decides by the shape of the text and keeps the
    text.  What it returns is an Identifier exactly for a text of letters,
    and then the name is the text; an Expression only for a text that
    begins with [=], with the tokens of the text; a Value only otherwise,
    with the number [parseFloat] reads, never NaN.  It throws only the
    invalid-cell error, on a text that is no formula and reads as NaN, or
    the tokenizer's invalid-literal error, on a formula; never the
    tokenizer's missing-[=] error. *)
Theorem classifier_decides_by_shape (src : string) :
  (forall c, parseCell src = Return c ->
     contentSrc c = src /\
     (isIdentifierCell c = isAlphaString src) /\
     match c with
     | IdentifierCell v _ => v = src
     | ExpressionCell tokens _ =>
         startsWith ["="%char] (chars src) = true /\ parseMathExp src = Return tokens
     | ValueCell v _ =>
         startsWith ["="%char] (chars src) = false /\
         v = parseFloat src /\ isNaN v = false
     end) /\
  (isAlphaString src = true -> parseCell src = Return (IdentifierCell src src)) /\
  (forall e, parseCell src = Throw e ->
     e = InvalidCellValue src /\ startsWith ["="%char] (chars src) = false /\
     isNaN (parseFloat src) = true \/
     exists numRaw,
       e = InvalidNumberLiteral numRaw /\ startsWith ["="%char] (chars src) = true) /\
  parseCell src <> OutOfFuel /\ parseCell src <> Uncovered.
Proof.
  pose proof (parseCell_outcome src) as H.
  split; [|split; [|split; [|split]]].
  - intros c Hc. rewrite Hc in H. destruct c as [v s|v s|tokens s]; cbn [contentSrc isIdentifierCell].
    + destruct H as [-> [Ha [He [-> Hn]]]]. rewrite Ha. auto.
    + destruct H as [-> [-> Ha]]. rewrite Ha. auto.
    + destruct H as [-> [Ha [He Ht]]]. rewrite Ha. auto.
  - intros Ha. unfold parseCell. rewrite Ha. reflexivity.
  - intros e He. rewrite He in H. destruct H as [_ [H|[n [H1 [H2 _]]]]]; eauto.
  - intros E. rewrite E in H. exact H.
  - intros E. rewrite E in H. exact H.
Qed.

(** ** The grid parser *)

Lemma mapOutcome_parseCell (l : list string) :
  match mapOutcome parseCell l with
  | Return header => List.length header = List.length l
  | Throw e => isParseError e = true
  | Uncovered => False
  | OutOfFuel => False
  end.
Proof.
  induction l as [|src l IH]; [reflexivity|].
  cbn [mapOutcome]. pose proof (parseCell_outcome src) as H.
  destruct (parseCell src) as [c|e| |]; cbn [bind]; try contradiction.
  - destruct (mapOutcome parseCell l) as [cs|e| |]; cbn [bind]; try contradiction.
    + cbn [List.length]. rewrite IH. reflexivity.
    + exact IH.
  - destruct H as [_ [[-> _]|[n [-> _]]]]; reflexivity.
Qed.

(** One row that is no longer than what is left of the header. *)
Lemma parseRow_outcome (names : list string) (i : nat) (row : list string) :
  forall (idIndex : nat) (cells : list Cell),
    idIndex + List.length row <= List.length names ->
    Forall (fun c => isIdentifierCell (content c) = false) cells ->
    match parseRow names i idIndex row cells with
    | Return cells' =>
        List.length cells' = List.length cells + List.length row /\
        Forall (fun c => isIdentifierCell (content c) = false) cells'
    | Throw e => isParseError e = true
    | Uncovered => False
    | OutOfFuel => False
    end.
Proof.
  induction row as [|cellSrc row IH]; intros idIndex cells Hlen Hall.
  - cbn [parseRow List.length]. split; [lia|exact Hall].
  - cbn [parseRow]. cbn [List.length] in Hlen.
    destruct (nth_error names idIndex) as [name|] eqn:Hn;
      [|apply nth_error_None in Hn; lia].
    pose proof (parseCell_outcome cellSrc) as Hc.
    destruct (parseCell cellSrc) as [c|e| |]; cbn [bind]; try contradiction.
    + assert (Hstep : forall c', isIdentifierCell c' = false ->
                match parseRow names i (S idIndex) row
                        (cells ++ [mkCell (List.length cells) c' (name ++ decimal (i + 1))]) with
                | Return cells' =>
                    List.length cells' = List.length cells + S (List.length row) /\
                    Forall (fun c => isIdentifierCell (content c) = false) cells'
                | Throw e => isParseError e = true
                | Uncovered => False
                | OutOfFuel => False
                end).
      { intros c' Hc'.
        specialize (IH (S idIndex)
                      (cells ++ [mkCell (List.length cells) c' (name ++ decimal (i + 1))])
                      ltac:(lia)).
        destruct (parseRow names i (S idIndex) row _) as [cells'|e| |];
          try (apply IH; apply Forall_app; split; [exact Hall|repeat constructor; exact Hc']).
        destruct IH as [Hl Hf];
          [apply Forall_app; split; [exact Hall|repeat constructor; exact Hc']|].
        split; [|exact Hf]. rewrite Hl, length_app. cbn [List.length]. lia. }
      destruct c as [v s|v s|tokens s]; [apply Hstep|reflexivity|apply Hstep]; reflexivity.
    + destruct Hc as [_ [[-> _]|[n [-> _]]]]; reflexivity.
Qed.

Lemma parseRows_outcome (names : list string) (rows : list (list string)) :
  forall (i : nat) (cells : list Cell),
    Forall (fun row => List.length row = List.length names) rows ->
    Forall (fun c => isIdentifierCell (content c) = false) cells ->
    match parseRows names i rows cells with
    | Return cells' =>
        List.length cells' = List.length cells + List.length names * List.length rows /\
        Forall (fun c => isIdentifierCell (content c) = false) cells'
    | Throw e => isParseError e = true
    | Uncovered => False
    | OutOfFuel => False
    end.
Proof.
  induction rows as [|row rows IH]; intros i cells Hrect Hall.
  - cbn [parseRows List.length]. split; [lia|exact Hall].
  - cbn [parseRows]. inversion Hrect as [|r rs Hr Hrs]; subst.
    pose proof (parseRow_outcome names i row 0 cells ltac:(lia) Hall) as H1.
    destruct (parseRow names i 0 row cells) as [cells1|e| |]; cbn [bind]; try contradiction.
    + destruct H1 as [Hl1 Hf1]. specialize (IH (S i) cells1 Hrs Hf1).
      destruct (parseRows names (S i) rows cells1) as [cells'|e| |]; try exact IH.
      destruct IH as [Hl Hf]. split; [|exact Hf].
      rewrite Hl, Hl1, Hr. cbn [List.length]. lia.
    + exact H1.
Qed.

Lemma identifierValues_all (header : list CellContent) (names : list string) :
  identifierValues header = Some names -> forallb isIdentifierCell header = true.
Proof.
  revert names. induction header as [|c header IH]; intros names H; [reflexivity|].
  destruct c as [v s|v s|v s]; try discriminate. cbn [identifierValues] in H.
  destruct (identifierValues header) as [ns|]; [|discriminate].
  cbn [forallb isIdentifierCell]. rewrite (IH ns eq_refl). reflexivity.
Qed.

(** The rows of a source that passed the test on their lengths are as
    long as the header. *)
Lemma rectangular_rows (first : list string) (rows : list (list string))
  (header : list CellContent) (names : list string) :
  forallb (fun row => Nat.eqb (List.length row) (List.length first)) (first :: rows) = true ->
  mapOutcome parseCell first = Return header ->
  identifierValues header = Some names ->
  Forall (fun row => List.length row = List.length names) rows.
Proof.
  intros Hrect Hhd Hnames.
  cbn [forallb] in Hrect. apply andb_true_iff in Hrect as [_ Hrect].
  rewrite forallb_forall in Hrect. apply Forall_forall. intros row Hin.
  specialize (Hrect row Hin). apply Nat.eqb_eq in Hrect.
  rewrite Hrect, (identifierValues_length _ _ Hnames).
  symmetry. exact (mapOutcome_length _ _ _ Hhd).
Qed.

(** X5. The grid parser ends on every source, with the grid or with one
    of six errors: a ragged grid, a header cell that is no identifier, a
    repeated header name, an identifier in a data row, or a cell the
    classifier or the tokenizer refuses.  The test on the lengths of the
    rows keeps every field under a header cell, so the runtime's
    [TypeError] never arises. *)
Theorem grid_parser_outcomes (src : string) :
  match parseCells src with
  | Return _ => True
  | Throw e => isParseError e = true
  | Uncovered => False
  | OutOfFuel => False
  end.
Proof.
  unfold parseCells. destruct (cellsSrcOf src) as [|first rows]; [exact I|].
  destruct (forallb _ (first :: rows)) eqn:Hrect; cbn [negb]; [|reflexivity].
  pose proof (mapOutcome_parseCell first) as Hh.
  destruct (mapOutcome parseCell first) as [header|e| |] eqn:Hhd; cbn [bind];
    try contradiction; [|exact Hh].
  destruct (identifierValues header) as [names|] eqn:Hnames; [|reflexivity].
  destruct (Nat.eqb _ _); cbn [negb]; [|reflexivity].
  pose proof (parseRows_outcome names rows 0 []
                (rectangular_rows _ _ _ _ Hrect Hhd Hnames) (Forall_nil _)) as Hr.
  destruct (parseRows names 0 rows []) as [cells|e| |]; cbn [bind]; try contradiction.
  - exact I.
  - exact Hr.
Qed.

(** X6. The grid a source parses to is rectangular and sorted by kind:
    every header cell is an Identifier and no two have the same name, no
    cell of a data row is an Identifier, there are as many cells as header
    cells times data rows, and the cells are pairwise distinct objects. *)
Theorem parsed_grid_shape (src : string) (cells : list Cell) (header : list CellContent) :
  parseCells src = Return (cells, header) ->
  forallb isIdentifierCell header = true /\
  (exists names, identifierValues header = Some names /\ NoDup names) /\
  Forall (fun c => isIdentifierCell (content c) = false) cells /\
  List.length cells = List.length header * List.length (tl (cellsSrcOf src)) /\
  List.length header = List.length (hd [] (cellsSrcOf src)) /\
  NoDup (map oid cells).
Proof.
  intros H. pose proof (parseCells_cells src cells header H) as Hcells.
  unfold parseCells in H. destruct (cellsSrcOf src) as [|first rows].
  - injection H as <- <-. repeat split; try constructor.
    exists []. split; [reflexivity|constructor].
  - destruct Hcells as [[-> ->]|[names [Hnames [Hnd [_ Hoid]]]]].
    + destruct (forallb _ (first :: rows)); cbn [negb] in H; [|discriminate].
      destruct (mapOutcome parseCell first) as [hd0|e| |] eqn:Hhd; cbn [bind] in H;
        try discriminate.
      destruct (identifierValues hd0) as [ns|] eqn:Hns; [|discriminate].
      destruct (Nat.eqb _ _); cbn [negb] in H; [|discriminate].
      destruct (parseRows ns 0 rows []) as [cs|e| |]; cbn [bind] in H; try discriminate.
      injection H as _ ->.
      pose proof (mapOutcome_length _ _ _ Hhd) as Hl.
      destruct first; [|discriminate Hl].
      repeat split; try constructor. exists []. split; [reflexivity|constructor].
    + destruct (forallb _ (first :: rows)) eqn:Hrect; cbn [negb] in H; [|discriminate].
      destruct (mapOutcome parseCell first) as [hd0|e| |] eqn:Hhd; cbn [bind] in H;
        try discriminate.
      destruct (identifierValues hd0) as [ns|] eqn:Hns; [|discriminate].
      destruct (Nat.eqb _ _); cbn [negb] in H; [|discriminate].
      pose proof (parseRows_outcome ns rows 0 []
                    (rectangular_rows _ _ _ _ Hrect Hhd Hns) (Forall_nil _)) as Hr.
      destruct (parseRows ns 0 rows []) as [cs|e| |]; cbn [bind] in H; try discriminate.
      injection H as <- <-. destruct Hr as [Hlen Hkind].
      split; [exact (identifierValues_all _ _ Hns)|].
      split; [exists names; auto|].
      split; [exact Hkind|].
      split; [cbn [tl]; rewrite Hlen, (identifierValues_length _ _ Hns); reflexivity|].
      split; [exact (mapOutcome_length _ _ _ Hhd)|].
      rewrite Hoid. apply seq_NoDup.
Qed.

(** X6 at the grid of header [A,B] and data row [1,=A1+1]. *)
Lemma parsed_grid_shape_witness :
  forallb isIdentifierCell [IdentifierCell "A" "A"; IdentifierCell "B" "B"] = true /\
  List.length [sumA1; sumB1] = 2 * 1.
Proof.
  destruct (parsed_grid_shape sumGrid [sumA1; sumB1]
              [IdentifierCell "A" "A"; IdentifierCell "B" "B"])
    as [H1 [_ [_ [H2 _]]]]; [vm_compute; reflexivity|].
  split; [exact H1|exact H2].
Defined.

(** *** What a parsed grid is made of *)

Lemma cellsSrcOf_rows_nonempty (src : string) :
  Forall (fun row => row <> []) (cellsSrcOf src).
Proof.
  unfold cellsSrcOf. apply Forall_map.
  apply Forall_forall. intros row Hin. apply filter_In in Hin as [_ Hne].
  destruct row; [discriminate Hne|]. discriminate.
Qed.

Lemma parseCells_inv (src : string) (cells : list Cell) (header : list CellContent) :
  parseCells src = Return (cells, header) ->
  cellsSrcOf src = [] /\ cells = [] /\ header = [] \/
  exists first rows names,
    cellsSrcOf src = first :: rows /\ first <> [] /\
    mapOutcome parseCell first = Return header /\
    identifierValues header = Some names /\
    NoDup names /\
    Forall (fun row => List.length row = List.length names) rows /\
    parseRows names 0 rows [] = Return cells.
Proof.
  unfold parseCells. pose proof (cellsSrcOf_rows_nonempty src) as Hne.
  destruct (cellsSrcOf src) as [|first rows].
  - intros H. injection H as <- <-. left. auto.
  - destruct (forallb _ (first :: rows)) eqn:Hrect; cbn [negb]; [|discriminate].
    destruct (mapOutcome parseCell first) as [hd0|e| |] eqn:Hhd; cbn [bind];
      try discriminate.
    destruct (identifierValues hd0) as [names|] eqn:Hnames; [|discriminate].
    destruct (Nat.eqb _ _) eqn:Hdup; cbn [negb]; [|discriminate].
    destruct (parseRows names 0 rows []) as [cs|e| |] eqn:Hrows; cbn [bind];
      try discriminate.
    intros H. injection H as <- <-. right. exists first, rows, names.
    inversion Hne; subst.
    repeat split; auto.
    + apply nodup_length_NoDup. apply Nat.eqb_eq in Hdup. exact Hdup.
    + exact (rectangular_rows _ _ _ _ Hrect Hhd Hnames).
Qed.

(** The header names of a grid are texts of letters. *)
Lemma header_names_alpha (first : list string) :
  forall (header : list CellContent) (names : list string),
    mapOutcome parseCell first = Return header ->
    identifierValues header = Some names ->
    Forall (fun name => isAlphaString name = true) names.
Proof.
  induction first as [|src first IH]; intros header names Hh Hn.
  - injection Hh as <-. injection Hn as <-. constructor.
  - cbn [mapOutcome] in Hh. pose proof (parseCell_outcome src) as Hc.
    destruct (parseCell src) as [c|e| |]; cbn [bind] in Hh; try discriminate.
    destruct (mapOutcome parseCell first) as [cs|e| |]; cbn [bind] in Hh; try discriminate.
    injection Hh as <-. destruct c as [v s|v s|v s]; try discriminate Hn.
    cbn [identifierValues] in Hn.
    destruct (identifierValues cs) as [ns|] eqn:E; [|discriminate].
    injection Hn as <-. destruct Hc as [-> [_ Ha]].
    constructor; [exact Ha|]. exact (IH cs ns eq_refl E).
Qed.

(** *** Row numbers as text *)

Lemma chars_append (a b : string) : chars (a ++ b)%string = chars a ++ chars b.
Proof.
  unfold chars. induction a as [|c a IH]; [reflexivity|].
  cbn [String.append list_ascii_of_string app]. rewrite IH. reflexivity.
Qed.

Lemma chars_inj (a b : string) : chars a = chars b -> a = b.
Proof.
  intros H. rewrite <- (string_of_list_ascii_of_string a), <- (string_of_list_ascii_of_string b).
  unfold chars in H. rewrite H. reflexivity.
Qed.

Lemma text_chars (s : string) : text (chars s) = s.
Proof. apply string_of_list_ascii_of_string. Qed.

Lemma uint_digits (d : Decimal.uint) :
  forallb isDigit (chars (NilEmpty.string_of_uint d)) = true.
Proof. induction d; cbn [NilEmpty.string_of_uint chars list_ascii_of_string forallb];
  [reflexivity|..]; unfold chars in *; rewrite IHd; reflexivity. Qed.

Lemma decimal_digits (n : nat) : forallb isDigit (chars (decimal n)) = true.
Proof.
  unfold decimal, NilZero.string_of_uint.
  destruct (Nat.to_uint n) eqn:E; try reflexivity; rewrite <- E; apply uint_digits.
Qed.

Lemma decimal_nonempty (n : nat) : chars (decimal n) <> [].
Proof.
  unfold decimal, NilZero.string_of_uint.
  destruct (Nat.to_uint n); discriminate.
Qed.

Lemma decimal_inj (n m : nat) : decimal n = decimal m -> n = m.
Proof.
  intros H.
  assert (Hval : forall k,
            option_map Nat.of_uint (NilZero.uint_of_string (decimal k)) = Some k).
  { intros k. unfold decimal. pose proof (Unsigned.of_to k) as Hk.
    destruct (Nat.to_uint k) eqn:E;
      try (rewrite NilZero.usu by discriminate; cbn [option_map]; rewrite Hk; reflexivity).
    rewrite NilZero.usu_nil. cbn [option_map]. rewrite <- Hk. reflexivity. }
  pose proof (Hval n) as Hn. rewrite H, Hval in Hn. injection Hn as ->. reflexivity.
Qed.

Lemma alpha_not_digit (c : ascii) : isAlpha c = true -> isDigit c = false.
Proof. destruct c as [[] [] [] [] [] [] [] []]; intros H; try discriminate H; reflexivity. Qed.

(** Letters followed by digits split in one way only. *)
Lemma letters_digits_split (a1 a2 d1 d2 : list ascii) :
  forallb isAlpha a1 = true -> forallb isAlpha a2 = true ->
  forallb isDigit d1 = true -> forallb isDigit d2 = true ->
  a1 ++ d1 = a2 ++ d2 -> a1 = a2 /\ d1 = d2.
Proof.
  revert a2. induction a1 as [|c a1 IH]; intros a2 H1 H2 Hd1 Hd2 H.
  - destruct a2 as [|c a2]; [auto|]. exfalso.
    cbn [app] in H. subst d1. cbn [forallb] in H2, Hd1.
    apply andb_true_iff in H2 as [Hc _]. apply andb_true_iff in Hd1 as [Hc' _].
    rewrite (alpha_not_digit c Hc) in Hc'. discriminate.
  - destruct a2 as [|c2 a2].
    + exfalso. cbn [app] in H. subst d2. cbn [forallb] in H1, Hd2.
      apply andb_true_iff in H1 as [Hc _]. apply andb_true_iff in Hd2 as [Hc' _].
      rewrite (alpha_not_digit c Hc) in Hc'. discriminate.
    + cbn [app] in H. injection H as -> H. cbn [forallb] in H1, H2.
      apply andb_true_iff in H1 as [_ H1]. apply andb_true_iff in H2 as [_ H2].
      destruct (IH a2 H1 H2 Hd1 Hd2 H) as [-> ->]. auto.
Qed.

Lemma alpha_string_chars (name : string) :
  isAlphaString name = true -> forallb isAlpha (chars name) = true.
Proof. unfold isAlphaString. destruct (chars name); [discriminate|auto]. Qed.

(** A column name and a row number make one identifier only. *)
Lemma identifier_inj (n1 n2 : string) (k1 k2 : nat) :
  isAlphaString n1 = true -> isAlphaString n2 = true ->
  (n1 ++ decimal k1)%string = (n2 ++ decimal k2)%string ->
  n1 = n2 /\ k1 = k2.
Proof.
  intros H1 H2 H. apply (f_equal chars) in H. rewrite !chars_append in H.
  destruct (letters_digits_split _ _ _ _ (alpha_string_chars _ H1) (alpha_string_chars _ H2)
              (decimal_digits k1) (decimal_digits k2) H) as [Ha Hd].
  split; [exact (chars_inj _ _ Ha)|exact (decimal_inj _ _ (chars_inj _ _ Hd))].
Qed.

Lemma In_rowIdentifiers (names : list string) (rows : list (list string)) :
  forall (i : nat) (x : string),
    In x (rowIdentifiers names i rows) ->
    exists name k, In name names /\ i <= k /\ x = (name ++ decimal (k + 1))%string.
Proof.
  induction rows as [|row rows IH]; intros i x Hin; [contradiction|].
  cbn [rowIdentifiers] in Hin. apply in_app_or in Hin as [Hin|Hin].
  - apply in_map_iff in Hin as [name [<- Hname]].
    exists name, i. split; [|split; [lia|reflexivity]].
    rewrite <- (firstn_skipn (List.length row) names). apply in_or_app. left. exact Hname.
  - destruct (IH (S i) x Hin) as [name [k [H1 [H2 H3]]]].
    exists name, k. split; [exact H1|split; [lia|exact H3]].
Qed.

Lemma NoDup_map_on {A B : Type} (f : A -> B) (l : list A) :
  NoDup l -> (forall x y, In x l -> In y l -> f x = f y -> x = y) -> NoDup (map f l).
Proof.
  induction 1 as [|a l Ha Hl IH]; intros Hinj; [constructor|].
  cbn [map]. constructor.
  - intros Hin. apply in_map_iff in Hin as [y [Hy Hyl]].
    assert (y = a) by (apply Hinj; [right; exact Hyl|left; reflexivity|exact Hy]).
    subst y. contradiction.
  - apply IH. intros x y Hx Hy. apply Hinj; right; assumption.
Qed.

Lemma NoDup_rowIdentifiers (names : list string) (rows : list (list string)) :
  NoDup names ->
  Forall (fun name => isAlphaString name = true) names ->
  Forall (fun row => List.length row = List.length names) rows ->
  forall i, NoDup (rowIdentifiers names i rows).
Proof.
  intros Hnd Halpha Hrect. rewrite Forall_forall in Halpha.
  induction Hrect as [|row rows Hrow _ IH]; intros i; [constructor|].
  cbn [rowIdentifiers]. rewrite Hrow, firstn_all.
  apply NoDup_app.
  - apply NoDup_map_on; [exact Hnd|].
    intros x y Hx Hy H. exact (proj1 (identifier_inj _ _ _ _ (Halpha x Hx) (Halpha y Hy) H)).
  - apply IH.
  - intros x Hx Hx'. apply in_map_iff in Hx as [name [<- Hname]].
    destruct (In_rowIdentifiers _ _ _ _ Hx') as [name' [k [Hn' [Hk H]]]].
    destruct (identifier_inj _ _ _ _ (Halpha _ Hname) (Halpha _ Hn') H) as [_ Hik]. lia.
Qed.

Lemma find_unique (cells : list Cell) (c : Cell) :
  NoDup (map identifier cells) -> In c cells ->
  findCell (identifier c) cells = Some c.
Proof.
  unfold findCell. induction cells as [|a cells IH]; intros Hnd Hin; [contradiction|].
  cbn [map] in Hnd. inversion Hnd as [|x l Hna Hnd']; subst.
  cbn [find]. destruct Hin as [->|Hin].
  - rewrite String.eqb_refl. reflexivity.
  - destruct (String.eqb (identifier a) (identifier c)) eqn:E.
    + apply String.eqb_eq in E. exfalso. apply Hna. rewrite E. apply in_map. exact Hin.
    + apply IH; assumption.
Qed.

Lemma parsed_identifiers (src : string) (cells : list Cell) (header : list CellContent) :
  parseCells src = Return (cells, header) ->
  NoDup (map identifier cells) /\
  forall c, In c cells ->
    exists name k,
      isAlphaString name = true /\ identifier c = (name ++ decimal (k + 1))%string.
Proof.
  intros H. destruct (parseCells_inv _ _ _ H)
    as [[_ [-> _]]|[first [rows [names [Hsrc [_ [Hhd [Hnames [Hnd [Hrect Hrows]]]]]]]]]].
  - split; [constructor|contradiction].
  - pose proof (header_names_alpha _ _ _ Hhd Hnames) as Halpha.
    destruct (parseRows_cells names rows 0 [] cells Hrect Hrows) as [Hid _].
    cbn [map app] in Hid. split.
    + rewrite Hid. apply NoDup_rowIdentifiers; assumption.
    + intros c Hc. apply (in_map identifier) in Hc. rewrite Hid in Hc.
      destruct (In_rowIdentifiers _ _ _ _ Hc) as [name [k [Hn [_ Hk]]]].
      exists name, k. split; [|exact Hk].
      rewrite Forall_forall in Halpha. exact (Halpha _ Hn).
Qed.

(** X7. In a parsed grid no two cells have the same identifier, so
    looking a cell up by its identifier, as the evaluator does for a
    reference, finds that very cell. *)
Theorem parsed_cells_are_found_by_identifier
  (src : string) (cells : list Cell) (header : list CellContent) :
  parseCells src = Return (cells, header) ->
  NoDup (map identifier cells) /\
  forall c, In c cells -> findCell (identifier c) cells = Some c.
Proof.
  intros H. destruct (parsed_identifiers _ _ _ H) as [Hnd _].
  split; [exact Hnd|]. intros c Hc. apply find_unique; assumption.
Qed.

(** X7 at the grid of header [A,B] and data row [1,=A1+1]. *)
Lemma parsed_cells_are_found_by_identifier_witness :
  findCell (identifier sumB1) [sumA1; sumB1] = Some sumB1.
Proof.
  apply (proj2 (parsed_cells_are_found_by_identifier sumGrid [sumA1; sumB1]
                  [IdentifierCell "A" "A"; IdentifierCell "B" "B"]
                  ltac:(vm_compute; reflexivity))).
  right. left. reflexivity.
Defined.

(** *** Identifiers as references *)

Lemma alpha_facts (c : ascii) :
  isAlpha c = true ->
  isSpace c = false /\ isNumberStart c = false /\ operatorOf c = None.
Proof.
  destruct c as [[] [] [] [] [] [] [] []]; intros H; try discriminate H;
    repeat split; reflexivity.
Qed.

(** A name of letters and digits that begins with a letter is one
    reference token. *)
Lemma tokenize_name (fuel : nat) (a : ascii) (rest : list ascii) :
  isAlpha a = true -> forallb isRefPart rest = true ->
  tokenize (S fuel) (a :: rest) [] = Return [Ref (text (a :: rest))].
Proof.
  intros Ha Hrest. destruct (alpha_facts a Ha) as [Hsp [Hnum Hop]].
  cbn [tokenize]. rewrite Hsp, Hnum, Hop, Ha.
  pose proof (span_prefix isRefPart rest [] Hrest eq_refl) as Hs.
  rewrite app_nil_r in Hs. rewrite Hs. destruct fuel; reflexivity.
Qed.

(** X8. The identifier the grid parser gives a cell reads back as a
    reference to it: the formula made of [=] and the identifier of a cell
    of a parsed grid has exactly one token, the reference with that
    identifier. *)
Theorem identifier_reads_back_as_reference
  (src : string) (cells : list Cell) (header : list CellContent) (c : Cell) :
  parseCells src = Return (cells, header) ->
  In c cells ->
  parseMathExp ("=" ++ identifier c)%string = Return [Ref (identifier c)].
Proof.
  intros H Hc. destruct (parsed_identifiers _ _ _ H) as [_ Hids].
  destruct (Hids c Hc) as [name [k [Halpha Hid]]].
  unfold parseMathExp. change (chars ("=" ++ identifier c)%string)
    with ("="%char :: chars (identifier c)).
  cbv iota.
  assert (Hchars : exists a rest,
            chars (identifier c) = a :: rest /\ isAlpha a = true /\
            forallb isRefPart rest = true).
  { rewrite Hid, chars_append.
    pose proof (alpha_string_chars _ Halpha) as Hn.
    destruct (chars name) as [|a rest] eqn:E; [unfold isAlphaString in Halpha;
      rewrite E in Halpha; discriminate|].
    cbn [forallb] in Hn. apply andb_true_iff in Hn as [Ha Hrest].
    exists a, (rest ++ chars (decimal (k + 1))). split; [reflexivity|]. split; [exact Ha|].
    rewrite forallb_app. apply andb_true_iff. split.
    - rewrite forallb_forall in *. intros x Hx. unfold isRefPart.
      rewrite (Hrest x Hx). reflexivity.
    - pose proof (decimal_digits (k + 1)) as Hd. rewrite forallb_forall in *.
      intros x Hx. unfold isRefPart. rewrite (Hd x Hx). apply orb_true_r. }
  destruct Hchars as [a [rest [E [Ha Hrest]]]]. rewrite E. cbn [List.length].
  rewrite (tokenize_name _ a rest Ha Hrest), <- E, text_chars. reflexivity.
Qed.

(** X8 at the cell [B1] of the grid of header [A,B] and data row
    [1,=A1+1]. *)
Lemma identifier_reads_back_as_reference_witness :
  parseMathExp "=B1" = Return [Ref "B1"].
Proof.
  apply (identifier_reads_back_as_reference sumGrid [sumA1; sumB1]
           [IdentifierCell "A" "A"; IdentifierCell "B" "B"] sumB1).
  - vm_compute. reflexivity.
  - right. left. reflexivity.
Defined.

(** *** Sources without a grid *)

Lemma dropWhile_head (p : ascii -> bool) (l : list ascii) :
  match dropWhile p l with
  | c :: _ => p c = false
  | [] => Forall (fun c => p c = true) l
  end.
Proof.
  induction l as [|c l IH]; [constructor|].
  cbn [dropWhile]. destruct (p c) eqn:E; [|exact E].
  destruct (dropWhile p l); [constructor; assumption|exact IH].
Qed.

Lemma trimChars_nil_blank (w : list ascii) :
  trimChars w = [] -> Forall (fun c => isSpace c = true) w.
Proof.
  unfold trimChars. intros H.
  apply (f_equal (@rev ascii)) in H. rewrite rev_involutive in H. cbn [rev] in H.
  pose proof (dropWhile_head isSpace w) as Hw.
  destruct (dropWhile isSpace w) as [|c l] eqn:E; [exact Hw|]. exfalso.
  pose proof (dropWhile_head isSpace (rev (c :: l))) as Hr. rewrite H in Hr.
  rewrite Forall_forall in Hr.
  specialize (Hr c ltac:(apply in_rev; rewrite rev_involutive; left; reflexivity)).
  rewrite Hr in Hw. discriminate.
Qed.

Lemma text_nil (l : list ascii) : text l = "" -> l = [].
Proof. intros H. rewrite <- (chars_text l), H. reflexivity. Qed.

(** A list is made of its pieces and of separators. *)
Lemma splitChars_covers (P : ascii -> Prop) (sep : ascii) (l : list ascii) :
  P sep -> Forall (Forall P) (splitChars sep l) -> Forall P l.
Proof.
  intros Hsep. induction l as [|c l IH]; intros H; [constructor|].
  cbn [splitChars] in H. destruct (Ascii.eqb c sep) eqn:E.
  - apply Ascii.eqb_eq in E. subst c. inversion H; subst. constructor; auto.
  - destruct (splitChars sep l) as [|w ws].
    + inversion H as [|x xs Hc _]; subst. inversion Hc; subst.
      constructor; [assumption|]. apply IH. constructor.
    + inversion H as [|x xs Hc Hws]; subst. inversion Hc; subst.
      constructor; [assumption|]. apply IH. constructor; assumption.
Qed.

Lemma filter_nil_all {A : Type} (f : A -> bool) (l : list A) :
  filter f l = [] -> Forall (fun a => f a = false) l.
Proof.
  induction l as [|a l IH]; intros H; [constructor|].
  cbn [filter] in H. destruct (f a) eqn:E; [discriminate|].
  constructor; [exact E|exact (IH H)].
Qed.

Lemma line_without_field_blank (w : list ascii) :
  filter (fun field => truthy (trim field)) (split "," (text w)) = [] ->
  Forall (fun c => blankOrComma c = true) w.
Proof.
  intros H. apply filter_nil_all in H. unfold split in H. rewrite chars_text in H.
  apply Forall_map in H.
  apply (splitChars_covers _ ","); [reflexivity|].
  rewrite Forall_forall in *. intros field Hin. specialize (H field Hin).
  unfold truthy in H. apply negb_false_iff, String.eqb_eq in H.
  unfold trim in H. rewrite chars_text in H. apply text_nil, trimChars_nil_blank in H.
  rewrite Forall_forall in *. intros c Hc. unfold blankOrComma. rewrite (H c Hc). reflexivity.
Qed.

Lemma cellsSrcOf_nil_blank (src : string) :
  cellsSrcOf src = [] -> forallb blankOrComma (chars src) = true.
Proof.
  unfold cellsSrcOf. intros H. apply map_eq_nil in H. apply filter_nil_all in H.
  apply Forall_map in H. unfold split at 2 in H. apply Forall_map in H.
  apply forallb_forall. apply Forall_forall.
  apply (splitChars_covers _ LF); [reflexivity|].
  rewrite Forall_forall in *. intros w Hin. specialize (H w Hin).
  apply line_without_field_blank. apply negb_false_iff, Nat.eqb_eq in H.
  destruct (filter _ _); [reflexivity|discriminate H].
Qed.

(** X9. The grid parser returns an empty header exactly for the sources
    made of blanks, line breaks and commas only, and then no cell either:
    any other source has a first row, which is parsed as the header or
    refused. *)
Theorem empty_header_only_for_blank_source (src : string) :
  (exists cells, parseCells src = Return (cells, [])) <->
  forallb blankOrComma (chars src) = true.
Proof.
  split.
  - intros [cells H]. apply cellsSrcOf_nil_blank.
    destruct (parseCells_inv _ _ _ H)
      as [[Hsrc _]|[first [rows [names [_ [Hne [Hhd _]]]]]]]; [exact Hsrc|].
    exfalso. apply Hne. apply mapOutcome_length in Hhd.
    destruct first; [reflexivity|discriminate Hhd].
  - intros H. exists []. unfold parseCells. rewrite (cellsSrcOf_blank src H). reflexivity.
Qed.

(** *** Numerals *)

Lemma uint_value (d : Decimal.uint) :
  forall acc : nat,
    fold_left (fun a c => (10 * a + digitValue c)%Z)
      (chars (NilEmpty.string_of_uint d)) (Z.of_nat acc) =
    Z.of_nat (Nat.of_uint_acc d acc).
Proof.
  induction d; intros acc;
    cbn [NilEmpty.string_of_uint chars list_ascii_of_string fold_left Nat.of_uint_acc];
    [reflexivity|..];
    unfold chars in *; rewrite <- IHd; f_equal; rewrite Nat.tail_mul_spec;
    unfold digitValue, code; cbn [nat_of_ascii]; vm_compute Z.of_nat at 2; lia.
Qed.

Lemma decimal_value (n : nat) : digitsToZ (chars (decimal n)) = Z.of_nat n.
Proof.
  unfold digitsToZ, decimal, NilZero.string_of_uint.
  pose proof (Unsigned.of_to n) as Hn. unfold Nat.of_uint in Hn.
  destruct (Nat.to_uint n) eqn:E;
    try (rewrite <- E in *; change 0%Z with (Z.of_nat 0); rewrite uint_value, Hn; reflexivity).
  cbn in Hn. subst n. reflexivity.
Qed.

(** X10. The text the program writes for a row number reads back as that
    number: a cell that holds the decimal numeral of [n] classifies as the
    Value [n]. *)
Theorem numeral_classifies_as_its_number (n : nat) :
  parseFloat (decimal n) = ofZ (Z.of_nat n) /\
  parseCell (decimal n) = Return (ValueCell (ofZ (Z.of_nat n)) (decimal n)).
Proof.
  assert (Hpf : parseFloat (decimal n) = ofZ (Z.of_nat n)).
  { unfold parseFloat. rewrite <- (app_nil_r (chars (decimal n))).
    rewrite parseFloat_digits_prefix;
      [rewrite decimal_value; reflexivity|apply decimal_nonempty|apply decimal_digits|reflexivity]. }
  split; [exact Hpf|].
  pose proof (parseCell_outcome (decimal n)) as H.
  assert (Hd : exists d rest, chars (decimal n) = d :: rest /\ isDigit d = true).
  { pose proof (decimal_digits n) as Hall. pose proof (decimal_nonempty n) as Hne.
    destruct (chars (decimal n)) as [|d rest]; [contradiction|].
    cbn [forallb] in Hall. apply andb_true_iff in Hall as [Hd _]. eauto. }
  destruct Hd as [d [rest [E Hd]]].
  destruct (digit_facts d Hd) as [_ [Hal [_ [_ [_ [Heq _]]]]]].
  assert (Ha : isAlphaString (decimal n) = false)
    by (unfold isAlphaString; rewrite E; cbn [forallb]; rewrite Hal; reflexivity).
  assert (Hs : startsWith ["="%char] (chars (decimal n)) = false)
    by (rewrite E; cbn [startsWith]; rewrite Ascii.eqb_sym, Heq; reflexivity).
  assert (Hn : isNaN (parseFloat (decimal n)) = false)
    by (rewrite Hpf; apply ofZ_not_NaN; lia).
  destruct (parseCell (decimal n)) as [c|e| |]; try contradiction.
  - destruct c as [v s|v s|tokens s].
    + destruct H as [-> [_ [_ [-> _]]]]. rewrite Hpf. reflexivity.
    + destruct H as [_ [_ H]]. rewrite Ha in H. discriminate.
    + destruct H as [_ [_ [H _]]]. rewrite Hs in H. discriminate.
  - destruct H as [_ [[_ [_ H]]|[x [_ [H _]]]]].
    + rewrite Hn in H. discriminate.
    + rewrite Hs in H. discriminate.
Qed.

(** ** Formulas of numerals and operators *)

(** A round of the tokenizer takes at least one character, so the number
    of characters left is rounds enough. *)
Lemma tokenize_fuel (f1 : nat) :
  forall (f2 : nat) (l : list ascii) (tokens : MathExp),
    List.length l <= f1 -> List.length l <= f2 ->
    tokenize f1 l tokens = tokenize f2 l tokens.
Proof.
  induction f1 as [|f1 IH]; intros f2 l tokens H1 H2.
  - destruct l; [|simpl in H1; lia]. destruct f2; reflexivity.
  - destruct f2 as [|f2].
    + destruct l; [reflexivity|simpl in H2; lia].
    + destruct l as [|c l]; [reflexivity|].
      cbn [tokenize]. simpl in H1, H2.
      destruct (isSpace c); [apply IH; lia|].
      destruct (isNumberStart c).
      * pose proof (span_length isNumberPart l) as Hs.
        destruct (span isNumberPart l) as [more rest]. cbn [snd] in Hs.
        destruct (String.eqb _ "-"); [apply IH; lia|].
        destruct (isNaN _); [reflexivity|apply IH; lia].
      * destruct (operatorOf c); [apply IH; lia|].
        destruct (isAlpha c); [|apply IH; lia].
        pose proof (span_length isRefPart l) as Hs.
        destruct (span isRefPart l) as [more rest]. cbn [snd] in Hs.
        apply IH; lia.
Qed.

Lemma tokenize_blanks (k : nat) (l : list ascii) (tokens : MathExp) :
  tokenize (List.length (blanks k ++ l)) (blanks k ++ l) tokens =
  tokenize (List.length l) l tokens.
Proof.
  induction k as [|k IH]; [reflexivity|].
  cbn [blanks repeat app List.length tokenize]. exact IH.
Qed.

(** An operator character gives its token; a [-] does when what follows
    cannot continue a literal. *)
Lemma tokenize_operator (o : MathOp) (l : list ascii) (tokens : MathExp) :
  (o = Minus -> stopsNumber l = true) ->
  tokenize (List.length (chars (glyph o) ++ l)) (chars (glyph o) ++ l) tokens =
  tokenize (List.length l) l (tokens ++ [Operator o]).
Proof.
  intros Hminus. destruct o; try reflexivity.
  specialize (Hminus eq_refl).
  cbn [glyph chars list_ascii_of_string app List.length tokenize].
  change (isSpace "-") with false. change (isNumberStart "-") with true. cbv iota.
  pose proof (span_prefix isNumberPart [] l eq_refl Hminus) as Hs.
  cbn [app] in Hs. rewrite Hs. reflexivity.
Qed.

Lemma parseFloat_decimal (n : nat) : parseFloat (decimal n) = ofNat n.
Proof.
  unfold parseFloat, ofNat. rewrite <- (app_nil_r (chars (decimal n))).
  rewrite parseFloat_digits_prefix;
    [rewrite decimal_value; reflexivity|apply decimal_nonempty|apply decimal_digits|reflexivity].
Qed.

(** A decimal numeral that nothing continues gives the Value of its
    number. *)
Lemma tokenize_numeral (n : nat) (l : list ascii) (tokens : MathExp) :
  stopsNumber l = true ->
  tokenize (List.length (chars (decimal n) ++ l)) (chars (decimal n) ++ l) tokens =
  tokenize (List.length l) l (tokens ++ [Value (ofNat n)]).
Proof.
  intros Hstop.
  pose proof (decimal_digits n) as Hall. pose proof (decimal_nonempty n) as Hne.
  pose proof (parseFloat_decimal n) as Hpf. pose proof (text_chars (decimal n)) as Htext.
  destruct (chars (decimal n)) as [|d ds]; [contradiction|].
  cbn [forallb] in Hall. apply andb_true_iff in Hall as [Hd Hds].
  destruct (digit_facts d Hd) as [Hsp [_ [_ [Hminus _]]]].
  cbn [app List.length tokenize]. rewrite Hsp.
  assert (Hstart : isNumberStart d = true)
    by (unfold isNumberStart; rewrite Hd, orb_true_r; reflexivity).
  rewrite Hstart.
  assert (Hparts : forallb isNumberPart ds = true).
  { rewrite forallb_forall in *. intros x Hx. unfold isNumberPart.
    rewrite (Hds x Hx). apply orb_true_r. }
  rewrite (span_prefix isNumberPart ds l Hparts Hstop).
  rewrite Htext.
  assert (Hnot : String.eqb (decimal n) "-" = false).
  { rewrite <- Htext. cbn [text string_of_list_ascii String.eqb]. rewrite Hminus.
    reflexivity. }
  rewrite Hnot, Hpf.
  unfold ofNat at 1. rewrite ofZ_not_NaN by lia.
  apply tokenize_fuel; [rewrite length_app; lia|apply le_n].
Qed.

Lemma blanks_stop_number (k : nat) (l : list ascii) :
  (k = 0 -> stopsNumber l = true) -> stopsNumber (blanks k ++ l) = true.
Proof. destruct k; [intros H; exact (H eq_refl)|reflexivity]. Qed.

Lemma terms_stop_number (rest : list Term) :
  stopsNumber (flat_map termChars rest) = true.
Proof.
  destruct rest as [|t rest]; [reflexivity|].
  cbn [flat_map]. unfold termChars. rewrite <- app_assoc.
  apply blanks_stop_number. intros _. destruct (operator t); reflexivity.
Qed.

(** The tokens of the terms of a formula, after the [tokens] of what came
    before them. *)
Lemma tokenize_terms (rest : list Term) :
  forallb minusSetOff rest = true ->
  forall tokens : MathExp,
    tokenize (List.length (flat_map termChars rest)) (flat_map termChars rest) tokens =
    Return (tokens ++ flatOps (operands rest)).
Proof.
  induction rest as [|t rest IH]; intros Hset tokens.
  - cbn. rewrite app_nil_r. reflexivity.
  - cbn [forallb] in Hset. apply andb_true_iff in Hset as [Ht Hrest].
    assert (Heq : flat_map termChars (t :: rest) =
                  blanks (gapBefore t) ++ chars (glyph (operator t)) ++
                  blanks (gapAfter t) ++ chars (decimal (numeral t)) ++
                  flat_map termChars rest)
      by (cbn [flat_map]; unfold termChars at 1; rewrite <- !app_assoc; reflexivity).
    rewrite Heq. cbn [operands map]. rewrite flatOps_cons.
    rewrite tokenize_blanks, tokenize_operator, tokenize_blanks, tokenize_numeral.
    + rewrite (IH Hrest), <- !app_assoc. reflexivity.
    + apply terms_stop_number.
    + intros Ho. unfold minusSetOff in Ht. rewrite Ho in Ht.
      apply blanks_stop_number. intros Hk. rewrite Hk in Ht. discriminate Ht.
Qed.

(** A formula of numerals in which a blank sets off every [-] from the
    numeral after it has the tokens it is written with. *)
Lemma parseMathExp_formula (first : nat) (rest : list Term) :
  forallb minusSetOff rest = true ->
  parseMathExp (formula first rest) = Return (infixTokens (ofNat first) (operands rest)).
Proof.
  intros Hset. unfold parseMathExp, formula. rewrite chars_text.
  rewrite tokenize_numeral by apply terms_stop_number.
  rewrite (tokenize_terms rest Hset). reflexivity.
Qed.

(** The reducer on an infix sequence of numbers. *)
Lemma calcMath_infix (first : number) (rest : list (MathOp * number)) :
  match precedenceValue first rest with
  | Some r =>
      calcMath (infixTokens first rest) =
        Return (match r with S754_zero true => zero | _ => r end)
  | None =>
      exists a s b,
        calcMath (infixTokens first rest) = Throw (CantEvaluate (Num a) s (Num b))
  end.
Proof.
  unfold precedenceValue, calcMath, infixTokens.
  pose proof (collapse_products rest (List.length (Value first :: flatOps rest))
                (Value first :: flatOps rest) [] first eq_refl (le_n _) (le_n _)) as H1.
  cbn [app] in H1.
  destruct (products first rest) as [[term chain]|] eqn:Hp.
  - rewrite H1. cbn [bind].
    destruct (products_chain rest first term chain Hp) as [Hlen Hall].
    pose proof (collapse_sums chain (List.length (Value term :: flatOps chain))
                  (Value first :: flatOps rest) term Hall (le_n _)) as H2.
    assert (Hle : List.length (Value term :: flatOps chain) <=
                  List.length (Value first :: flatOps rest))
      by (cbn [List.length]; rewrite !flatOps_length; lia).
    specialize (H2 Hle).
    destruct (sums term chain) as [r|].
    + rewrite H2. cbn [bind sumValues]. rewrite add_zero_l. reflexivity.
    + destruct H2 as [a [s [b H2]]]. exists a, s, b. rewrite H2. reflexivity.
  - destruct H1 as [a [s [b H1]]]. exists a, s, b. rewrite H1. reflexivity.
Qed.

(** C2, as stated, fails: a [-] that a digit follows is read as the sign
    of a literal, so [a-b+c] has the tokens [a], [-b], [+], [c] and is
    reduced as [a + (-b + c)], from the right.  With [a] and [b]
    10000000000000000, where numbers are two apart, and [c] 1 the sum on
    the right is rounded to [-b] and the formula gives 0; association
    from the left gives 1, and so does the formula with blanks around its
    operators. *)
Lemma minus_before_digit_groups_from_the_right :
  parseMathExp "=10000000000000000-10000000000000000+1" =
    Return [Value (ofZ 10000000000000000); Value (ofZ (-10000000000000000));
            Operator Plus; Value (ofZ 1)] /\
  reduceSource "=10000000000000000-10000000000000000+1" = Return (ofZ 0) /\
  precedenceValue (ofZ 10000000000000000)
    [(Minus, ofZ 10000000000000000); (Plus, ofZ 1)] = Some (ofZ 1) /\
  reduceSource "=10000000000000000 - 10000000000000000 + 1" = Return (ofZ 1).
Proof. repeat split; vm_compute; reflexivity. Qed.

(** C2, amended.  The reducer implements the two tiers with association
    from the left on every sequence of numbers separated by operators,
    and the tokenizer gives that sequence for every formula of decimal
    numerals separated by operators, with any blanks around them, in
    which a blank at least follows each [-]; so tokenizing and then
    reducing such a formula gives its value by precedence, or the
    arithmetic error when a partial result is NaN.  The formula
    ["=1+2*3"] is one of them: its tokens are exactly Value 1,
    Operator +, Value 2, Operator *, Value 3, and they reduce to 7.  In
    ["=10-2-3"] each [-] is the sign of the literal after it: the tokens
    are the numbers 10, -2 and -3, which the final fold sums to 5. *)
Theorem tokenizer_and_reducer_follow_precedence :
  (forall (first : number) (rest : list (MathOp * number)),
     match precedenceValue first rest with
     | Some r =>
         calcMath (infixTokens first rest) =
           Return (match r with S754_zero true => zero | _ => r end)
     | None =>
         exists a s b,
           calcMath (infixTokens first rest) = Throw (CantEvaluate (Num a) s (Num b))
     end) /\
  (forall (first : nat) (rest : list Term),
     forallb minusSetOff rest = true ->
     parseMathExp (formula first rest) =
       Return (infixTokens (ofNat first) (operands rest))) /\
  (forall (first : nat) (rest : list Term),
     forallb minusSetOff rest = true ->
     match precedenceValue (ofNat first) (operands rest) with
     | Some r =>
         reduceSource (formula first rest) =
           Return (match r with S754_zero true => zero | _ => r end)
     | None =>
         exists a s b,
           reduceSource (formula first rest) = Throw (CantEvaluate (Num a) s (Num b))
     end) /\
  parseMathExp "=1+2*3" =
    Return [Value (ofZ 1); Operator Plus; Value (ofZ 2); Operator Times; Value (ofZ 3)] /\
  calcMath [Value (ofZ 1); Operator Plus; Value (ofZ 2); Operator Times; Value (ofZ 3)] =
    Return (ofZ 7) /\
  parseMathExp "=10-2-3" =
    Return [Value (ofZ 10); Value (ofZ (-2)); Value (ofZ (-3))] /\
  reduceSource "=10-2-3" = Return (ofZ 5).
Proof.
  split; [exact calcMath_infix|]. split; [exact parseMathExp_formula|].
  split; [|repeat split; vm_compute; reflexivity].
  intros first rest Hset. unfold reduceSource.
  rewrite (parseMathExp_formula first rest Hset). cbn [bind].
  apply calcMath_infix.
Qed.

(** The amended C2 at ["=10 - 2 - 3"], two subtractions taken from the
    left, at ["=2+12/4/3"], two divisions taken from the left before the
    sum, and at ["=1+2*3"]. *)
Lemma tokenizer_and_reducer_follow_precedence_witness :
  formula 10 [mkTerm 1 Minus 1 2; mkTerm 1 Minus 1 3] = "=10 - 2 - 3"%string /\
  parseMathExp "=10 - 2 - 3" =
    Return [Value (ofZ 10); Operator Minus; Value (ofZ 2); Operator Minus; Value (ofZ 3)] /\
  reduceSource "=10 - 2 - 3" = Return (sub (sub (ofZ 10) (ofZ 2)) (ofZ 3)) /\
  sub (sub (ofZ 10) (ofZ 2)) (ofZ 3) = ofZ 5 /\
  reduceSource "=2+12/4/3" = Return (add (ofZ 2) (div (div (ofZ 12) (ofZ 4)) (ofZ 3))) /\
  add (ofZ 2) (div (div (ofZ 12) (ofZ 4)) (ofZ 3)) = ofZ 3 /\
  reduceSource "=1+2*3" = Return (add (ofZ 1) (mul (ofZ 2) (ofZ 3))).
Proof.
  pose proof tokenizer_and_reducer_follow_precedence as [_ [Htok [Hboth _]]].
  split; [reflexivity|]. split; [|split; [|split; [reflexivity|split; [|split; [reflexivity|]]]]].
  - exact (Htok 10 [mkTerm 1 Minus 1 2; mkTerm 1 Minus 1 3] eq_refl).
  - exact (Hboth 10 [mkTerm 1 Minus 1 2; mkTerm 1 Minus 1 3] eq_refl).
  - exact (Hboth 2 [mkTerm 0 Plus 0 12; mkTerm 0 Divide 0 4; mkTerm 0 Divide 0 3] eq_refl).
  - exact (Hboth 1 [mkTerm 0 Plus 0 2; mkTerm 0 Times 0 3] eq_refl).
Defined.

(** ** The evaluator on formulas *)

Lemma mapEval_no_ref (evalTarget : Cell -> list Cell -> Eval number)
  (cell : Cell) (cells : list Cell) (tokens : MathExp) (refTrace : list Cell) :
  existsb isRef tokens = false ->
  mapEval (resolveToken evalTarget cell cells) tokens refTrace = (Return tokens, refTrace).
Proof.
  induction tokens as [|t tokens IH]; intros H; [reflexivity|].
  cbn [existsb] in H. apply orb_false_iff in H as [Ht H].
  rewrite mapEval_cons, (resolveToken_other _ _ _ _ _ Ht), (IH H). reflexivity.
Qed.

Lemma mapEval_app_throw (evalTarget : Cell -> list Cell -> Eval number)
  (cell : Cell) (cells : list Cell) (pre post : MathExp) (t : MathToken)
  (refTrace after : list Cell) (e : Error) :
  existsb isRef pre = false ->
  resolveToken evalTarget cell cells t refTrace = (Throw e, after) ->
  mapEval (resolveToken evalTarget cell cells) (pre ++ t :: post) refTrace = (Throw e, after).
Proof.
  intros Hpre Ht. induction pre as [|p pre IH].
  - cbn [app]. rewrite mapEval_cons, Ht. reflexivity.
  - cbn [existsb] in Hpre. apply orb_false_iff in Hpre as [Hp Hpre].
    cbn [app]. rewrite mapEval_cons, (resolveToken_other _ _ _ _ _ Hp), (IH Hpre).
    reflexivity.
Qed.

(** X11. A formula without a reference evaluates to what the reducer makes
    of its tokens, and leaves the trace as it found it, whenever the trace
    does not already pass the cycle test. *)
Theorem formula_without_reference_is_reduced
  (fuel : nat) (cell : Cell) (cells refTrace : list Cell) (tokens : MathExp) (src : string) :
  content cell = ExpressionCell tokens src ->
  existsb isRef tokens = false ->
  cyclicTrace refTrace = false ->
  evalCell (S fuel) cell cells refTrace = (calcMath tokens, refTrace).
Proof.
  intros Hc Href Htr. rewrite evalCell_unfold, Htr, Hc. unfold bindEval.
  rewrite (mapEval_no_ref _ _ _ _ _ Href). reflexivity.
Qed.

(** X11 at a cell that holds ["=2*3+1"]. *)
Lemma formula_without_reference_is_reduced_witness :
  evalCell 1 plainA1 [plainA1] [] =
  (calcMath [Value (ofZ 2); Operator Times; Value (ofZ 3); Operator Plus; Value (ofZ 1)], []).
Proof.
  exact (formula_without_reference_is_reduced 0 plainA1 [plainA1] [] _ "=2*3+1"
           eq_refl eq_refl eq_refl).
Defined.

Lemma mapEval_literals (fuel : nat) (cell : Cell) (cells : list Cell) (tokens : MathExp) :
  forall prepared : MathExp,
    substitute cells tokens = Some prepared ->
    refersToOthers cell cells tokens = true ->
    mapEval (resolveToken (evalCell (S fuel)) cell cells) tokens [] = (Return prepared, []).
Proof.
  induction tokens as [|t tokens IH]; intros prepared Hs Ho.
  - injection Hs as <-. reflexivity.
  - unfold refersToOthers in Ho. cbn [forallb] in Ho. apply andb_true_iff in Ho as [Ht Ho].
    rewrite mapEval_cons. destruct t as [o|v|name].
    + cbn [substitute] in Hs.
      destruct (substitute cells tokens) as [p|]; [|discriminate]. injection Hs as <-.
      cbn [resolveToken ret]. rewrite (IH p eq_refl Ho). reflexivity.
    + cbn [substitute] in Hs.
      destruct (substitute cells tokens) as [p|]; [|discriminate]. injection Hs as <-.
      cbn [resolveToken ret]. rewrite (IH p eq_refl Ho). reflexivity.
    + cbn [substitute] in Hs. rewrite resolveToken_ref.
      destruct (findCell name cells) as [targetCell|]; [|discriminate].
      destruct (content targetCell) as [v s|v s|v s] eqn:Hc; try discriminate.
      destruct (substitute cells tokens) as [p|]; [|discriminate]. injection Hs as <-.
      rewrite evalCell_unfold. unfold entered. cbn [List.length Nat.eqb app cyclicTrace last].
      apply negb_true_iff in Ht. rewrite Ht, Hc. rewrite (IH p eq_refl Ho). reflexivity.
Qed.

(** X12. A formula whose references all find cells that hold numbers, none
    of them the cell of the formula itself, evaluates from the empty trace
    to what the reducer makes of its tokens with the numbers put in place
    of the references, and leaves the trace empty. *)
Theorem formula_over_literals_is_substituted
  (fuel : nat) (cell : Cell) (cells : list Cell) (tokens prepared : MathExp) (src : string) :
  content cell = ExpressionCell tokens src ->
  substitute cells tokens = Some prepared ->
  refersToOthers cell cells tokens = true ->
  evalCell (S (S fuel)) cell cells [] = (calcMath prepared, []).
Proof.
  intros Hc Hs Ho. rewrite evalCell_unfold. cbn [cyclicTrace]. rewrite Hc.
  unfold bindEval. rewrite (mapEval_literals fuel cell cells tokens prepared Hs Ho).
  reflexivity.
Qed.

(** X12 at the cell [B1] of the grid of header [A,B] and data row
    [1,=A1+1]. *)
Lemma formula_over_literals_is_substituted_witness :
  evalCell 2 sumB1 [sumA1; sumB1] [] =
    (calcMath [Value (ofZ 1); Operator Plus; Value (ofZ 1)], []).
Proof.
  apply (formula_over_literals_is_substituted 0 sumB1 [sumA1; sumB1]
           [Ref "A1"; Operator Plus; Value (ofZ 1)] _ "=A1+1"); reflexivity.
Defined.

(** X13. A formula whose first reference names no cell of the grid fails
    with the unresolved-reference error that names it, whatever follows
    it; the cell of the formula is left on the trace when the trace was
    empty. *)
Theorem unresolved_reference_is_reported
  (fuel : nat) (cell : Cell) (cells refTrace : list Cell)
  (pre post : MathExp) (name src : string) :
  content cell = ExpressionCell (pre ++ Ref name :: post) src ->
  existsb isRef pre = false ->
  findCell name cells = None ->
  cyclicTrace refTrace = false ->
  evalCell (S fuel) cell cells refTrace =
    (Throw (CouldNotFindRef name),
     match refTrace with [] => [cell] | _ => refTrace end).
Proof.
  intros Hc Hpre Hfind Htr. rewrite evalCell_unfold, Htr, Hc. unfold bindEval.
  rewrite (mapEval_app_throw _ cell cells pre post (Ref name) refTrace
             (match refTrace with [] => [cell] | _ => refTrace end)
             (CouldNotFindRef name) Hpre); [reflexivity|].
  rewrite resolveToken_ref, Hfind. destruct refTrace; reflexivity.
Qed.

(** X13 at a cell that holds ["=1+Z9"] in a grid of that cell alone. *)
Lemma unresolved_reference_is_reported_witness :
  evalCell 1 missingA1 [missingA1] [] = (Throw (CouldNotFindRef "Z9"), [missingA1]).
Proof.
  exact (unresolved_reference_is_reported 0 missingA1 [missingA1] []
           [Value (ofZ 1); Operator Plus] [] "Z9" "=1+Z9" eq_refl eq_refl eq_refl eq_refl).
Defined.

(** X14. A formula whose first reference finds the cell of the formula
    itself fails, when evaluated from the empty trace, with the
    cyclic-reference error whose chain is the identifier of the cell
    twice, whatever else the formula and the grid hold. *)
Theorem direct_self_reference_is_caught
  (fuel : nat) (cell : Cell) (cells : list Cell)
  (pre post : MathExp) (name src : string) :
  content cell = ExpressionCell (pre ++ Ref name :: post) src ->
  existsb isRef pre = false ->
  findCell name cells = Some cell ->
  evalCell (S (S fuel)) cell cells [] =
    (Throw (CyclicReference [identifier cell; identifier cell]), [cell; cell]).
Proof.
  intros Hc Hpre Hfind. rewrite evalCell_unfold. cbn [cyclicTrace]. rewrite Hc.
  unfold bindEval.
  rewrite (mapEval_app_throw _ cell cells pre post (Ref name) [] [cell; cell]
             (CyclicReference [identifier cell; identifier cell]) Hpre); [reflexivity|].
  rewrite resolveToken_ref, Hfind. unfold entered. cbn [List.length Nat.eqb app].
  rewrite evalCell_unfold. cbn [cyclicTrace last]. unfold sameCell.
  rewrite Nat.eqb_refl. reflexivity.
Qed.

(** X14 at a cell [A1] that holds ["=2*A1"]. *)
Lemma direct_self_reference_is_caught_witness :
  evalCell 2 doubleA1 [doubleA1] [] =
  (Throw (CyclicReference ["A1"; "A1"]), [doubleA1; doubleA1]).
Proof.
  exact (direct_self_reference_is_caught 0 doubleA1 [doubleA1]
           [Value (ofZ 2); Operator Times] [] "A1" "=2*A1" eq_refl eq_refl eq_refl).
Defined.

(** ** Grids without a cycle of references *)

Lemma last_in {A : Type} (l : list A) (d : A) : l <> [] -> In (last l d) l.
Proof.
  induction l as [|a l IH]; intros H; [contradiction|].
  destruct l as [|b l]; [left; reflexivity|].
  right. apply IH. discriminate.
Qed.

Lemma descending_below (rank : Cell -> nat) (l : list Cell) :
  forall a, descending rank (a :: l) -> Forall (fun c => rank c < rank a) l.
Proof.
  induction l as [|b l IH]; intros a H; [constructor|].
  cbn [descending] in H. destruct H as [Hb Hl].
  constructor; [exact Hb|].
  specialize (IH b Hl). rewrite Forall_forall in *. intros c Hc.
  specialize (IH c Hc). lia.
Qed.

Lemma descending_snoc (rank : Cell -> nat) (l : list Cell) (d x : Cell) :
  descending rank l -> l <> [] -> rank x < rank (last l d) ->
  descending rank (l ++ [x]).
Proof.
  induction l as [|a l IH]; intros Hl Hne Hx; [contradiction|].
  destruct l as [|b l].
  - cbn [app descending last] in *. auto.
  - change ((a :: b :: l) ++ [x]) with (a :: ((b :: l) ++ [x])).
    cbn [descending] in Hl. destruct Hl as [Hb Hl].
    change (descending rank (a :: (b :: l) ++ [x]))
      with (rank b < rank a /\ descending rank ((b :: l) ++ [x])).
    split; [exact Hb|]. apply IH; [exact Hl|discriminate|exact Hx].
Qed.

Section Ranked.

Variable rank : Cell -> nat.
Variable cells : list Cell.
Hypothesis rank_ranked : ranked rank cells.
Hypothesis rank_same : forall a b, sameCell a b = true -> rank a = rank b.

(** A trace along which the ranks go down does not pass the cycle test. *)
Lemma descending_not_cyclic (refTrace : list Cell) :
  descending rank refTrace -> cyclicTrace refTrace = false.
Proof.
  intros H. destruct refTrace as [|first [|b l]]; try reflexivity.
  cbn [cyclicTrace]. destruct (sameCell first (last (first :: b :: l) first)) eqn:E;
    [|reflexivity].
  exfalso. apply rank_same in E.
  pose proof (descending_below rank (b :: l) first H) as Hall.
  rewrite Forall_forall in Hall.
  assert (Hne : b :: l <> []) by discriminate.
  specialize (Hall (last (b :: l) first) (last_in (b :: l) first Hne)).
  change (last (first :: b :: l) first) with (last (b :: l) first) in E. lia.
Qed.

(** The trace a reference of [cell] is resolved under goes down, when the
    trace of [cell] does and ends with [cell]. *)
Lemma entered_descending (cell targetCell : Cell) (refTrace : list Cell) :
  descending rank refTrace ->
  refTrace = [] \/ last refTrace cell = cell ->
  rank targetCell < rank cell ->
  descending rank (entered cell refTrace targetCell) /\
  last (entered cell refTrace targetCell) targetCell = targetCell.
Proof.
  intros Hd Hlast Hr. unfold entered. destruct refTrace as [|a l].
  - cbn [List.length Nat.eqb app descending last]. auto.
  - cbn [List.length Nat.eqb]. destruct Hlast as [Hnil|Hlast]; [discriminate|].
    split; [|apply last_last].
    apply (descending_snoc rank (a :: l) cell); [exact Hd|discriminate|].
    rewrite Hlast. exact Hr.
Qed.

Lemma evalCell_no_false_cycle (fuel : nat) :
  forall (cell : Cell) (refTrace : list Cell),
    In cell cells ->
    descending rank refTrace ->
    refTrace = [] \/ last refTrace cell = cell ->
    isCyclicOutcome (fst (evalCell fuel cell cells refTrace)) = false.
Proof.
  induction fuel as [|fuel IH]; intros cell refTrace Hcell Hd Hlast; [reflexivity|].
  rewrite evalCell_unfold, (descending_not_cyclic refTrace Hd).
  destruct (content cell) as [v src|v src|tokens src] eqn:Hc; try reflexivity.
  unfold bindEval.
  assert (Hmap : forall toks t,
            (forall name, In (Ref name) toks -> In (Ref name) tokens) ->
            descending rank t -> t = [] \/ last t cell = cell ->
            isCyclicOutcome
              (fst (mapEval (resolveToken (evalCell fuel) cell cells) toks t)) = false).
  { induction toks as [|a toks IHt]; intros t Hsub Ht Htl; [reflexivity|].
    rewrite mapEval_cons.
    assert (Hsub' : forall name, In (Ref name) toks -> In (Ref name) tokens)
      by (intros name Hn; apply Hsub; right; exact Hn).
    destruct a as [o|v|name].
    - cbn [resolveToken ret]. specialize (IHt t Hsub' Ht Htl).
      destruct (mapEval _ toks t) as [[r|e| |] tr]; try reflexivity. exact IHt.
    - cbn [resolveToken ret]. specialize (IHt t Hsub' Ht Htl).
      destruct (mapEval _ toks t) as [[r|e| |] tr]; try reflexivity. exact IHt.
    - rewrite resolveToken_ref.
      destruct (findCell name cells) as [targetCell|] eqn:Hfind; [|reflexivity].
      pose proof (rank_ranked cell targetCell tokens src name Hcell Hc
                    (Hsub name (or_introl eq_refl)) Hfind) as Hr.
      destruct (entered_descending cell targetCell t Ht Htl Hr) as [He Hel].
      pose proof (IH targetCell (entered cell t targetCell)
                    (proj1 (find_some _ _ Hfind)) He (or_intror Hel)) as Hrec.
      destruct (evalCell fuel targetCell cells (entered cell t targetCell))
        as [[v|e| |] tr]; try reflexivity; [|exact Hrec].
      specialize (IHt [] Hsub' I (or_introl eq_refl)).
      destruct (mapEval _ toks []) as [[r|e| |] tr']; try reflexivity. exact IHt. }
  specialize (Hmap tokens refTrace (fun name H => H) Hd Hlast).
  destruct (mapEval (resolveToken (evalCell fuel) cell cells) tokens refTrace)
    as [[prepared|e| |] tr]; try reflexivity; [|exact Hmap].
  unfold lift. cbn [fst].
  destruct (calcMath prepared) as [v|e| |] eqn:Ecalc; try reflexivity.
  exact (calcMath_not_cyclic _ _ Ecalc).
Qed.

End Ranked.

(** X15. On a grid whose references have no cycle the evaluation of any
    of its cells from the empty trace ends, within a call-stack depth of
    one more than the rank of the cell, and never with the
    cyclic-reference error: the cycle test gives no false alarm. *)
Theorem acyclic_grid_evaluates_without_alarm
  (rank : Cell -> nat) (cells : list Cell) (fuel : nat) (cell : Cell) :
  ranked rank cells ->
  (forall a b, sameCell a b = true -> rank a = rank b) ->
  In cell cells ->
  rank cell < fuel ->
  fst (evalCell fuel cell cells []) <> OutOfFuel /\
  isCyclicOutcome (fst (evalCell fuel cell cells [])) = false.
Proof.
  intros Hranked Hsame Hcell Hfuel. split.
  - exact (ranked_evaluation_ends rank cells Hranked fuel cell [] Hcell Hfuel).
  - apply (evalCell_no_false_cycle rank cells Hranked Hsame);
      [exact Hcell|exact I|left; reflexivity].
Qed.

(** X15 at the cell [B1] of the grid of header [A,B] and data row
    [1,=A1+1], ranked by the position of the cells. *)
Lemma acyclic_grid_evaluates_without_alarm_witness :
  fst (evalCell 2 sumB1 [sumA1; sumB1] []) <> OutOfFuel /\
  isCyclicOutcome (fst (evalCell 2 sumB1 [sumA1; sumB1] [])) = false.
Proof.
  apply (acyclic_grid_evaluates_without_alarm oid [sumA1; sumB1] 2 sumB1).
  - exact (proj1 ranked_and_root_cycle_examples).
  - intros a b H. apply Nat.eqb_eq. exact H.
  - right. left. reflexivity.
  - cbn [oid sumB1]. lia.
Defined.

(** ** The main program *)

Lemma evalOrKeep_returns_empty_trace (fuel : nat) (cells : list Cell) (c : Cell)
  (b : number + Cell) (after : list Cell) :
  evalOrKeep fuel cells c [] = (Return b, after) -> after = [].
Proof.
  unfold evalOrKeep, bindEval, ret.
  destruct (content c) as [v src|v src|tokens src].
  - destruct (evalCell fuel c cells []) as [[x|e| |] tr] eqn:E; try discriminate.
    intros H. injection H as _ <-. exact (evalCell_returns_empty_trace _ _ _ _ _ E).
  - intros H. injection H as _ <-. reflexivity.
  - destruct (evalCell fuel c cells []) as [[x|e| |] tr] eqn:E; try discriminate.
    intros H. injection H as _ <-. exact (evalCell_returns_empty_trace _ _ _ _ _ E).
Qed.

Lemma mapEval_each_from_empty (fuel : nat) (cells l : list Cell) :
  mapEval (evalOrKeep fuel cells) l [] = eachFromEmpty (evalOrKeep fuel cells) l.
Proof.
  induction l as [|c l IH]; [reflexivity|].
  rewrite mapEval_cons. cbn [eachFromEmpty].
  destruct (evalOrKeep fuel cells c []) as [[b|e| |] tr] eqn:E; try reflexivity.
  rewrite (evalOrKeep_returns_empty_trace _ _ _ _ _ E), IH. reflexivity.
Qed.

Lemma eachFromEmpty_returns {B : Type} (f : Cell -> Eval B) (l : list Cell) :
  forall (vals : list B) (after : list Cell),
    eachFromEmpty f l = (Return vals, after) ->
    after = [] /\ List.length vals = List.length l.
Proof.
  induction l as [|c l IH]; intros vals after H.
  - injection H as <- <-. auto.
  - cbn [eachFromEmpty] in H.
    destruct (f c []) as [[b|e| |] tr]; try discriminate.
    destruct (eachFromEmpty f l) as [[bs|e| |] tr']; try discriminate.
    injection H as <- <-. destruct (IH bs tr' eq_refl) as [-> Hl].
    cbn [List.length]. auto.
Qed.

(** X16. The evaluations the main program makes one after the other do
    not interfere: run from the empty trace, the loop over the cells gives
    what evaluating each cell on its own from the empty trace gives, up to
    the first cell that does not return, whose failure is the failure of
    the whole; when all return there is one result for each cell and the
    trace is empty again. *)
Theorem main_loop_evaluates_cells_independently (fuel : nat) (cells : list Cell) :
  evaluateAll fuel cells [] = eachFromEmpty (evalOrKeep fuel cells) cells /\
  forall (vals : list (number + Cell)) (after : list Cell),
    evaluateAll fuel cells [] = (Return vals, after) ->
    after = [] /\ List.length vals = List.length cells.
Proof.
  unfold evaluateAll. split; [apply mapEval_each_from_empty|].
  intros vals after H. rewrite mapEval_each_from_empty in H.
  exact (eachFromEmpty_returns _ _ _ _ H).
Qed.

Lemma tableRows_chunks {A : Type} (width : nat) (cells : list A) (k : nat) :
  forall (fuel i : nat),
    0 < width -> List.length cells = i + width * k -> k <= fuel ->
    exists rows,
      tableRows fuel width i cells = Return rows /\
      List.concat rows = skipn i cells /\
      Forall (fun row => List.length row = width) rows /\
      List.length rows = k.
Proof.
  induction k as [|k IH]; intros fuel i Hw Hlen Hfuel.
  - exists []. assert (Hlt : Nat.ltb i (List.length cells) = false)
      by (apply Nat.ltb_ge; lia).
    split; [destruct fuel; cbn [tableRows]; rewrite Hlt; reflexivity|].
    split; [rewrite skipn_all2 by lia; reflexivity|]. split; [constructor|reflexivity].
  - destruct fuel as [|fuel]; [lia|].
    assert (Hlt : Nat.ltb i (List.length cells) = true) by (apply Nat.ltb_lt; nia).
    destruct (IH fuel (i + width) Hw ltac:(nia) ltac:(lia))
      as [rows [Hrows [Hcat [Hall Hk]]]].
    exists (firstn width (skipn i cells) :: rows).
    split; [cbn [tableRows]; rewrite Hlt, Hrows; reflexivity|].
    split; [|split].
    + cbn [List.concat]. rewrite Hcat, Nat.add_comm, <- skipn_skipn. apply firstn_skipn.
    + constructor; [|exact Hall]. rewrite firstn_length_le; [reflexivity|].
      rewrite length_skipn. nia.
    + cbn [List.length]. rewrite Hk. reflexivity.
Qed.

(** With a header of no cell the printing loop would not end on a grid
    that has a cell. *)
Lemma tableRows_zero_width {A : Type} (fuel : nat) (c : A) (cells : list A) :
  tableRows fuel 0 0 (c :: cells) = OutOfFuel.
Proof. induction fuel as [|fuel IH]; cbn [tableRows List.length Nat.ltb Nat.leb Nat.add bind];
  [reflexivity|]. cbn [Nat.add] in IH. rewrite IH. reflexivity. Qed.

Lemma parseCells_count (src : string) (cells : list Cell) (header : list CellContent) :
  parseCells src = Return (cells, header) ->
  List.length cells = List.length header * List.length (tl (cellsSrcOf src)) /\
  (header = [] -> cells = []).
Proof.
  intros H. destruct (parseCells_inv _ _ _ H)
    as [[Hsrc [-> ->]]|[first [rows [names [Hsrc [Hne [Hhd [Hnames [_ [Hrect Hrows]]]]]]]]]].
  - rewrite Hsrc. auto.
  - rewrite Hsrc. cbn [tl].
    pose proof (parseRows_outcome names rows 0 [] Hrect (Forall_nil _)) as Hr.
    rewrite Hrows in Hr. destruct Hr as [Hlen _]. cbn [List.length Nat.add] in Hlen.
    rewrite <- (identifierValues_length _ _ Hnames). split; [exact Hlen|].
    intros ->. apply mapOutcome_length in Hhd. destruct first; [contradiction|discriminate Hhd].
Qed.

(** X17. On every parsed grid the printing loop of the main program ends
    and goes through the data rows: as many rows as the source has data
    rows, each as long as the header, which put end to end are the cells.
    (The loop steps by the length of the header; it could not end with an
    empty header and a cell, which no parsed grid has.) *)
Theorem printing_loop_goes_through_the_rows
  (src : string) (cells : list Cell) (header : list CellContent) :
  parseCells src = Return (cells, header) ->
  exists rows,
    tableRows (List.length cells) (List.length header) 0 cells = Return rows /\
    List.concat rows = cells /\
    Forall (fun row => List.length row = List.length header) rows /\
    List.length rows = List.length (tl (cellsSrcOf src)).
Proof.
  intros H. destruct (parseCells_count _ _ _ H) as [Hlen Hnil].
  destruct header as [|h header].
  - rewrite (Hnil eq_refl) in *. exists []. cbn [List.length Nat.mul] in *.
    repeat split; try constructor.
    destruct (parseCells_inv _ _ _ H)
      as [[Hsrc _]|[first [rows [names [_ [Hne [Hhd _]]]]]]]; [rewrite Hsrc; reflexivity|].
    apply mapOutcome_length in Hhd. destruct first; [contradiction|discriminate Hhd].
  - apply (tableRows_chunks (List.length (h :: header)) cells
             (List.length (tl (cellsSrcOf src))) (List.length cells) 0).
    + cbn [List.length]. lia.
    + exact Hlen.
    + rewrite Hlen. cbn [List.length]. nia.
Qed.

(** X17 at the grid of header [A,B] and data row [1,=A1+1]. *)
Lemma printing_loop_goes_through_the_rows_witness :
  exists rows,
    tableRows 2 2 0 [sumA1; sumB1] = Return rows /\
    List.concat rows = [sumA1; sumB1] /\
    Forall (fun row => List.length row = 2) rows /\
    List.length rows = List.length (tl (cellsSrcOf sumGrid)).
Proof.
  exact (printing_loop_goes_through_the_rows sumGrid [sumA1; sumB1]
           [IdentifierCell "A" "A"; IdentifierCell "B" "B"] eq_refl).
Defined.
